(** * fix-ts.py: the TypeScript error auto-fixer

    A shallow embedding of [scripts/fix-ts.py] and the properties of its
    diagnostic parser, its rewrite rules, its file patcher and its
    orchestration.

    Text is a [string] whose characters stand for the code points 0..255 of
    a Python [str]; the character classes of Python's [re] module and
    [str.strip] are the Unicode-aware ones, restricted to that range. *)

From Stdlib Require Import Ascii ZArith NArith Lia Bool.
From Stdlib Require String.
From Stdlib Require Import Permutation Sorted.
From stdpp Require Import gmap strings list.

(** ** Python strings *)

Module Py.

Definition code (c : ascii) : N := N_of_ascii c.

Definition in_range (lo hi : N) (c : ascii) : bool :=
  ((lo <=? code c) && (code c <=? hi))%N.

(** [str.isspace] on one character, which is also [\s]. *)
Definition is_space (c : ascii) : bool :=
  in_range 9 13 c || in_range 28 32 c
  || (code c =? 133)%N || (code c =? 160)%N.

(** [\d]. *)
Definition is_digit (c : ascii) : bool := in_range 48 57 c.

(** [\w]: alphanumeric characters and the underscore. *)
Definition is_word (c : ascii) : bool :=
  is_digit c || in_range 65 90 c || in_range 97 122 c
  || (code c =? 95)%N
  || (code c =? 170)%N || in_range 178 179 c || (code c =? 181)%N
  || in_range 185 186 c || in_range 188 190 c
  || in_range 192 214 c || in_range 216 246 c || in_range 248 255 c.

Definition nl : ascii := "010"%char.
Definition dquote : ascii := "034"%char.
Definition squote : ascii := "039"%char.

Definition chr (c : ascii) : string := String c "".

(** [s.startswith(p)] *)
Fixpoint startswith (s p : string) {struct p} : bool :=
  match p with
  | EmptyString => true
  | String a p' =>
      match s with
      | EmptyString => false
      | String b s' => if Ascii.eqb a b then startswith s' p' else false
      end
  end.

(** [s[n:]] *)
Fixpoint drop (n : nat) (s : string) : string :=
  match n with
  | 0 => s
  | S n' => match s with EmptyString => "" | String _ s' => drop n' s' end
  end.

(** [s[:n]] *)
Fixpoint take (n : nat) (s : string) : string :=
  match n with
  | 0 => ""
  | S n' =>
      match s with EmptyString => "" | String c s' => String c (take n' s') end
  end.

(** [needle in hay] *)
Fixpoint contains (hay needle : string) : bool :=
  startswith hay needle
  || match hay with
     | EmptyString => false
     | String _ hay' => contains hay' needle
     end.

(** [str.replace] with an empty [old]: [new] goes before every character
    and at the end. *)
Fixpoint replace_empty (new s : string) : string :=
  match s with
  | EmptyString => new
  | String c s' => new +:+ String c (replace_empty new s')
  end.

(** [str.replace] with a non-empty [old]: every occurrence, left to right,
    without overlap; [skip] characters still belong to the occurrence
    just replaced. *)
Fixpoint replace_go (old new s : string) (skip : nat) : string :=
  match s with
  | EmptyString => ""
  | String c s' =>
      match skip with
      | S k => replace_go old new s' k
      | 0 =>
          if startswith s old
          then new +:+ replace_go old new s' (String.length old - 1)
          else String c (replace_go old new s' 0)
      end
  end.

(** [s.replace(old, new)] *)
Definition replace (s old new : string) : string :=
  match old with
  | EmptyString => replace_empty new s
  | _ => replace_go old new s 0
  end.

Fixpoint lstrip (s : string) : string :=
  match s with
  | EmptyString => ""
  | String c s' => if is_space c then lstrip s' else s
  end.

Fixpoint rstrip (s : string) : string :=
  match s with
  | EmptyString => ""
  | String c s' =>
      match rstrip s' with
      | EmptyString => if is_space c then "" else String c ""
      | t => String c t
      end
  end.

(** [s.strip()] *)
Definition strip (s : string) : string := rstrip (lstrip s).

(** [s.split('\n')] *)
Fixpoint split_nl (s : string) : list string :=
  match s with
  | EmptyString => [""]
  | String c s' =>
      if Ascii.eqb c nl then "" :: split_nl s'
      else match split_nl s' with
           | h :: t => String c h :: t
           | [] => [String c ""]
           end
  end.

(** [s.split('/')] *)
Fixpoint split_slash (s : string) : list string :=
  match s with
  | EmptyString => [""]
  | String c s' =>
      if Ascii.eqb c "/" then "" :: split_slash s'
      else match split_slash s' with
           | h :: t => String c h :: t
           | [] => [String c ""]
           end
  end.

(** ['/'.join(parts)] *)
Fixpoint join_slash (parts : list string) : string :=
  match parts with
  | [] => ""
  | [x] => x
  | x :: parts' => x +:+ "/" +:+ join_slash parts'
  end.

(** The root of a POSIX path: one slash, except that exactly two slashes
    at the front stay two. *)
Definition path_root (s : string) : string :=
  if startswith s "///" then "/"
  else if startswith s "//" then "//"
  else if startswith s "/" then "/"
  else "".

(** The components of a POSIX path: the empty ones and [.] are dropped. *)
Definition path_parts (s : string) : list string :=
  filter (fun x => negb (String.eqb x "" || String.eqb x "."))
    (split_slash s).

(** [str(Path(s))] on a POSIX system. *)
Definition path_str (s : string) : string :=
  let t := path_root s +:+ join_slash (path_parts s) in
  if String.eqb t "" then "." else t.

(** [int(s)] on a run of decimal digits.  CPython converts a run of at
    most 4300 digits, and raises [ValueError] on a longer one; the value
    here is that of [int] on the runs it converts. *)
Definition digit_value (c : ascii) : Z := Z.of_N (code c) - 48.

Fixpoint int_go (acc : Z) (s : string) : Z :=
  match s with
  | EmptyString => acc
  | String c s' => int_go (10 * acc + digit_value c) s'
  end.

Definition int (s : string) : Z := int_go 0 s.

End Py.

(** ** Python's [re]: a backtracking matcher

    The patterns of the script use literals, character classes, greedy and
    lazy repetition of one class, optional groups, alternation, capture
    groups, a back-reference and the two anchors.  The matcher explores the
    alternatives in the order of [re]: the leftmost alternative first, the
    longest repetition first when greedy and the shortest first when lazy. *)

Module Re.

Inductive cset : Type :=
| CAny                      (* [.]: anything but a newline *)
| CSpace                    (* [\s] *)
| CWord                     (* [\w] *)
| CDigit                    (* [\d] *)
| COneOf (cs : string)      (* [[...]] *)
| CNoneOf (cs : string).    (* [[^...]] *)

Fixpoint mem (c : ascii) (cs : string) : bool :=
  match cs with
  | EmptyString => false
  | String d cs' => Ascii.eqb c d || mem c cs'
  end.

Definition in_cset (k : cset) (c : ascii) : bool :=
  match k with
  | CAny => negb (Ascii.eqb c Py.nl)
  | CSpace => Py.is_space c
  | CWord => Py.is_word c
  | CDigit => Py.is_digit c
  | COneOf cs => mem c cs
  | CNoneOf cs => negb (mem c cs)
  end.

Inductive regex : Type :=
| Eps
| Lit (s : string)                 (* literal text *)
| Cls (k : cset)                   (* one character of a class *)
| Seq (r1 r2 : regex)
| Alt (r1 r2 : regex)              (* [r1|r2] *)
| Star (greedy : bool) (k : cset)  (* [k*] and [k*?] *)
| Opt (r : regex)                  (* [(?:r)?] *)
| Group (n : nat) (r : regex)      (* the [n]-th capture group *)
| Backref (n : nat)                (* [\n] *)
| Bol                              (* [^] *)
| Eol.                             (* [$] *)

(** [k+] and [k+?] *)
Definition Plus (greedy : bool) (k : cset) : regex :=
  Seq (Cls k) (Star greedy k).

Fixpoint seq (rs : list regex) : regex :=
  match rs with
  | [] => Eps
  | [r] => r
  | r :: rs' => Seq r (seq rs')
  end.

(** The matcher's state: the position in the subject, the text from there
    on, and the groups captured so far (the latest binding first). *)
Record mstate : Type := MState {
  pos : nat;
  rest : string;
  caps : list (nat * string)
}.

Fixpoint lookup_cap (n : nat) (cs : list (nat * string)) : option string :=
  match cs with
  | [] => None
  | (m, s) :: cs' => if Nat.eqb n m then Some s else lookup_cap n cs'
  end.

Definition or_else {A} (x y : option A) : option A :=
  match x with
  | Some a => Some a
  | None => y
  end.

(** Greedy repetition: take one more character when possible, and give
    one back when what follows fails. *)
Fixpoint star_greedy {A} (p : ascii -> bool) (s : string) (n : nat)
    (k : nat -> string -> option A) : option A :=
  match s with
  | EmptyString => k n s
  | String c s' =>
      if p c then or_else (star_greedy p s' (S n) k) (k n s) else k n s
  end.

(** Lazy repetition: try what follows first, and take one more character
    only when it fails. *)
Fixpoint star_lazy {A} (p : ascii -> bool) (s : string) (n : nat)
    (k : nat -> string -> option A) : option A :=
  match k n s with
  | Some a => Some a
  | None =>
      match s with
      | EmptyString => None
      | String c s' => if p c then star_lazy p s' (S n) k else None
      end
  end.

Definition advance (st : mstate) (n : nat) : mstate :=
  MState (pos st + n) (Py.drop n (rest st)) (caps st).

Fixpoint exec (r : regex) (st : mstate) (k : mstate -> option mstate)
    : option mstate :=
  match r with
  | Eps => k st
  | Lit s =>
      if Py.startswith (rest st) s then k (advance st (String.length s))
      else None
  | Cls c =>
      match rest st with
      | EmptyString => None
      | String a s' =>
          if in_cset c a then k (MState (S (pos st)) s' (caps st)) else None
      end
  | Seq r1 r2 => exec r1 st (fun st' => exec r2 st' k)
  | Alt r1 r2 => or_else (exec r1 st k) (exec r2 st k)
  | Star g c =>
      let k' n s := k (MState n s (caps st)) in
      if g then star_greedy (in_cset c) (rest st) (pos st) k'
      else star_lazy (in_cset c) (rest st) (pos st) k'
  | Opt r1 => or_else (exec r1 st k) (k st)
  | Group n r1 =>
      exec r1 st (fun st' =>
        k (MState (pos st') (rest st')
             ((n, Py.take (pos st' - pos st) (rest st)) :: caps st')))
  | Backref n =>
      match lookup_cap n (caps st) with
      | None => None
      | Some s =>
          if Py.startswith (rest st) s then k (advance st (String.length s))
          else None
      end
  | Bol => if Nat.eqb (pos st) 0 then k st else None
  | Eol =>
      match rest st with
      | EmptyString => k st
      | String a EmptyString => if Ascii.eqb a Py.nl then k st else None
      | _ => None
      end
  end.

(** A match object: the matched text ([group(0)]) and the groups. *)
Record rmatch : Type := RMatch {
  m_text : string;
  m_caps : list (nat * string)
}.

(** [m.group(n)] for [n >= 1]; [None] when the group took no part. *)
Definition group (m : rmatch) (n : nat) : option string :=
  lookup_cap n (m_caps m).

(** The pattern tried at position [p], where [s] is the subject from [p]
    on. *)
Definition match_at (r : regex) (p : nat) (s : string) : option rmatch :=
  match exec r (MState p s []) Some with
  | None => None
  | Some st => Some (RMatch (Py.take (pos st - p) s) (caps st))
  end.

(** [re.match(r, s)] *)
Definition rematch (r : regex) (s : string) : option rmatch := match_at r 0 s.

(** [re.search(r, s)]: the leftmost position with a match. *)
Fixpoint search_from (r : regex) (p : nat) (s : string) : option rmatch :=
  match match_at r p s with
  | Some m => Some m
  | None =>
      match s with
      | EmptyString => None
      | String _ s' => search_from r (S p) s'
      end
  end.

Definition search (r : regex) (s : string) : option rmatch := search_from r 0 s.

(** [re.sub(r, f, s)] with a function [f] as replacement.  The function
    of the script updates a counter, which is threaded as the state [St].
    [skip] characters still belong to the match just replaced. *)
Fixpoint sub_go {St} (r : regex) (f : rmatch -> St -> string * St)
    (s : string) (p skip : nat) (acc : St) : string * St :=
  match skip with
  | S k =>
      match s with
      | EmptyString => ("", acc)
      | String _ s' => sub_go r f s' (S p) k acc
      end
  | 0 =>
      match match_at r p s with
      | Some m =>
          let '(out, acc1) := f m acc in
          match s with
          | EmptyString => (out, acc1)
          | String c s' =>
              match String.length (m_text m) with
              | 0 =>
                  let '(tl, acc2) := sub_go r f s' (S p) 0 acc1 in
                  (out +:+ String c tl, acc2)
              | S k =>
                  let '(tl, acc2) := sub_go r f s' (S p) k acc1 in
                  (out +:+ tl, acc2)
              end
          end
      | None =>
          match s with
          | EmptyString => ("", acc)
          | String c s' =>
              let '(tl, acc1) := sub_go r f s' (S p) 0 acc in
              (String c tl, acc1)
          end
      end
  end.

Definition sub_with {St} (r : regex) (f : rmatch -> St -> string * St)
    (s : string) (acc : St) : string * St :=
  sub_go r f s 0 0 acc.

(** [re.sub(r, template, s)] with a replacement that does not depend on
    a counter. *)
Definition sub (r : regex) (f : rmatch -> string) (s : string) : string :=
  fst (sub_with r (fun m (_ : unit) => (f m, tt)) s tt).


End Re.

(** ** The rewrite rules *)

Module Rules.
Import Re.

Abbreviation greedy := true (only parsing).
Abbreviation lazy := false (only parsing).

(** The class of the two quote characters, written [Q] in the patterns
    quoted below. *)
Definition quotes : cset := COneOf (String Py.squote (String Py.dquote "")).

(** A group as an f-string prints it. *)
Definition fmt (o : option string) : string :=
  match o with
  | Some s => s
  | None => "None"
  end.

(** The truth value of a group: [None] and the empty text are false. *)
Definition truthy (o : option string) : bool :=
  match o with
  | Some (String _ _) => true
  | _ => false
  end.

(** *** [fix_supabase_never_types] *)

(** [const\s+\{\s*data:\s*(\w+)(?:,\s*error:\s*(\w+))?\s*\}\s*=\s*await\s+supabase\s*\.from\(Q(\w+)Q\)\s*\.select\(] *)
Definition pattern1 : regex :=
  seq [ Lit "const"; Plus greedy CSpace; Lit "{"; Star greedy CSpace;
        Lit "data:"; Star greedy CSpace; Group 1 (Plus greedy CWord);
        Opt (seq [ Lit ","; Star greedy CSpace; Lit "error:";
                   Star greedy CSpace; Group 2 (Plus greedy CWord) ]);
        Star greedy CSpace; Lit "}"; Star greedy CSpace; Lit "=";
        Star greedy CSpace; Lit "await"; Plus greedy CSpace;
        Lit "supabase"; Star greedy CSpace; Lit ".from("; Cls quotes;
        Group 3 (Plus greedy CWord); Cls quotes; Lit ")";
        Star greedy CSpace; Lit ".select(" ].

Definition add_type_assertion (m : rmatch) (fixes : nat) : string * nat :=
  let data_var := group m 1 in
  let error_var := group m 2 in
  let table := group m 3 in
  if Py.contains (m_text m) " as " then (m_text m, fixes)
  else
    let fixes := fixes + 1 in
    if truthy error_var then
      ("const { data: " +:+ fmt data_var +:+ ", error: " +:+ fmt error_var
         +:+ " } = await supabase.from('" +:+ fmt table +:+ "').select(",
       fixes)
    else
      ("const { data: " +:+ fmt data_var
         +:+ " } = await supabase.from('" +:+ fmt table +:+ "').select(",
       fixes).

(** [\.(insert|update)\(([^)]+)\)] *)
Definition pattern2 : regex :=
  seq [ Lit "."; Group 1 (Alt (Lit "insert") (Lit "update")); Lit "(";
        Group 2 (Plus greedy (CNoneOf ")")); Lit ")" ].

(** [^\w+$] *)
Definition word_re : regex := seq [ Bol; Plus greedy CWord; Eol ].

Definition fix_insert_update (m : rmatch) (fixes : nat) : string * nat :=
  let method := group m 1 in
  let arg := fmt (group m 2) in
  if Py.contains arg " as " then (m_text m, fixes)
  else if Py.startswith (Py.strip arg) "{"
          || bool_decide (is_Some (rematch word_re (Py.strip arg)))
  then ("." +:+ fmt method +:+ "(" +:+ arg +:+ " as any)", fixes + 1)
  else (m_text m, fixes).

(** The two substitutions of [fix_supabase_never_types], between its read
    and its write. *)
Definition supabase_never_types_subs (content : string) : string * nat :=
  let fixes := 0 in
  let '(content, fixes) := sub_with pattern1 add_type_assertion content fixes in
  sub_with pattern2 fix_insert_update content fixes.

(** *** [fix_any_to_never_errors] *)

(** [\.eq\(Q(\w+)Q\s*,\s*(\w+)\)] and the same for [in] *)
Definition call_pattern (name : string) : regex :=
  seq [ Lit ("." +:+ name +:+ "("); Cls quotes; Group 1 (Plus greedy CWord);
        Cls quotes; Star greedy CSpace; Lit ","; Star greedy CSpace;
        Group 2 (Plus greedy CWord); Lit ")" ].

(** The template [.eq(\'\1\', \2 as any)]: [\1] and [\2] are the groups;
    a backslash before a quote is no escape of a template, and both
    characters go to the output. *)
Definition call_template (name : string) (m : rmatch) : string :=
  "." +:+ name +:+ "(\'" +:+ fmt (group m 1) +:+ "\', "
    +:+ fmt (group m 2) +:+ " as any)".

Definition patterns : list (regex * (rmatch -> string)) :=
  [ (call_pattern "eq", call_template "eq");
    (call_pattern "in", call_template "in") ].

(** The loop over [patterns]. *)
Fixpoint any_to_never_loop (ps : list (regex * (rmatch -> string)))
    (content : string) (fixes : nat) : string * nat :=
  match ps with
  | [] => (content, fixes)
  | (pattern, replacement) :: ps' =>
      let new_content := sub pattern replacement content in
      if bool_decide (new_content <> content)
      then any_to_never_loop ps' new_content (fixes + 1)
      else any_to_never_loop ps' content fixes
  end.

Definition any_to_never_subs (content : string) : string * nat :=
  any_to_never_loop patterns content 0.

(** *** [fix_error_handling] *)

(** [catch\s*\((\w+)\)\s*\{([^}]*?)(?:logger\.error|console\.error)\s*\([^\)]*?,\s*\1\s*\)] *)
Definition pattern : regex :=
  seq [ Lit "catch"; Star greedy CSpace; Lit "("; Group 1 (Plus greedy CWord);
        Lit ")"; Star greedy CSpace; Lit "{";
        Group 2 (Star lazy (CNoneOf "}"));
        Alt (Lit "logger.error") (Lit "console.error");
        Star greedy CSpace; Lit "("; Star lazy (CNoneOf ")"); Lit ",";
        Star greedy CSpace; Backref 1; Star greedy CSpace; Lit ")" ].

(** [\n(\s+)] *)
Definition indent_re : regex :=
  seq [ Lit (Py.chr Py.nl); Group 1 (Plus greedy CSpace) ].

Definition fix_catch (m : rmatch) (fixes : nat) : string * nat :=
  let error_var := fmt (group m 1) in
  let block_content := fmt (group m 2) in
  if Py.contains block_content ("const err = " +:+ error_var +:+ " instanceof Error")
  then (m_text m, fixes)
  else
    let indent :=
      match search indent_re block_content with
      | Some indent_match => fmt (group indent_match 1)
      | None => "    "
      end in
    let error_handler :=
      Py.chr Py.nl +:+ indent +:+ "const err = " +:+ error_var
        +:+ " instanceof Error ? " +:+ error_var
        +:+ " : new Error(String(" +:+ error_var +:+ "));" in
    let fixes := fixes + 1 in
    let new_block := error_handler +:+ block_content in
    let result :=
      Py.replace (Py.replace (m_text m) block_content new_block)
        (", " +:+ error_var +:+ ")") ", err)" in
    (result, fixes).

Definition error_handling_subs (content : string) : string * nat :=
  sub_with pattern fix_catch content 0.

(** *** A rule as the function on contents that its file function
    computes: the new content of the file and the count it returns.  The
    count is [fixes] when the content has changed and 0 when it has not. *)
Definition as_rule (subs : string -> string * nat) (content : string)
    : string * nat :=
  let original := content in
  let '(content, fixes) := subs content in
  if bool_decide (content <> original) then (content, fixes)
  else (content, 0).

Definition supabase_never_types_rule := as_rule supabase_never_types_subs.
Definition any_to_never_rule := as_rule any_to_never_subs.
Definition error_handling_rule := as_rule error_handling_subs.

End Rules.

(** ** The diagnostic parser and the ranking *)

Module Parser.
Import Re Rules.

(** One entry of [errors_by_file[file_path]]. *)
Record diag : Type := Diag {
  line : Z;
  col : Z;
  code : string;
  message : string
}.

(** [^(.+?\.tsx?)\((\d+),(\d+)\): error (TS\d+): (.+)$] *)
Definition error_re : regex :=
  seq [ Bol; Group 1 (seq [ Plus lazy CAny; Lit ".ts"; Opt (Lit "x") ]);
        Lit "("; Group 2 (Plus greedy CDigit); Lit ",";
        Group 3 (Plus greedy CDigit); Lit "): error ";
        Group 4 (seq [ Lit "TS"; Plus greedy CDigit ]); Lit ": ";
        Group 5 (Plus greedy CAny); Eol ].

(** [errors_by_file] is a [defaultdict(list)]: its keys stay in the order
    of their first use, which [sorted] later relies on. *)
Definition errors := list (string * list diag).

(** [d[key].append(v)] *)
Fixpoint dict_append (d : errors) (key : string) (v : diag) : errors :=
  match d with
  | [] => [(key, [v])]
  | (k, vs) :: d' =>
      if String.eqb k key then (k, vs ++ [v]) :: d'
      else (k, vs) :: dict_append d' key v
  end.

(** The body of the loop of [parse_errors]: the file and the entry of one
    line, when the line matches. *)
Definition parse_line (ln : string) : option (string * diag) :=
  match rematch error_re ln with
  | Some m =>
      let file_path := fmt (group m 1) in
      let line_num := fmt (group m 2) in
      let col := fmt (group m 3) in
      let error_code := fmt (group m 4) in
      let message := fmt (group m 5) in
      Some (file_path, Diag (Py.int line_num) (Py.int col) error_code message)
  | None => None
  end.

Definition parse_step (errors_by_file : errors) (ln : string) : errors :=
  match parse_line ln with
  | Some (file_path, d) => dict_append errors_by_file file_path d
  | None => errors_by_file
  end.

Definition parse_errors (lines : list string) : errors :=
  fold_left parse_step lines [].

(** [sum(len(errors) for errors in errors_by_file.values())] *)
Definition count_errors (errors_by_file : errors) : nat :=
  foldr (fun kv n => length kv.2 + n) 0 errors_by_file.

(** [sorted(l, key=key, reverse=True)]: descending keys, and elements
    with equal keys in the order they have in [l]. *)
Fixpoint insert_desc {A} (key : A -> nat) (x : A) (l : list A) : list A :=
  match l with
  | [] => [x]
  | y :: l' =>
      if key y <=? key x then x :: y :: l'
      else y :: insert_desc key x l'
  end.

Fixpoint sorted_desc {A} (key : A -> nat) (l : list A) : list A :=
  match l with
  | [] => []
  | x :: l' => insert_desc key x (sorted_desc key l')
  end.

(** [sorted(errors_by_file.items(), key=lambda x: len(x[1]), reverse=True)] *)
Definition sorted_files (errors_by_file : errors) : errors :=
  sorted_desc (fun x => length x.2) errors_by_file.

End Parser.

(** ** Files, the checker process and the output *)

Module IO.

(** What [subprocess.run] and the file operations raise. *)
Inductive exn : Type :=
| OSError (what : string).

(** A file: its text, and whether it can be read and written. *)
Record fnode : Type := FNode {
  f_text : string;
  f_readable : bool;
  f_writable : bool
}.

Inductive io_event : Type :=
| EvRead (path : string)
| EvWrite (path : string) (text : string).

(** The lines the script prints. *)
Inductive out : Type :=
| OutRunning                                     (* Running TypeScript compiler to find errors... *)
| OutTscError (e : exn)                          (* Error running tsc: {e} *)
| OutFound (total_errors files : nat)            (* Found {} errors in {} files *)
| OutNoErrors                                    (* No TypeScript errors found! *)
| OutTopHeader                                   (* Top 10 files with most errors: *)
| OutTop (errors : nat) (file_path : string)     (* {len(errors):3d} - {file_path} *)
| OutBlank
| OutApplying                                    (* Applying fixes... *)
| OutFileFixed (file_path : string) (fixes : nat)  (* {file_path}: {fixes} pattern fixes applied *)
| OutApplied (total_fixes files_modified : nat)  (* Applied {} fixes to {} files *)
| OutRerunning                                   (* Re-running TypeScript compiler... *)
| OutResults                                     (* Results: *)
| OutBefore (total_errors : nat)                 (* Before: {} errors *)
| OutAfter (remaining_errors : nat)              (* After: {} errors *)
| OutFixed (fixed : Z)                           (* Fixed: {} errors *)
| OutFilesModified (files_modified : nat).       (* Files modified: {} *)

Record world : Type := World {
  fs : gmap string fnode;
  io_log : list io_event;
  stdout : list out
}.

(** What [subprocess.run] does: it raises when the process cannot be
    started, and returns the two streams otherwise. *)
Inductive proc : Type :=
| Raised (e : exn)
| Completed (proc_stdout proc_stderr : string).

(** A computation on the world that returns or raises. *)
Definition M (A : Type) : Type := world -> (exn + A) * world.

Definition ret {A} (a : A) : M A := fun w => (inr a, w).

Definition raise {A} (e : exn) : M A := fun w => (inl e, w).

Definition bind {A B} (m : M A) (f : A -> M B) : M B :=
  fun w =>
    match m w with
    | (inl e, w') => (inl e, w')
    | (inr a, w') => f a w'
    end.

Definition print (o : out) : M unit :=
  fun w => (inr tt, World (fs w) (io_log w) (stdout w ++ [o])).

(** [file_path.exists()] *)
Definition path_exists (file_path : string) : M bool :=
  fun w => (inr (bool_decide (is_Some (fs w !! file_path))), w).

(** [file_path.read_text(encoding='utf-8')] *)
Definition read_text (file_path : string) : M string :=
  fun w =>
    match fs w !! file_path with
    | Some f =>
        if f_readable f
        then (inr (f_text f),
              World (fs w) (io_log w ++ [EvRead file_path]) (stdout w))
        else (inl (OSError file_path), w)
    | None => (inl (OSError file_path), w)
    end.

(** [file_path.write_text(content, encoding='utf-8')] *)
Definition write_text (file_path content : string) : M unit :=
  fun w =>
    match fs w !! file_path with
    | Some f =>
        if f_writable f
        then (inr tt,
              World (<[file_path := FNode content (f_readable f) true]> (fs w))
                (io_log w ++ [EvWrite file_path content]) (stdout w))
        else (inl (OSError file_path), w)
    | None =>
        (inr tt,
         World (<[file_path := FNode content true true]> (fs w))
           (io_log w ++ [EvWrite file_path content]) (stdout w))
    end.

End IO.

Notation "x <- m ;; k" := (IO.bind m (fun x => k))
  (at level 100, m at next level, right associativity).
Notation "m ;;; k" := (IO.bind m (fun _ => k))
  (at level 100, right associativity).

(** ** The script *)

Module Script.
Import Re Rules Parser IO.

(** The checker, [npx tsc --noEmit], as a function of the files it sees. *)
Definition checker : Type := gmap string fnode -> proc.

Definition run_tsc (tsc : checker) : M (list string) :=
  fun w =>
    match tsc (fs w) with
    | Completed out err =>
        ret (if bool_decide (err <> "") then Py.split_nl err
             else Py.split_nl out) w
    | Raised e => (print (OutTscError e) ;;; ret []) w
    end.

(** What the three fix functions share: read the file, substitute, and
    write the file back when its content has changed. *)
Definition fix_file (subs : string -> string * nat) (file_path : string)
    : M nat :=
  content <- read_text file_path ;;
  let original := content in
  let '(content, fixes) := subs content in
  if bool_decide (content <> original)
  then write_text file_path content ;;; ret fixes
  else ret 0.

Definition fix_supabase_never_types : string -> M nat :=
  fix_file supabase_never_types_subs.

Definition fix_any_to_never_errors : string -> M nat :=
  fix_file any_to_never_subs.

Definition fix_error_handling : string -> M nat :=
  fix_file error_handling_subs.

(** The three calls of the loop body of [main], for a file that exists. *)
Definition patch_file (file_path : string) : M nat :=
  let fixes := 0 in
  n <- fix_supabase_never_types file_path ;;
  let fixes := fixes + n in
  n <- fix_any_to_never_errors file_path ;;
  let fixes := fixes + n in
  n <- fix_error_handling file_path ;;
  let fixes := fixes + n in
  ret fixes.

(** The loop over [sorted_files].  [Path(file_path_str)] names the file
    that [file_path_str] names, and is printed as [str] spells it. *)
Fixpoint patch_loop (files : errors) (total_fixes files_modified : nat)
    : M (nat * nat) :=
  match files with
  | [] => ret (total_fixes, files_modified)
  | (file_path, _) :: files' =>
      present <- path_exists file_path ;;
      if negb present then patch_loop files' total_fixes files_modified
      else
        fixes <- patch_file file_path ;;
        if 0 <? fixes then
          print (OutFileFixed (Py.path_str file_path) fixes) ;;;
          patch_loop files' (total_fixes + fixes) (files_modified + 1)
        else patch_loop files' total_fixes files_modified
  end.

Fixpoint print_all (os : list out) : M unit :=
  match os with
  | [] => ret tt
  | o :: os' => print o ;;; print_all os'
  end.

Definition main (tsc : checker) : M Z :=
  print OutRunning ;;;
  error_lines <- run_tsc tsc ;;
  let errors_by_file := parse_errors error_lines in
  let total_errors := count_errors errors_by_file in
  print (OutFound total_errors (length errors_by_file)) ;;;
  if bool_decide (errors_by_file = []) then
    print OutNoErrors ;;; ret 0%Z
  else
    let sorted_files := sorted_files errors_by_file in
    print OutTopHeader ;;;
    print_all (map (fun x => OutTop (length x.2) x.1) (take 10 sorted_files)) ;;;
    print OutBlank ;;;
    print OutApplying ;;;
    totals <- patch_loop sorted_files 0 0 ;;
    let '(total_fixes, files_modified) := totals in
    print (OutApplied total_fixes files_modified) ;;;
    print OutRerunning ;;;
    error_lines <- run_tsc tsc ;;
    let errors_by_file := parse_errors error_lines in
    let remaining_errors := count_errors errors_by_file in
    print OutResults ;;;
    print (OutBefore total_errors) ;;;
    print (OutAfter remaining_errors) ;;;
    print (OutFixed (Z.of_nat total_errors - Z.of_nat remaining_errors)) ;;;
    print (OutFilesModified files_modified) ;;;
    ret 0%Z.

(** [sys.exit(main())]: the status is what [main] returns, and 1 when an
    exception leaves [main]. *)
Definition exit_status (r : exn + Z) : Z :=
  match r with
  | inr n => n
  | inl _ => 1%Z
  end.

Definition run (tsc : checker) (w : world) : Z * world :=
  let '(r, w') := main tsc w in (exit_status r, w').

End Script.

(** ** Definitions used to state the properties *)

(** *** Texts *)

(** Every character of [s] satisfies [p]. *)
Fixpoint all_in (p : ascii -> bool) (s : string) : bool :=
  match s with
  | EmptyString => true
  | String c s' => p c && all_in p s'
  end.

(** The character [c] does not occur in [s]. *)
Definition free_of (c : ascii) (s : string) : bool :=
  all_in (fun d => negb (Ascii.eqb c d)) s.

(** The text [s] does not go on with a character of the class [p]. *)
Definition stops (p : ascii -> bool) (s : string) : bool :=
  match s with
  | EmptyString => true
  | String c _ => negb (p c)
  end.

(** A run of blanks, a name, a quote. *)
Definition blank (s : string) : bool := all_in Py.is_space s.

Definition word (s : string) : bool :=
  match s with
  | EmptyString => false
  | _ => all_in Py.is_word s
  end.

Definition is_quote (c : ascii) : bool := Re.in_cset Rules.quotes c.

(** *** Matches *)

(** What it means for [r] to match between two states of the matcher,
    whatever the order in which the matcher tries the alternatives: [st'] is
    the state after a match of [r] that starts in [st]. *)
Fixpoint matches (r : Re.regex) (st st' : Re.mstate) : Prop :=
  match r with
  | Re.Eps => st' = st
  | Re.Lit l =>
      Re.rest st = l +:+ Re.rest st'
      /\ Re.pos st' = Re.pos st + String.length l
      /\ Re.caps st' = Re.caps st
  | Re.Cls k =>
      exists a,
        Re.rest st = String a (Re.rest st')
        /\ Re.in_cset k a = true
        /\ Re.pos st' = S (Re.pos st)
        /\ Re.caps st' = Re.caps st
  | Re.Seq r1 r2 => exists st1, matches r1 st st1 /\ matches r2 st1 st'
  | Re.Alt r1 r2 => matches r1 st st' \/ matches r2 st st'
  | Re.Star _ k =>
      exists w,
        Re.rest st = w +:+ Re.rest st'
        /\ all_in (Re.in_cset k) w = true
        /\ Re.pos st' = Re.pos st + String.length w
        /\ Re.caps st' = Re.caps st
  | Re.Opt r1 => matches r1 st st' \/ st' = st
  | Re.Group n r1 =>
      exists st1,
        matches r1 st st1
        /\ st' = Re.MState (Re.pos st1) (Re.rest st1)
                  ((n, Py.take (Re.pos st1 - Re.pos st) (Re.rest st))
                     :: Re.caps st1)
  | Re.Backref n =>
      exists s,
        Re.lookup_cap n (Re.caps st) = Some s
        /\ Re.rest st = s +:+ Re.rest st'
        /\ Re.pos st' = Re.pos st + String.length s
        /\ Re.caps st' = Re.caps st
  | Re.Bol => Re.pos st = 0 /\ st' = st
  | Re.Eol =>
      (Re.rest st = "" \/ Re.rest st = Py.chr Py.nl) /\ st' = st
  end.

(** The matches that [re.sub] visits, from left to right, as [re.finditer]
    lists them. *)
Fixpoint finditer_go (r : Re.regex) (s : string) (p skip : nat)
    : list Re.rmatch :=
  match skip with
  | S k =>
      match s with
      | EmptyString => []
      | String _ s' => finditer_go r s' (S p) k
      end
  | 0 =>
      match Re.match_at r p s with
      | Some m =>
          m :: match s with
               | EmptyString => []
               | String _ s' =>
                   finditer_go r s' (S p) (Nat.pred (String.length (Re.m_text m)))
               end
      | None =>
          match s with
          | EmptyString => []
          | String _ s' => finditer_go r s' (S p) 0
          end
      end
  end.



(** *** The rules *)

(** The first substitution of [fix_supabase_never_types] on its own: the
    rule for the binding of an untyped result. *)
Definition untyped_binding_rule (content : string) : string * nat :=
  Re.sub_with Rules.pattern1 Rules.add_type_assertion content 0.

(** The second substitution of [fix_supabase_never_types] on its own: the
    rule for the argument of [insert] and [update]. *)
Definition unsound_argument_rule (content : string) : string * nat :=
  Re.sub_with Rules.pattern2 Rules.fix_insert_update content 0.

(** The matches that each replacement function counts.
    [add_type_assertion] counts a statement that holds no [as] between two
    spaces, whether or not the text it returns differs from the statement;
    [fix_insert_update] counts an argument without such an [as] that is an
    object literal or one word; [fix_catch] counts a block that does not
    hold the narrowing line yet. *)
Definition counted1 (m : Re.rmatch) : bool :=
  negb (Py.contains (Re.m_text m) " as ").

Definition counted2 (m : Re.rmatch) : bool :=
  let arg := Rules.fmt (Re.group m 2) in
  negb (Py.contains arg " as ")
  && (Py.startswith (Py.strip arg) "{"
      || bool_decide (is_Some (Re.rematch Rules.word_re (Py.strip arg)))).

Definition counted3 (m : Re.rmatch) : bool :=
  negb (Py.contains (Rules.fmt (Re.group m 2))
          ("const err = " +:+ Rules.fmt (Re.group m 1) +:+ " instanceof Error")).

(** [1] when the two texts differ and [0] when they are equal. *)
Definition changed (a b : string) : nat :=
  if bool_decide (b <> a) then 1 else 0.

(** The shapes of an argument.  It holds an [as] between two spaces. *)
Definition has_assertion (arg : string) : bool := Py.contains arg " as ".

(** The argument, without the blanks around it, is a non-empty run of
    word characters. *)
Definition bare_identifier (arg : string) : bool :=
  match Py.strip arg with
  | EmptyString => false
  | s => all_in Py.is_word s
  end.

(** The first character of the argument after its leading blanks is an
    opening brace. *)
Definition object_literal (arg : string) : bool :=
  Py.startswith (Py.lstrip arg) "{".

(** The parts of a statement that [pattern1] matches: the runs of blanks
    between its tokens, each named after the token that follows it, the
    names, the quotes and the table.  [error_var] holds the blanks after
    the comma, the blanks after [error:] and the name, when the statement
    binds the error too. *)
Record binding : Type := Binding {
  ws_const : string;       (* after [const], not empty *)
  ws_open : string;        (* after the opening brace *)
  ws_data : string;        (* after [data:] *)
  data_var : string;
  error_var : option (string * string * string);
  ws_close : string;       (* before the closing brace *)
  ws_eq : string;          (* before [=] *)
  ws_await : string;       (* before [await] *)
  ws_supabase : string;    (* before [supabase], not empty *)
  ws_from : string;        (* before [.from(] *)
  quote_open : ascii;
  table : string;
  quote_close : ascii;
  ws_select : string       (* before [.select(] *)
}.

Definition error_part (e : option (string * string * string)) : string :=
  match e with
  | Some (ws_comma, ws_error, name) =>
      "," +:+ ws_comma +:+ "error:" +:+ ws_error +:+ name
  | None => ""
  end.

Definition error_part_ok (e : option (string * string * string)) : bool :=
  match e with
  | Some (ws_comma, ws_error, name) => blank ws_comma && blank ws_error && word name
  | None => true
  end.

(** The text of the statement, up to the parenthesis that opens the
    arguments of [select]. *)
Definition binding_text (b : binding) : string :=
  "const" +:+ ws_const b +:+ "{" +:+ ws_open b +:+ "data:" +:+ ws_data b
  +:+ data_var b +:+ error_part (error_var b) +:+ ws_close b +:+ "}"
  +:+ ws_eq b +:+ "=" +:+ ws_await b +:+ "await" +:+ ws_supabase b
  +:+ "supabase" +:+ ws_from b +:+ ".from(" +:+ Py.chr (quote_open b)
  +:+ table b +:+ Py.chr (quote_close b) +:+ ")" +:+ ws_select b
  +:+ ".select(".

Definition binding_ok (b : binding) : bool :=
  blank (ws_const b) && negb (String.eqb (ws_const b) "")
  && blank (ws_open b) && blank (ws_data b) && word (data_var b)
  && error_part_ok (error_var b)
  && blank (ws_close b) && blank (ws_eq b) && blank (ws_await b)
  && blank (ws_supabase b) && negb (String.eqb (ws_supabase b) "")
  && blank (ws_from b) && is_quote (quote_open b) && word (table b)
  && is_quote (quote_close b) && blank (ws_select b).

(** The groups of a match of [pattern1] on a statement. *)
Definition binding_caps (b : binding) : list (nat * string) :=
  (3, table b)
  :: match error_var b with
     | Some (_, _, name) => [(2, name)]
     | None => []
     end
  ++ [(1, data_var b)].

(** The statement from the blanks before its closing brace on. *)
Definition binding_tail (w6 w7 w8 w9 w10 : string) (q1 : ascii) (t : string)
    (q2 : ascii) (w11 : string) : string :=
  w6 +:+ "}" +:+ w7 +:+ "=" +:+ w8 +:+ "await" +:+ w9 +:+ "supabase"
  +:+ w10 +:+ ".from(" +:+ String q1 (t +:+ String q2 (")" +:+ w11
  +:+ ".select(")).

(** *** The ranking *)

(** The order of a ranking by [key]: the keys never grow. *)
Definition desc {A} (key : A -> nat) (x y : A) : Prop := key y <= key x.

(** The elements with one given key, in the order of the list. *)
Definition with_key {A} (key : A -> nat) (n : nat) (l : list A) : list A :=
  filter (fun x => key x = n) l.

(** *** Reads and writes *)

(** The events [EvWrite p _] that [b] adds when it differs from [a]: what a
    fix function writes after it has turned the text [a] into [b]. *)
Definition writes (p a b : string) : list IO.io_event :=
  if bool_decide (b <> a) then [IO.EvWrite p b] else [].

(** The text of a file after the three fix functions. *)
Definition patched_text (text : string) : string :=
  let c1 := (Rules.supabase_never_types_subs text).1 in
  let c2 := (Rules.any_to_never_subs c1).1 in
  (Rules.error_handling_subs c2).1.

Definition is_read (p : string) (ev : IO.io_event) : bool :=
  match ev with
  | IO.EvRead q => bool_decide (q = p)
  | IO.EvWrite _ _ => false
  end.

Definition is_write (p : string) (ev : IO.io_event) : bool :=
  match ev with
  | IO.EvRead _ => false
  | IO.EvWrite q _ => bool_decide (q = p)
  end.

(** The number of reads and of writes of [p] in a log. *)
Definition reads_of (p : string) (log : list IO.io_event) : nat :=
  length (List.filter (is_read p) log).

Definition writes_of (p : string) (log : list IO.io_event) : nat :=
  length (List.filter (is_write p) log).

(** Every file can be read and written. *)
Definition accessible (files : gmap string IO.fnode) : Prop :=
  map_Forall (fun _ f => IO.f_readable f = true /\ IO.f_writable f = true)
    files.

(** *** Texts, files and checkers of the examples *)

(** A catch block whose comment quotes another catch clause, and what
    [fix_error_handling] makes of it in one and in two applications. *)
Definition nested_catch : string :=
  "try { run() } catch (err) { // was: catch (e) {" +:+ Py.chr Py.nl
  +:+ "  console.error('failed', e)" +:+ Py.chr Py.nl +:+ "}".

Definition nested_catch_once : string :=
  "try { run() } catch (err) { // was: catch (e) {" +:+ Py.chr Py.nl
  +:+ "  const err = e instanceof Error ? e : new Error(String(e));"
  +:+ Py.chr Py.nl
  +:+ "  console.error('failed', err)" +:+ Py.chr Py.nl +:+ "}".

Definition nested_catch_twice : string :=
  "try { run() } catch (err) {" +:+ Py.chr Py.nl
  +:+ "  const err = err instanceof Error ? err : new Error(String(err));"
  +:+ " // was: catch (e) {" +:+ Py.chr Py.nl
  +:+ "  const err = e instanceof Error ? e : new Error(String(e));"
  +:+ Py.chr Py.nl
  +:+ "  console.error('failed', err)" +:+ Py.chr Py.nl +:+ "}".



Definition supabase_query : string :=
  "const {data: users} = await supabase.from(" +:+ Py.chr Py.dquote
  +:+ "users" +:+ Py.chr Py.dquote +:+ ").select('*');".

Definition supabase_query_rewritten : string :=
  "const { data: users } = await supabase.from('users').select('*');".

(** The parts of [supabase_query], which ends with the text ['*');]. *)
Definition supabase_query_binding : binding :=
  Binding " " "" " " "users" None "" " " " " " " "" Py.dquote "users" Py.dquote "".

Module Ranking_example.

(** The output of a checker that names [a.ts], [b.ts] and [c.ts] in that
    order, with three, one and three diagnostics. *)
Definition lines : list string :=
  [ "a.ts(1,1): error TS2345: first";
    "b.ts(7,2): error TS2322: second";
    "c.ts(3,9): error TS2345: third";
    "a.ts(2,1): error TS2345: fourth";
    "c.ts(4,9): error TS2554: fifth";
    "Found 7 errors.";
    "c.ts(5,9): error TS2345: sixth";
    "a.ts(9,4): error TS7006: seventh" ].

End Ranking_example.

(** A checker that prints [lines] on its standard error, whatever the
    files. *)
Definition checker_printing (lines : string) : Script.checker :=
  fun _ => IO.Completed "" lines.

(** A checker that cannot be started. *)
Definition checker_missing : Script.checker :=
  fun _ => IO.Raised (IO.OSError "npx").

(** A file that can be read and written, and one that cannot be written. *)
Definition file (text : string) : IO.fnode := IO.FNode text true true.

Definition read_only (text : string) : IO.fnode := IO.FNode text true false.

Definition world_of (files : gmap string IO.fnode) : IO.world :=
  IO.World files [] [].

(** Two files that each hold one call the rules rewrite, and a checker
    that reports two diagnostics in the first and one in the second. *)
Definition two_files (first : IO.fnode) : gmap string IO.fnode :=
  {[ "a.ts" := first; "b.ts" := file ".insert(y)" ]}.

Definition two_files_checker : Script.checker :=
  checker_printing
    ("a.ts(1,1): error TS2345: first" +:+ Py.chr Py.nl
     +:+ "b.ts(1,1): error TS2345: second" +:+ Py.chr Py.nl
     +:+ "a.ts(2,1): error TS2345: third").

(** A file with a call for [fix_supabase_never_types] and a call for
    [fix_any_to_never_errors], and a checker that reports it. *)
Definition one_file : gmap string IO.fnode :=
  {[ "a.ts" := file ".insert(x).eq('id', y)" ]}.

Definition one_file_checker : Script.checker :=
  checker_printing "a.ts(1,1): error TS2345: first".

(** *** The dictionary of diagnostics *)

(** [errors_by_file[key]] for a key of the dictionary. *)
Fixpoint dict_get (d : Parser.errors) (key : string)
    : option (list Parser.diag) :=
  match d with
  | [] => None
  | (k, vs) :: d' => if String.eqb k key then Some vs else dict_get d' key
  end.

(** The diagnostics among the lines, each with its file, in the order of
    the lines; and those of one file. *)
Fixpoint diagnostics (lines : list string) : list (string * Parser.diag) :=
  match lines with
  | [] => []
  | ln :: lines' =>
      match Parser.parse_line ln with
      | Some fd => fd :: diagnostics lines'
      | None => diagnostics lines'
      end
  end.

Definition entries_of (file_path : string) (lines : list string)
    : list Parser.diag :=
  (List.filter (fun fd => String.eqb fd.1 file_path) (diagnostics lines)).*2.

(** *** The checker and the run *)

(** The lines joined by newlines. *)
Fixpoint join_nl (lines : list string) : string :=
  match lines with
  | [] => ""
  | [ln] => ln
  | ln :: lines' => ln +:+ Py.chr Py.nl +:+ join_nl lines'
  end.

(** The stream that [run_tsc] splits: the standard error of the checker
    when it is not empty, and its standard output otherwise. *)
Definition checker_stream (out err : string) : string :=
  if bool_decide (err <> "") then err else out.

(** The lines [run_tsc] returns for a checker and the files it sees, the
    line it prints when the checker cannot be started, and the files the
    checker reports. *)
Definition checker_lines (tsc : Script.checker) (files : gmap string IO.fnode)
    : list string :=
  match tsc files with
  | IO.Completed out err => Py.split_nl (checker_stream out err)
  | IO.Raised _ => []
  end.

Definition tsc_error (tsc : Script.checker) (files : gmap string IO.fnode)
    : list IO.out :=
  match tsc files with
  | IO.Raised e => [IO.OutTscError e]
  | IO.Completed _ _ => []
  end.

Definition reported (tsc : Script.checker) (files : gmap string IO.fnode)
    : list string :=
  (Parser.parse_errors (checker_lines tsc files)).*1.

Definition path_of (ev : IO.io_event) : string :=
  match ev with
  | IO.EvRead p => p
  | IO.EvWrite p _ => p
  end.

(** From the world [w0] to the world [w] only files of [paths] that exist
    in [w0] were read or written: no file was created or removed, whether a
    file can be read and written has not changed, the other files have
    their text, and the log has grown by reads and writes of such files. *)
Definition only_touches (paths : list string) (w0 w : IO.world) : Prop :=
  (forall p,
      match IO.fs w0 !! p, IO.fs w !! p with
      | Some f0, Some f =>
          IO.f_readable f = IO.f_readable f0
          /\ IO.f_writable f = IO.f_writable f0
          /\ (p ∉ paths -> IO.f_text f = IO.f_text f0)
      | None, None => True
      | _, _ => False
      end)
  /\ exists log,
      IO.io_log w = IO.io_log w0 ++ log
      /\ Forall (fun ev => path_of ev ∈ paths /\ is_Some (IO.fs w0 !! path_of ev))
           log.

(** *** The texts the rules write *)

(** The statement as [add_type_assertion] writes it: one space between the
    tokens and single quotes around the table. *)
Definition binding_canonical (b : binding) : string :=
  "const { data: " +:+ data_var b
  +:+ match error_var b with
      | Some (_, _, name) => ", error: " +:+ name
      | None => ""
      end
  +:+ " } = await supabase.from('" +:+ table b +:+ "').select(".

(** The parts of [binding_canonical b]. *)
Definition canonical_binding (b : binding) : binding :=
  Binding " " " " " " (data_var b)
    match error_var b with
    | Some (_, _, name) => Some (" ", " ", name)
    | None => None
    end
    " " " " " " " " "" Py.squote (table b) Py.squote "".

(** A call [.eq('column', value)] or [.in('column', value)] as the
    patterns of [fix_any_to_never_errors] take it, and the text that the
    template writes for it. *)
Definition filter_call (name : string) (q1 : ascii) (column : string)
    (q2 : ascii) (ws1 ws2 value : string) : string :=
  "." +:+ name +:+ "(" +:+ Py.chr q1 +:+ column +:+ Py.chr q2 +:+ ws1 +:+ ","
  +:+ ws2 +:+ value +:+ ")".

Definition filter_call_rewritten (name column value : string) : string :=
  "." +:+ name +:+ "(\'" +:+ column +:+ "\', " +:+ value +:+ " as any)".

(** A catch block whose first statement, on a line of its own, logs the
    caught value as the last argument, up to the parenthesis that closes
    the call; and the text that [fix_catch] writes for it. *)
Definition catch_block (ws1 error_var ws2 indent logger ws3 args : string)
    : string :=
  "catch" +:+ ws1 +:+ "(" +:+ error_var +:+ ")" +:+ ws2 +:+ "{"
  +:+ Py.chr Py.nl +:+ indent +:+ logger +:+ ws3 +:+ "(" +:+ args +:+ ", "
  +:+ error_var +:+ ")".

Definition catch_block_rewritten
    (ws1 error_var ws2 indent logger ws3 args : string) : string :=
  "catch" +:+ ws1 +:+ "(" +:+ error_var +:+ ")" +:+ ws2 +:+ "{"
  +:+ Py.chr Py.nl +:+ indent +:+ "const err = " +:+ error_var
  +:+ " instanceof Error ? " +:+ error_var +:+ " : new Error(String("
  +:+ error_var +:+ "));"
  +:+ Py.chr Py.nl +:+ indent +:+ logger +:+ ws3 +:+ "(" +:+ args +:+ ", err)".

(** *** The counts of the patch loop *)

(** The number the three fix functions add up for a file with this text,
    each applied to the text the one before left. *)
Definition file_fixes (text : string) : nat :=
  let c1 := (Rules.supabase_never_types_subs text).1 in
  let c2 := (Rules.any_to_never_subs c1).1 in
  (Rules.supabase_never_types_rule text).2
  + (Rules.any_to_never_rule c1).2
  + (Rules.error_handling_rule c2).2.

(** The files of a ranking that exist and get at least one fix, each with
    its number of fixes, in the order of the ranking. *)
Fixpoint fixed_files (files : Parser.errors) (fs : gmap string IO.fnode)
    : list (string * nat) :=
  match files with
  | [] => []
  | (file_path, _) :: files' =>
      match fs !! file_path with
      | Some f =>
          if 0 <? file_fixes (IO.f_text f)
          then (file_path, file_fixes (IO.f_text f)) :: fixed_files files' fs
          else fixed_files files' fs
      | None => fixed_files files' fs
      end
  end.

(** A file after the three fix functions. *)
Definition patched (f : IO.fnode) : IO.fnode :=
  IO.FNode (patched_text (IO.f_text f)) true true.

(** [int] converts the line and the column of a line of the checker:
    the line does not match the pattern of [parse_errors], or neither
    number has more than 4300 digits. *)
Definition converts (ln : string) : bool :=
  match Re.rematch Parser.error_re ln with
  | Some m =>
      (String.length (Rules.fmt (Re.group m 2)) <=? 4300)
      && (String.length (Rules.fmt (Re.group m 3)) <=? 4300)
  | None => true
  end.

(** *** Patterns that match the same at every position *)

(** The pattern has no anchor [^]: whether and what it matches at a
    position depends only on the text from that position on. *)
Fixpoint bol_free (r : Re.regex) : bool :=
  match r with
  | Re.Seq r1 r2 | Re.Alt r1 r2 => bol_free r1 && bol_free r2
  | Re.Opt r1 | Re.Group _ r1 => bol_free r1
  | Re.Bol => false
  | _ => true
  end.

(** The state of the matcher [d] characters further in the subject. *)
Definition shift (d : nat) (st : Re.mstate) : Re.mstate :=
  Re.MState (Re.pos st + d) (Re.rest st) (Re.caps st).

(** The pattern has neither the anchor [^] nor a back-reference: whether
    it matches depends only on the text from the position on. *)
Fixpoint plain (r : Re.regex) : bool :=
  match r with
  | Re.Seq r1 r2 | Re.Alt r1 r2 => plain r1 && plain r2
  | Re.Opt r1 | Re.Group _ r1 => plain r1
  | Re.Bol | Re.Backref _ => false
  | _ => true
  end.

(** [\((\d+),(\d+)\): error (TS\d+): (.+)$] and
    [\.tsx?\((\d+),(\d+)\): error (TS\d+): (.+)$]: the pattern of
    [parse_errors] after the path, and from the extension of the path
    on. *)
Definition diagnostic_rest : Re.regex :=
  Re.seq [ Re.Lit "("; Re.Group 2 (Re.Plus true Re.CDigit); Re.Lit ",";
           Re.Group 3 (Re.Plus true Re.CDigit); Re.Lit "): error ";
           Re.Group 4 (Re.seq [ Re.Lit "TS"; Re.Plus true Re.CDigit ]);
           Re.Lit ": "; Re.Group 5 (Re.Plus true Re.CAny); Re.Eol ].

Definition diagnostic_end : Re.regex :=
  Re.Seq (Re.seq [ Re.Lit ".ts"; Re.Opt (Re.Lit "x") ]) diagnostic_rest.

(** A pattern without [^] matches at no position of [pre] in the text
    [pre +:+ s]. *)
Fixpoint starts_nowhere (r : Re.regex) (pre s : string) : bool :=
  match pre with
  | EmptyString => true
  | String _ pre' =>
      match Re.match_at r 0 (pre +:+ s) with
      | Some _ => false
      | None => starts_nowhere r pre' s
      end
  end.

(** * Properties *)

#[local] Arguments String.append : simpl nomatch.

(** ** Strings *)

Section Strings.

Lemma str_app_nil_l (s : string) : "" +:+ s = s.
Proof. done. Qed.

Lemma str_app_nil_r (s : string) : s +:+ "" = s.
Proof. induction s as [|c s IH]; simpl; [done|]. by rewrite IH. Qed.

Lemma str_app_cons a s t : String a s +:+ t = String a (s +:+ t).
Proof. done. Qed.

Lemma str_app_assoc (s t u : string) : (s +:+ t) +:+ u = s +:+ t +:+ u.
Proof. induction s as [|c s IH]; simpl; [done|]. by rewrite IH. Qed.

Lemma str_length_app (s t : string) :
  String.length (s +:+ t) = String.length s + String.length t.
Proof. induction s as [|c s IH]; simpl; [done|]. by rewrite IH. Qed.

Lemma str_app_inv_tail (u v s : string) : u +:+ s = v +:+ s -> u = v.
Proof.
  revert v. induction u as [|a u IH]; intros [|b v]; simpl; try done.
  - intros H. apply (f_equal String.length) in H. simpl in H.
    rewrite str_length_app in H. lia.
  - intros H. apply (f_equal String.length) in H. simpl in H.
    rewrite str_length_app in H. lia.
  - intros [= -> H]. by rewrite (IH _ H).
Qed.

Lemma ascii_eqb_refl (c : ascii) : Ascii.eqb c c = true.
Proof. apply Ascii.eqb_refl. Qed.

Lemma startswith_app (p s : string) : Py.startswith (p +:+ s) p = true.
Proof.
  induction p as [|c p IH]; simpl; [done|]. by rewrite ascii_eqb_refl.
Qed.

Lemma startswith_inv (s p : string) :
  Py.startswith s p = true -> s = p +:+ Py.drop (String.length p) s.
Proof.
  revert s. induction p as [|c p IH]; intros s; simpl; [done|].
  destruct s as [|d s]; [done|].
  destruct (Ascii.eqb_spec c d) as [->|]; [|done].
  intros H. by rewrite <- (IH s H).
Qed.

Lemma drop_app (p s : string) : Py.drop (String.length p) (p +:+ s) = s.
Proof. induction p as [|c p IH]; simpl; done. Qed.

Lemma drop_app_lt i (w s : string) :
  i < String.length w -> Py.drop i (w +:+ s) = Py.drop i w +:+ s.
Proof.
  revert w. induction i as [|i IH]; intros [|a w]; simpl; try done; try lia.
  intros H. apply IH. lia.
Qed.

Lemma take_app (p s : string) : Py.take (String.length p) (p +:+ s) = p.
Proof. induction p as [|c p IH]; simpl; [done|]. by rewrite IH. Qed.

Lemma take_app_eq (n : nat) (p s : string) :
  n = String.length p -> Py.take n (p +:+ s) = p.
Proof. intros ->. apply take_app. Qed.

Lemma take_app2 n (p1 p2 s : string) :
  n = String.length p1 + String.length p2 ->
  Py.take n (p1 +:+ p2 +:+ s) = p1 +:+ p2.
Proof.
  intros ->. rewrite <- str_app_assoc, <- str_length_app. apply take_app.
Qed.

Lemma all_in_ext p q s : (forall c, p c = q c) -> all_in p s = all_in q s.
Proof. intros H. induction s as [|c s IH]; simpl; [done|]. by rewrite H, IH. Qed.

Lemma free_of_drop c pre i :
  free_of c pre = true -> i < String.length pre ->
  exists d u, Py.drop i pre = String d u /\ Ascii.eqb c d = false.
Proof.
  revert i. induction pre as [|a pre IH]; intros i; simpl; [lia|].
  intros [Ha Hpre]%andb_true_iff Hi. destruct i as [|i]; simpl.
  - exists a, pre. by apply negb_true_iff in Ha.
  - apply IH; [done|lia].
Qed.

Lemma free_of_drop_suffix c w i :
  free_of c w = true -> i < String.length w ->
  Py.drop i w <> "" /\ free_of c (Py.drop i w) = true.
Proof.
  revert w. induction i as [|i IH]; intros [|a w]; simpl; try done; try lia.
  intros [Ha Hw]%andb_true_iff Hi. apply IH; [done|lia].
Qed.

Lemma drop_nonempty i w : i < String.length w -> Py.drop i w <> "".
Proof.
  revert w. induction i as [|i IH]; intros [|a w]; simpl; try done; try lia.
  intros Hi. apply IH. lia.
Qed.

Lemma contains_false_drop hay n j :
  Py.contains hay n = false -> Py.startswith (Py.drop j hay) n = false.
Proof.
  revert j. induction hay as [|d hay IH]; intros j.
  - cbn [Py.contains]. rewrite orb_false_r. by destruct j.
  - cbn [Py.contains]. intros [H0 H]%orb_false_iff.
    destruct j as [|j]; [done|]. by apply IH.
Qed.

End Strings.

(** *** Blanks, words and digits *)

Section Blanks.
Import Re Rules.

Lemma space_not_word c : Py.is_space c = true -> Py.is_word c = false.
Proof.
  unfold Py.is_space, Py.is_word, Py.is_digit, Py.in_range.
  generalize (Py.code c). intros n H.
  repeat (apply orb_true_iff in H as [H|H]);
    repeat (apply andb_true_iff in H as [? H]);
    repeat match goal with
      | H : (_ <=? _)%N = true |- _ => apply N.leb_le in H
      | H : (_ =? _)%N = true |- _ => apply N.eqb_eq in H
      end;
    repeat (apply orb_false_iff; split);
    try (apply andb_false_iff);
    try (apply N.eqb_neq; lia);
    try (left; apply N.leb_gt; lia); try (right; apply N.leb_gt; lia).
Qed.

Lemma quote_not_word q : is_quote q = true -> Py.is_word q = false.
Proof.
  unfold is_quote. simpl. rewrite orb_false_r.
  intros [H|H]%orb_true_iff; apply Ascii.eqb_eq in H; by subst.
Qed.

Lemma word_all s : word s = true -> s <> "" /\ all_in Py.is_word s = true.
Proof. by destruct s. Qed.

Lemma stops_word v s : word v = true -> stops Py.is_space (v +:+ s) = true.
Proof.
  destruct v as [|c v]; [done|]. simpl. intros [Hc _]%andb_true_iff.
  destruct (Py.is_space c) eqn:Hs; [|done].
  apply space_not_word in Hs. congruence.
Qed.

Lemma stops_blank w s :
  blank w = true -> stops Py.is_word s = true -> stops Py.is_word (w +:+ s) = true.
Proof.
  destruct w as [|c w]; [done|]. simpl. intros [Hc _]%andb_true_iff _.
  by rewrite (space_not_word c Hc).
Qed.

Lemma startswith_blank w s c l :
  blank w = true -> Py.is_space c = false ->
  Py.startswith s (String c l) = false ->
  Py.startswith (w +:+ s) (String c l) = false.
Proof.
  destruct w as [|a w]; [done|]. simpl. intros [Ha _]%andb_true_iff Hc _.
  destruct (Ascii.eqb_spec c a) as [->|]; [congruence|done].
Qed.

Lemma lstrip_head s c t : Py.lstrip s = String c t -> Py.is_space c = false.
Proof.
  induction s as [|a s IH]; simpl; [done|].
  destruct (Py.is_space a) eqn:Ha; [done|]. by intros [= <- _].
Qed.

Lemma rstrip_cons c t :
  Py.is_space c = false -> Py.rstrip (String c t) = String c (Py.rstrip t).
Proof. intros Hc. simpl. rewrite Hc. by destruct (Py.rstrip t). Qed.

Lemma rstrip_last t u c :
  Py.rstrip t = u +:+ Py.chr c -> Py.is_space c = false.
Proof.
  revert u. induction t as [|a t IH]; intros u; simpl.
  - by destruct u.
  - destruct (Py.rstrip t) as [|b v] eqn:Ht.
    + destruct (Py.is_space a) eqn:Ha; [by destruct u|].
      destruct u as [|a' [|? ?]]; simpl; [|done|done]. by intros [= <-].
    + destruct u as [|a' u]; simpl; [done|].
      intros [= _ H]. by eapply IH.
Qed.

Lemma strip_cases s :
  (Py.lstrip s = "" /\ Py.strip s = "")
  \/ exists c t, Py.lstrip s = String c t /\ Py.is_space c = false
                 /\ Py.strip s = String c (Py.rstrip t).
Proof.
  unfold Py.strip. destruct (Py.lstrip s) as [|c t] eqn:E; [by left|].
  right. exists c, t. pose proof (lstrip_head _ _ _ E) as Hc.
  by rewrite rstrip_cons.
Qed.

Lemma startswith_strip s : Py.startswith (Py.strip s) "{" = object_literal s.
Proof.
  unfold object_literal.
  destruct (strip_cases s) as [[-> ->]|(c & t & -> & _ & ->)]; done.
Qed.

Lemma digit_value_nonneg c : Py.is_digit c = true -> (0 <= Py.digit_value c)%Z.
Proof.
  unfold Py.is_digit, Py.in_range, Py.digit_value.
  intros [H _]%andb_true_iff. apply N.leb_le in H. lia.
Qed.

Lemma int_go_nonneg s acc :
  all_in Py.is_digit s = true -> (0 <= acc)%Z -> (0 <= Py.int_go acc s)%Z.
Proof.
  revert acc. induction s as [|c s IH]; intros acc; simpl; [done|].
  intros [Hc Hs]%andb_true_iff Hacc. apply IH; [done|].
  pose proof (digit_value_nonneg c Hc). lia.
Qed.

Lemma int_nonneg s : all_in Py.is_digit s = true -> (0 <= Py.int s)%Z.
Proof. intros H. by apply int_go_nonneg. Qed.

End Blanks.

(** ** The matcher *)

Section Matcher.
Import Re.

Lemma star_greedy_sound {A} p s n (k : nat -> string -> option A) res :
  star_greedy p s n k = Some res ->
  exists w s', s = w +:+ s' /\ all_in p w = true
               /\ k (n + String.length w) s' = Some res.
Proof.
  revert n. induction s as [|c s IH]; intros n; simpl.
  - intros H. exists "", "". by rewrite Nat.add_0_r.
  - destruct (p c) eqn:Hc.
    + destruct (star_greedy p s (S n) k) eqn:Hs; simpl.
      * intros [= ->]. destruct (IH _ Hs) as (w & s' & -> & Hw & Hk).
        exists (String c w), s'. simpl. rewrite Hc, Hw.
        by rewrite <- Nat.add_succ_comm.
      * intros H. exists "", (String c s). by rewrite Nat.add_0_r.
    + intros H. exists "", (String c s). by rewrite Nat.add_0_r.
Qed.

Lemma star_lazy_sound {A} p s n (k : nat -> string -> option A) res :
  star_lazy p s n k = Some res ->
  exists w s', s = w +:+ s' /\ all_in p w = true
               /\ k (n + String.length w) s' = Some res.
Proof.
  revert n. induction s as [|c s IH]; intros n; simpl.
  - destruct (k n "") eqn:Hk; [|done].
    intros [= ->]. exists "", "". by rewrite Nat.add_0_r.
  - destruct (k n (String c s)) eqn:Hk.
    + intros [= ->]. exists "", (String c s). by rewrite Nat.add_0_r.
    + destruct (p c) eqn:Hc; [|done].
      intros Hs. destruct (IH _ Hs) as (w & s' & -> & Hw & Hk').
      exists (String c w), s'. simpl. rewrite Hc, Hw.
      by rewrite <- Nat.add_succ_comm.
Qed.

(** A run of the class before a text that does not go on with the class:
    the greedy repetition takes the whole run when what follows accepts. *)
Lemma star_greedy_max {A} p w s n (k : nat -> string -> option A) res :
  all_in p w = true ->
  k (n + String.length w) s = Some res ->
  match s with EmptyString => true | String c _ => negb (p c) end = true ->
  star_greedy p (w +:+ s) n k = Some res.
Proof.
  revert n. induction w as [|c w IH]; intros n; simpl.
  - rewrite Nat.add_0_r. intros _ Hk Hs.
    destruct s as [|d s]; simpl; [done|].
    apply negb_true_iff in Hs. by rewrite Hs.
  - intros [Hc Hw]%andb_true_iff Hk Hs. rewrite Hc.
    rewrite (IH (S n)); [done|done| |done].
    by rewrite Nat.add_succ_comm.
Qed.

(** The lazy repetition stops at the first length at which what follows
    accepts. *)
Lemma star_lazy_first {A} p w s n (k : nat -> string -> option A) res :
  all_in p w = true ->
  (forall i, i < String.length w -> k (n + i) (Py.drop i (w +:+ s)) = None) ->
  k (n + String.length w) s = Some res ->
  star_lazy p (w +:+ s) n k = Some res.
Proof.
  revert n. induction w as [|c w IH]; intros n; simpl.
  - rewrite Nat.add_0_r. intros _ _ Hk. destruct s; simpl; by rewrite Hk.
  - intros [Hc Hw]%andb_true_iff Hnone Hk.
    pose proof (Hnone 0 ltac:(lia)) as H0. rewrite Nat.add_0_r in H0.
    simpl in H0. rewrite H0, Hc.
    apply IH; [done| |by rewrite Nat.add_succ_comm].
    intros i Hi. specialize (Hnone (S i) ltac:(lia)).
    by rewrite <- Nat.add_succ_comm in Hnone.
Qed.

Lemma star_greedy_complete {A} p w s n (k : nat -> string -> option A) :
  all_in p w = true ->
  is_Some (k (n + String.length w) s) ->
  is_Some (star_greedy p (w +:+ s) n k).
Proof.
  revert n. induction w as [|c w IH]; intros n; simpl.
  - rewrite Nat.add_0_r. intros _ Hk.
    destruct s as [|d s]; simpl; [done|].
    destruct (p d); [|done].
    destruct (star_greedy p s (S n) k); simpl; [eauto|done].
  - intros [Hc Hw]%andb_true_iff Hk. rewrite Hc.
    destruct (IH (S n) Hw) as [x Hx]; [by rewrite Nat.add_succ_comm|].
    rewrite Hx. simpl. eauto.
Qed.

Lemma star_lazy_complete {A} p w s n (k : nat -> string -> option A) :
  all_in p w = true ->
  is_Some (k (n + String.length w) s) ->
  is_Some (star_lazy p (w +:+ s) n k).
Proof.
  revert n. induction w as [|c w IH]; intros n; simpl.
  - rewrite Nat.add_0_r. intros _ [x Hx]. destruct s; simpl; rewrite Hx; eauto.
  - intros [Hc Hw]%andb_true_iff Hk.
    destruct (k n (String c (w +:+ s))); [eauto|]. rewrite Hc.
    apply IH; [done|]. by rewrite Nat.add_succ_comm.
Qed.

(** Whatever the matcher returns comes from a match of the pattern
    followed by a success of what follows. *)
Lemma exec_sound r st k res :
  exec r st k = Some res ->
  exists st', matches r st st' /\ k st' = Some res.
Proof.
  revert st k. induction r as
    [ | l | c | r1 IH1 r2 IH2 | r1 IH1 r2 IH2 | g c | r1 IH1 | n r1 IH1 | n | | ];
    intros [p s cs] k; simpl.
  - eauto.
  - destruct (Py.startswith s l) eqn:Hl; [|done]. intros Hk.
    eexists. split; [|exact Hk]. unfold advance. simpl.
    split; [by apply startswith_inv|done].
  - destruct s as [|a s]; [done|]. destruct (in_cset c a) eqn:Ha; [|done].
    intros Hk. eexists. split; [|exact Hk]. simpl. eauto.
  - intros H. apply IH1 in H as (st1 & H1 & H). apply IH2 in H as (st2 & H2 & H).
    eauto.
  - destruct (exec r1 (MState p s cs) k) eqn:H1; simpl.
    + intros [= ->]. apply IH1 in H1 as (st' & ? & ?). eauto.
    + intros H2. apply IH2 in H2 as (st' & ? & ?). eauto.
  - intros H.
    assert (exists w s', s = w +:+ s' /\ all_in (in_cset c) w = true
              /\ k (MState (p + String.length w) s' cs) = Some res)
      as (w & s' & -> & Hw & Hk).
    { destruct g; [apply star_greedy_sound in H|apply star_lazy_sound in H];
        destruct H as (w & s' & ? & ? & ?); eauto. }
    eexists. split; [|exact Hk]. simpl. eauto.
  - destruct (exec r1 (MState p s cs) k) eqn:H1; simpl.
    + intros [= ->]. apply IH1 in H1 as (st' & ? & ?). eauto.
    + eauto.
  - intros H. apply IH1 in H as (st1 & H1 & H). eauto.
  - destruct (lookup_cap n cs) as [t|] eqn:Hn; [|done].
    destruct (Py.startswith s t) eqn:Ht; [|done]. intros Hk.
    eexists. split; [|exact Hk]. unfold advance. simpl.
    exists t. split; [done|]. split; [by apply startswith_inv|done].
  - destruct (Nat.eqb_spec p 0) as [->|]; [|done]. eauto.
  - destruct s as [|a [|b s]]; [eauto| |done].
    destruct (Ascii.eqb_spec a Py.nl) as [->|]; [|done]. eauto.
Qed.

(** The matcher finds a result whenever some match of the pattern is
    followed by a success of what follows. *)
Lemma exec_complete r st st' k :
  matches r st st' -> is_Some (k st') -> is_Some (exec r st k).
Proof.
  revert st st' k. induction r as
    [ | l | c | r1 IH1 r2 IH2 | r1 IH1 r2 IH2 | g c | r1 IH1 | n r1 IH1 | n | | ];
    intros [p s cs] [p' s' cs'] k; simpl.
  - by intros [= -> -> ->].
  - intros (-> & -> & ->) Hk. rewrite startswith_app. unfold advance. simpl.
    by rewrite drop_app.
  - intros (a & -> & Ha & -> & ->) Hk. by rewrite Ha.
  - intros (st1 & H1 & H2) Hk. eapply IH1; [exact H1|]. by eapply IH2.
  - intros [H|H] Hk.
    + destruct (IH1 _ _ k H Hk) as [x ->]. simpl. eauto.
    + destruct (exec r1 (MState p s cs) k); simpl; [eauto|]. by eapply IH2.
  - intros (w & -> & Hw & -> & ->) Hk.
    destruct g; [apply star_greedy_complete|apply star_lazy_complete]; done.
  - intros [H|[= -> -> ->]] Hk.
    + destruct (IH1 _ _ k H Hk) as [x ->]. simpl. eauto.
    + destruct (exec r1 (MState p s cs) k); simpl; [eauto|done].
  - intros (st1 & H1 & [= -> -> ->]) Hk. by eapply IH1.
  - intros (t & Ht & -> & -> & ->) Hk. rewrite Ht, startswith_app.
    unfold advance. simpl. by rewrite drop_app.
  - intros [-> [= -> -> ->]] Hk. done.
  - intros [[->| ->] [= -> -> ->]] Hk; simpl; done.
Qed.

(** A match consumes a prefix of the text and moves the position by its
    length. *)
Lemma matches_consumes r st st' :
  matches r st st' ->
  exists w, rest st = w +:+ rest st'
            /\ pos st' = pos st + String.length w.
Proof.
  revert st st'. induction r as
    [ | l | c | r1 IH1 r2 IH2 | r1 IH1 r2 IH2 | g c | r1 IH1 | n r1 IH1 | n | | ];
    intros st st'; simpl.
  - intros ->. exists "". by rewrite Nat.add_0_r.
  - intros (? & ? & _). eauto.
  - intros (a & ? & _ & ? & _). exists (Py.chr a). simpl. split; [done|lia].
  - intros (st1 & H1 & H2).
    apply IH1 in H1 as (w1 & E1 & P1). apply IH2 in H2 as (w2 & E2 & P2).
    exists (w1 +:+ w2). rewrite str_app_assoc, <- E2, str_length_app.
    split; [done|lia].
  - intros [H|H]; eauto.
  - intros (w & ? & _ & ? & _). eauto.
  - intros [H| ->]; [eauto|]. exists "". by rewrite Nat.add_0_r.
  - intros (st1 & H1 & ->). simpl. eauto.
  - intros (t & _ & ? & ? & _). eauto.
  - intros [_ ->]. exists "". by rewrite Nat.add_0_r.
  - intros [_ ->]. exists "". by rewrite Nat.add_0_r.
Qed.

Lemma matches_seq r1 r2 st st' :
  matches (Seq r1 r2) st st' ->
  exists st1, matches r1 st st1 /\ matches r2 st1 st'.
Proof. done. Qed.

(** The text of a group is the text its pattern consumed. *)
Lemma matches_group n r st st' :
  matches (Group n r) st st' ->
  exists w st1,
    matches r st st1 /\ rest st = w +:+ rest st1
    /\ st' = MState (pos st1) (rest st1) ((n, w) :: caps st1).
Proof.
  intros (st1 & Hm & ->). destruct (matches_consumes _ _ _ Hm) as (w & E & P).
  exists w, st1. split; [done|]. split; [done|].
  rewrite E, take_app_eq by lia. done.
Qed.

Lemma matches_plus g c st st' :
  matches (Plus g c) st st' ->
  exists w, w <> "" /\ all_in (in_cset c) w = true
            /\ rest st = w +:+ rest st' /\ caps st' = caps st.
Proof.
  intros (st1 & (a & E1 & Ha & _ & C1) & (w & E2 & Hw & _ & C2)).
  exists (String a w). split; [done|]. split; [by simpl; rewrite Ha, Hw|].
  split; [by rewrite E1, E2|congruence].
Qed.

Lemma match_at_is_Some r p s :
  is_Some (match_at r p s) <-> is_Some (exec r (MState p s []) Some).
Proof.
  unfold match_at. destruct (exec r (MState p s []) Some); split; intros [x H];
    try done; eauto.
Qed.

End Matcher.

(** ** Stepping the matcher through a pattern *)

Section Stepping.
Import Re Rules.

Lemma exec_seq r1 r2 st k :
  exec (Seq r1 r2) st k = exec r1 st (fun st' => exec r2 st' k).
Proof. done. Qed.

Lemma exec_group n r st k :
  exec (Group n r) st k
  = exec r st (fun st' =>
      k (MState (pos st') (rest st')
           ((n, Py.take (pos st' - pos st) (rest st)) :: caps st'))).
Proof. done. Qed.

Lemma exec_lit l p s cs k :
  exec (Lit l) (MState p (l +:+ s) cs) k = k (MState (p + String.length l) s cs).
Proof.
  simpl. rewrite startswith_app. unfold advance. simpl. by rewrite drop_app.
Qed.

Lemma exec_lit_fails l st k :
  Py.startswith (rest st) l = false -> exec (Lit l) st k = None.
Proof. simpl. by intros ->. Qed.

Lemma exec_cls c a p s cs k :
  in_cset c a = true ->
  exec (Cls c) (MState p (String a s) cs) k = k (MState (S p) s cs).
Proof. simpl. by intros ->. Qed.

Lemma exec_alt r1 r2 st k :
  exec (Alt r1 r2) st k = or_else (exec r1 st k) (exec r2 st k).
Proof. done. Qed.

Lemma exec_opt r st k : exec (Opt r) st k = or_else (exec r st k) (k st).
Proof. done. Qed.

Lemma exec_bol s cs k : exec Bol (MState 0 s cs) k = k (MState 0 s cs).
Proof. done. Qed.

Lemma exec_eol p cs k : exec Eol (MState p "" cs) k = k (MState p "" cs).
Proof. done. Qed.

Lemma or_else_l {A} (x y : option A) r : x = Some r -> or_else x y = Some r.
Proof. by intros ->. Qed.

Lemma or_else_r {A} (x y : option A) r :
  x = None -> y = Some r -> or_else x y = Some r.
Proof. by intros -> ->. Qed.

Lemma exec_star_greedy c w s p cs k res :
  all_in (in_cset c) w = true ->
  stops (in_cset c) s = true ->
  k (MState (p + String.length w) s cs) = Some res ->
  exec (Star true c) (MState p (w +:+ s) cs) k = Some res.
Proof. intros Hw Hs Hk. simpl. by apply star_greedy_max. Qed.

Lemma exec_plus_greedy c w s p cs k res :
  w <> "" ->
  all_in (in_cset c) w = true ->
  stops (in_cset c) s = true ->
  k (MState (p + String.length w) s cs) = Some res ->
  exec (Plus true c) (MState p (w +:+ s) cs) k = Some res.
Proof.
  intros Hne Hw Hs Hk. destruct w as [|a w]; [done|].
  simpl in Hw. apply andb_true_iff in Hw as [Ha Hw].
  unfold Plus. rewrite exec_seq, str_app_cons, exec_cls by done.
  apply exec_star_greedy; [done|done|].
  by rewrite Nat.add_succ_comm.
Qed.

Lemma exec_star_lazy c w s p cs k res :
  all_in (in_cset c) w = true ->
  (forall i, i < String.length w ->
     k (MState (p + i) (Py.drop i (w +:+ s)) cs) = None) ->
  k (MState (p + String.length w) s cs) = Some res ->
  exec (Star false c) (MState p (w +:+ s) cs) k = Some res.
Proof. intros Hw Hnone Hk. simpl. by apply star_lazy_first. Qed.

Lemma exec_plus_lazy c w s p cs k res :
  w <> "" ->
  all_in (in_cset c) w = true ->
  (forall i, 0 < i < String.length w ->
     k (MState (p + i) (Py.drop i (w +:+ s)) cs) = None) ->
  k (MState (p + String.length w) s cs) = Some res ->
  exec (Plus false c) (MState p (w +:+ s) cs) k = Some res.
Proof.
  intros Hne Hw Hnone Hk. destruct w as [|a w]; [done|].
  simpl in Hw. apply andb_true_iff in Hw as [Ha Hw].
  unfold Plus. rewrite exec_seq, str_app_cons, exec_cls by done.
  apply exec_star_lazy; [done| |].
  - intros i Hi. specialize (Hnone (S i) ltac:(simpl; lia)).
    replace (p + S i) with (S p + i) in Hnone by lia. exact Hnone.
  - replace (S p + String.length w) with (p + String.length (String a w))
      by (simpl; lia). exact Hk.
Qed.

Lemma free_of_none_of c s :
  all_in (in_cset (CNoneOf (Py.chr c))) s = free_of c s.
Proof.
  apply all_in_ext. intros d. simpl. by rewrite orb_false_r, Ascii.eqb_sym.
Qed.

Lemma free_of_any s : all_in (in_cset CAny) s = free_of Py.nl s.
Proof. apply all_in_ext. intros d. simpl. by rewrite Ascii.eqb_sym. Qed.

End Stepping.

(** The tactics that step the matcher: the sequences, the groups and the
    literals by rewriting, the repetitions by the lemmas above. *)
Ltac exec_norm := cbv beta; cbn [Re.pos Re.rest Re.caps].
Ltac exec_step :=
  exec_norm;
  first [ rewrite exec_seq | rewrite exec_group | rewrite exec_lit
        | rewrite exec_bol | rewrite exec_eol ].
Ltac exec_steps := repeat exec_step; exec_norm.
Ltac solve_take :=
  repeat match goal with
    | |- context [Py.take ?n (?p +:+ ?s)] =>
        rewrite (take_app_eq n p s) by (rewrite ?str_length_app; simpl; lia)
    end.
Ltac star H :=
  exec_norm; apply exec_star_greedy; [exact H|try reflexivity|].
Ltac plus Hne H :=
  exec_norm; apply exec_plus_greedy; [exact Hne|exact H|try reflexivity|].

(** ** Substitution *)

Section Substitution.
Import Re.

Lemma sub_go_no_match {St} r (f : rmatch -> St -> string * St) s p acc :
  search_from r p s = None -> sub_go r f s p 0 acc = (s, acc).
Proof.
  revert p. induction s as [|c s IH]; intros p; simpl.
  - by destruct (match_at r p "").
  - destruct (match_at r p (String c s)); [done|].
    intros H. by rewrite (IH _ H).
Qed.

Lemma sub_with_no_match {St} r (f : rmatch -> St -> string * St) s acc :
  search r s = None -> sub_with r f s acc = (s, acc).
Proof. apply sub_go_no_match. Qed.

Lemma sub_no_match r f s : search r s = None -> sub r f s = s.
Proof. intros H. unfold sub. by rewrite sub_with_no_match. Qed.

(** [re.sub] copies a text in which the pattern cannot start. *)
Lemma sub_go_copy {St} r (f : rmatch -> St -> string * St) pre s p acc :
  (forall i t, i < String.length pre ->
     match_at r (p + i) (Py.drop i pre +:+ t) = None) ->
  sub_go r f (pre +:+ s) p 0 acc
  = let '(tl, acc') := sub_go r f s (p + String.length pre) 0 acc in
    (pre +:+ tl, acc').
Proof.
  revert p. induction pre as [|c pre IH]; intros p Hnone.
  - simpl. rewrite Nat.add_0_r. by destruct (sub_go r f s p 0 acc).
  - cbn [String.append sub_go].
    pose proof (Hnone 0 s ltac:(simpl; lia)) as H0.
    rewrite Nat.add_0_r in H0. simpl in H0. rewrite H0.
    rewrite IH.
    + simpl. replace (p + S (String.length pre)) with (S (p + String.length pre)) by lia.
      by destruct (sub_go r f s (S (p + String.length pre)) 0 acc).
    + intros i t Hi. specialize (Hnone (S i) t ltac:(simpl; lia)).
      replace (p + S i) with (S p + i) in Hnone by lia. exact Hnone.
Qed.

(** [re.sub] skips the characters of the match it has replaced. *)
Lemma sub_go_skip {St} r (f : rmatch -> St -> string * St) w s p acc :
  sub_go r f (w +:+ s) p (String.length w) acc
  = sub_go r f s (p + String.length w) 0 acc.
Proof.
  revert p. induction w as [|c w IH]; intros p; simpl.
  - by rewrite Nat.add_0_r.
  - rewrite IH. f_equal. lia.
Qed.

Lemma sub_go_match {St} r (f : rmatch -> St -> string * St) c s p acc m k :
  match_at r p (String c s) = Some m ->
  String.length (m_text m) = S k ->
  sub_go r f (String c s) p 0 acc
  = let '(out, acc1) := f m acc in
    let '(tl, acc2) := sub_go r f s (S p) k acc1 in
    (out +:+ tl, acc2).
Proof. intros Hm Hk. cbn [sub_go]. by rewrite Hm, Hk. Qed.

Lemma sub_go_replace {St} r (f : rmatch -> St -> string * St) w s p acc m :
  match_at r p (w +:+ s) = Some m ->
  m_text m = w -> w <> "" ->
  sub_go r f (w +:+ s) p 0 acc
  = let '(out, acc1) := f m acc in
    let '(tl, acc2) := sub_go r f s (p + String.length w) 0 acc1 in
    (out +:+ tl, acc2).
Proof.
  intros Hm Hw Hne. destruct w as [|c w]; [done|].
  rewrite str_app_cons in *. cbn [sub_go]. rewrite Hm, Hw. cbn [String.length].
  destruct (f m acc) as [out acc1]. rewrite sub_go_skip.
  by replace (S p + String.length w) with (p + S (String.length w)) by lia.
Qed.

(** The counter that a replacement function threads through [re.sub]
    grows by one for each visited match that the function counts. *)
Lemma sub_go_counts r (f : rmatch -> nat -> string * nat) (P : rmatch -> bool) :
  (forall m n, (f m n).2 = n + (if P m then 1 else 0)) ->
  forall s p skip acc,
    (sub_go r f s p skip acc).2
    = acc + length (List.filter P (finditer_go r s p skip)).
Proof.
  intros Hf. induction s as [|c s IH]; intros p skip acc.
  - destruct skip as [|k]; simpl; [|lia].
    destruct (match_at r p "") as [m|]; simpl; [|lia].
    specialize (Hf m acc). destruct (f m acc) as [out acc1]. simpl in *.
    destruct (P m); simpl; lia.
  - destruct skip as [|k]; simpl; [|apply IH].
    destruct (match_at r p (String c s)) as [m|]; simpl.
    + specialize (Hf m acc). destruct (f m acc) as [out acc1]. simpl in Hf.
      destruct (String.length (m_text m)) as [|k]; simpl.
      * specialize (IH (S p) 0 acc1).
        destruct (sub_go r f s (S p) 0 acc1) as [tl acc2]. simpl in *.
        destruct (P m); simpl; lia.
      * specialize (IH (S p) k acc1).
        destruct (sub_go r f s (S p) k acc1) as [tl acc2]. simpl in *.
        destruct (P m); simpl; lia.
    + specialize (IH (S p) 0 acc).
      destruct (sub_go r f s (S p) 0 acc) as [tl acc1]. simpl in *. lia.
Qed.


End Substitution.

(** ** Matching at another position *)

Section Positions.
Import Re.

Lemma option_map_or_else {A B} (f : A -> B) (x y : option A) :
  option_map f (or_else x y) = or_else (option_map f x) (option_map f y).
Proof. by destruct x. Qed.

Lemma star_greedy_shift {A B} (f : A -> B) c s n d
    (k : nat -> string -> option A) (k' : nat -> string -> option B) :
  (forall m s', k' (m + d) s' = option_map f (k m s')) ->
  star_greedy c s (n + d) k' = option_map f (star_greedy c s n k).
Proof.
  intros Hk. revert n. induction s as [|a s IH]; intros n; simpl; [done|].
  destruct (c a); [|done].
  rewrite option_map_or_else, <- Hk. f_equal. apply (IH (S n)).
Qed.

Lemma star_lazy_shift {A B} (f : A -> B) c s n d
    (k : nat -> string -> option A) (k' : nat -> string -> option B) :
  (forall m s', k' (m + d) s' = option_map f (k m s')) ->
  star_lazy c s (n + d) k' = option_map f (star_lazy c s n k).
Proof.
  intros Hk. revert n. induction s as [|a s IH]; intros n; simpl.
  - rewrite Hk. by destruct (k n "").
  - rewrite Hk. destruct (k n (String a s)); [done|]. simpl.
    destruct (c a); [|done]. apply (IH (S n)).
Qed.

(** A pattern without [^] explores the same alternatives wherever the
    text stands in the subject. *)
Lemma exec_shift r d (f : mstate -> mstate) st
    (k k' : mstate -> option mstate) :
  bol_free r = true ->
  (forall st', k' (shift d st') = option_map f (k st')) ->
  exec r (shift d st) k' = option_map f (exec r st k).
Proof.
  revert st k k'.
  induction r as [|s|c|r1 IH1 r2 IH2|r1 IH1 r2 IH2|g c|r1 IH1|n r1 IH1|n| |];
    intros st k k' Hr Hk; cbn [exec shift rest pos caps bol_free] in *.
  - apply Hk.
  - destruct (Py.startswith (rest st) s); [|done].
    rewrite <- Hk. f_equal. unfold advance, shift. cbn [pos rest caps].
    f_equal. lia.
  - destruct (rest st) as [|a s']; [done|].
    destruct (in_cset c a); [|done]. by rewrite <- Hk.
  - apply andb_true_iff in Hr as [H1 H2].
    apply IH1; [done|]. intros st'. by apply IH2.
  - apply andb_true_iff in Hr as [H1 H2].
    rewrite option_map_or_else. f_equal; [by apply IH1|by apply IH2].
  - destruct g.
    + apply star_greedy_shift. intros m s'. by rewrite <- Hk.
    + apply star_lazy_shift. intros m s'. by rewrite <- Hk.
  - rewrite option_map_or_else. f_equal; [by apply IH1|apply Hk].
  - apply IH1; [done|]. intros st'. rewrite <- Hk. f_equal. unfold shift.
    cbn [pos rest caps]. f_equal. f_equal. f_equal. f_equal. lia.
  - destruct (lookup_cap n (caps st)) as [s|]; [|done].
    destruct (Py.startswith (rest st) s); [|done].
    rewrite <- Hk. f_equal. unfold advance, shift. cbn [pos rest caps].
    f_equal. lia.
  - done.
  - destruct (rest st) as [|a [|b s']]; [apply Hk| |done].
    destruct (Ascii.eqb a Py.nl); [apply Hk|done].
Qed.

Lemma match_at_shift r p d s :
  bol_free r = true -> match_at r (p + d) s = match_at r p s.
Proof.
  intros Hr. unfold match_at.
  change (MState (p + d) s []) with (shift d (MState p s [])).
  rewrite (exec_shift r d (shift d) (MState p s []) Some Some Hr)
    by (by intros st').
  destruct (exec r (MState p s []) Some) as [st|]; [|done].
  simpl. do 3 f_equal. lia.
Qed.

Lemma match_at_anywhere r p q s :
  bol_free r = true -> match_at r p s = match_at r q s.
Proof.
  intros Hr. transitivity (match_at r 0 s).
  - exact (match_at_shift r 0 p s Hr).
  - symmetry. exact (match_at_shift r 0 q s Hr).
Qed.

Lemma sub_go_anywhere {St} r (f : rmatch -> St -> string * St) s p q skip acc :
  bol_free r = true -> sub_go r f s p skip acc = sub_go r f s q skip acc.
Proof.
  intros Hr. revert p q skip acc.
  induction s as [|c s IH]; intros p q skip acc.
  - destruct skip; cbn [sub_go]; [|done].
    by rewrite (match_at_anywhere r p q "" Hr).
  - destruct skip as [|j]; cbn [sub_go]; [|apply IH].
    rewrite (match_at_anywhere r p q _ Hr).
    destruct (match_at r q (String c s)) as [m|].
    + destruct (f m acc) as [out acc1].
      destruct (String.length (m_text m)) as [|j];
        by rewrite (IH (S p) (S q)).
    + by rewrite (IH (S p) (S q)).
Qed.

(** A replacement function that adds to the counter what it adds to 0
    makes [re.sub] add to the counter what it adds to 0. *)
Lemma sub_go_from_zero r (f : rmatch -> nat -> string * nat) s p skip acc :
  (forall m n, f m n = ((f m 0).1, n + (f m 0).2)) ->
  sub_go r f s p skip acc
  = ((sub_go r f s p skip 0).1, acc + (sub_go r f s p skip 0).2).
Proof.
  intros Hf. revert p skip acc.
  induction s as [|c s IH]; intros p skip acc.
  - destruct skip; cbn [sub_go]; [|by rewrite Nat.add_0_r].
    destruct (match_at r p "") as [m|]; [|by rewrite Nat.add_0_r].
    rewrite (Hf m acc). by destruct (f m 0).
  - destruct skip as [|j]; cbn [sub_go]; [|apply IH].
    destruct (match_at r p (String c s)) as [m|].
    + rewrite (Hf m acc). destruct (f m 0) as [out d]. cbn [fst snd].
      destruct (String.length (m_text m)) as [|j].
      * rewrite (IH (S p) 0 (acc + d)), (IH (S p) 0 d).
        destruct (sub_go r f s (S p) 0 0) as [tl e]. cbn [fst snd].
        f_equal. lia.
      * rewrite (IH (S p) j (acc + d)), (IH (S p) j d).
        destruct (sub_go r f s (S p) j 0) as [tl e]. cbn [fst snd].
        f_equal. lia.
    + rewrite (IH (S p) 0 acc).
      destruct (sub_go r f s (S p) 0 0) as [tl e]. done.
Qed.

Lemma starts_nowhere_drop r pre s i :
  starts_nowhere r pre s = true -> i < String.length pre ->
  match_at r 0 (Py.drop i pre +:+ s) = None.
Proof.
  revert i. induction pre as [|c pre IH]; intros i; cbn [starts_nowhere].
  { simpl. lia. }
  destruct (match_at r 0 (String c pre +:+ s)) eqn:E; [done|].
  intros H Hi. destruct i as [|i]; [exact E|].
  simpl. apply IH; [done|]. simpl in Hi. lia.
Qed.

Lemma or_else_none {A} (x y : option A) :
  or_else x y = None <-> x = None /\ y = None.
Proof. destruct x; simpl; [split; [done|by intros [? _]]|tauto]. Qed.

Lemma star_greedy_none {A B} c s n n'
    (k : nat -> string -> option A) (k' : nat -> string -> option B) :
  (forall m m' s', k m s' = None <-> k' m' s' = None) ->
  star_greedy c s n k = None <-> star_greedy c s n' k' = None.
Proof.
  intros Hk. revert n n'. induction s as [|a s IH]; intros n n'; simpl.
  - apply Hk.
  - destruct (c a); [|apply Hk].
    rewrite !or_else_none, (IH (S n) (S n')), (Hk n n'). done.
Qed.

Lemma star_lazy_none {A B} c s n n'
    (k : nat -> string -> option A) (k' : nat -> string -> option B) :
  (forall m m' s', k m s' = None <-> k' m' s' = None) ->
  star_lazy c s n k = None <-> star_lazy c s n' k' = None.
Proof.
  intros Hk. revert n n'. induction s as [|a s IH]; intros n n'; simpl.
  - pose proof (Hk n n' "") as H.
    destruct (k n ""), (k' n' ""); try done; destruct H; split; intros; try done;
      exfalso; eauto; discriminate.
  - pose proof (Hk n n' (String a s)) as H.
    destruct (k n (String a s)), (k' n' (String a s)).
    + done.
    + destruct H as [_ H]. by specialize (H eq_refl).
    + destruct H as [H _]. by specialize (H eq_refl).
    + destruct (c a); [apply IH|done].
Qed.

(** Whether a pattern without [^] and back-references fails depends only
    on the text it reads, not on the position or on the groups. *)
Lemma exec_none r st st' (k k' : mstate -> option mstate) :
  plain r = true ->
  rest st = rest st' ->
  (forall s1 s1', rest s1 = rest s1' -> k s1 = None <-> k' s1' = None) ->
  exec r st k = None <-> exec r st' k' = None.
Proof.
  revert st st' k k'.
  induction r as [|s|c|r1 IH1 r2 IH2|r1 IH1 r2 IH2|g c|r1 IH1|n r1 IH1|n| |];
    intros st st' k k' Hr Hrest Hk; cbn [exec plain] in *.
  - by apply Hk.
  - rewrite <- Hrest. destruct (Py.startswith (rest st) s); [|done].
    apply Hk. unfold advance. cbn [rest]. by rewrite Hrest.
  - rewrite <- Hrest. destruct (rest st) as [|a s']; [done|].
    destruct (in_cset c a); [|done]. by apply Hk.
  - apply andb_true_iff in Hr as [H1 H2].
    apply IH1; [done|done|]. intros s1 s1' Hs. by apply IH2.
  - apply andb_true_iff in Hr as [H1 H2].
    rewrite !or_else_none, (IH1 st st' k k'), (IH2 st st' k k'); done.
  - rewrite <- Hrest. destruct g.
    + apply star_greedy_none. intros m m' s'. by apply Hk.
    + apply star_lazy_none. intros m m' s'. by apply Hk.
  - rewrite !or_else_none, (IH1 st st' k k'), (Hk st st'); done.
  - apply IH1; [done|done|]. intros s1 s1' Hs. by apply Hk.
  - done.
  - done.
  - pose proof (Hk st st' Hrest) as Hst. rewrite <- Hrest.
    destruct (rest st) as [|a [|b s']]; [done| |done].
    by destruct (Ascii.eqb a Py.nl).
Qed.

Lemma match_at_none r p s :
  match_at r p s = None -> exec r (MState p s []) Some = None.
Proof. unfold match_at. by destruct (exec r (MState p s []) Some). Qed.

End Positions.

(** ** The rule for the binding of an untyped result *)

Section Binding_rule.
Import Re Rules.

Lemma exec_pattern1_tail w6 w7 w8 w9 w10 q1 t q2 w11 post p cs :
  blank w6 = true -> blank w7 = true -> blank w8 = true ->
  blank w9 = true -> w9 <> "" -> blank w10 = true ->
  is_quote q1 = true -> word t = true -> is_quote q2 = true ->
  blank w11 = true ->
  exec
    (seq [ Star true CSpace; Lit "}"; Star true CSpace; Lit "=";
           Star true CSpace; Lit "await"; Plus true CSpace;
           Lit "supabase"; Star true CSpace; Lit ".from("; Cls quotes;
           Group 3 (Plus true CWord); Cls quotes; Lit ")";
           Star true CSpace; Lit ".select(" ])
    (MState p
       (w6 +:+ "}" +:+ w7 +:+ "=" +:+ w8 +:+ "await" +:+ w9 +:+ "supabase"
        +:+ w10 +:+ ".from(" +:+ String q1 (t +:+ String q2 (")" +:+ w11
        +:+ ".select(" +:+ post))) cs) Some
  = Some (MState
            (p + String.length (binding_tail w6 w7 w8 w9 w10 q1 t q2 w11))
            post ((3, t) :: cs)).
Proof.
  intros B6 B7 B8 B9 N9 B10 Q1 Wt Q2 B11.
  apply word_all in Wt as [Nt Wt]. cbn [seq].
  exec_steps. star B6. exec_steps. star B7. exec_steps. star B8.
  exec_steps. plus N9 B9. exec_steps. star B10. exec_steps.
  rewrite exec_cls by exact Q1.
  exec_steps. plus Nt Wt.
  { simpl. by rewrite (quote_not_word q2). }
  exec_steps. rewrite exec_cls by exact Q2.
  exec_steps. star B11. exec_steps. solve_take.
  f_equal. f_equal. unfold binding_tail.
  repeat (progress (rewrite ?str_length_app; simpl)). lia.
Qed.

Lemma exec_pattern1 b post p :
  binding_ok b = true ->
  exec pattern1 (MState p (binding_text b +:+ post) []) Some
  = Some (MState (p + String.length (binding_text b)) post (binding_caps b)).
Proof.
  unfold binding_ok, binding_text, binding_caps.
  destruct b as [w1 w2 w3 v e w6 w7 w8 w9 w10 q1 t q2 w11].
  cbn [ws_const ws_open ws_data data_var error_var ws_close ws_eq ws_await
       ws_supabase ws_from quote_open table quote_close ws_select].
  rewrite !andb_true_iff.
  intros (((((((((((((((B1 & N1) & B2) & B3) & Wv) & He) & B6) & B7) & B8) & B9)
              & N9) & B10) & Q1) & Wt) & Q2) & B11).
  apply negb_true_iff, String.eqb_neq in N1, N9.
  apply word_all in Wv as [Nv Wv].
  pose proof (fun p cs => exec_pattern1_tail w6 w7 w8 w9 w10 q1 t q2 w11 post
                            p cs B6 B7 B8 B9 N9 B10 Q1 Wt Q2 B11) as Htail.
  destruct e as [[[w4 w5] ev]|]; cbn [error_part app] in *;
    rewrite ?str_app_nil_l, !str_app_assoc; unfold Py.chr;
    unfold pattern1; cbn [seq].
  - apply andb_true_iff in He as [[B4 B5]%andb_true_iff Wev].
    pose proof Wev as Wev'. apply word_all in Wev as [Nev Wev].
    exec_steps. plus N1 B1.
    exec_steps. star B2.
    exec_steps. star B3. { by apply stops_word; destruct v. }
    exec_steps. plus Nv Wv.
    exec_norm. rewrite exec_seq, exec_opt. apply or_else_l.
    exec_steps. star B4.
    exec_steps. star B5. { by apply stops_word. }
    exec_steps. plus Nev Wev. { by apply stops_blank. }
    exec_norm. solve_take.
    refine (eq_trans (Htail _ _) _).
    f_equal. f_equal. unfold binding_tail.
    repeat (progress (rewrite ?str_length_app; simpl)). lia.
  - exec_steps. plus N1 B1.
    exec_steps. star B2.
    exec_steps. star B3. { by apply stops_word; destruct v. }
    exec_steps. plus Nv Wv. { by apply stops_blank. }
    exec_norm. rewrite exec_seq, exec_opt. apply or_else_r.
    { rewrite exec_seq. apply exec_lit_fails. cbn [rest].
      by apply startswith_blank. }
    exec_norm. solve_take.
    refine (eq_trans (Htail _ _) _).
    f_equal. f_equal. unfold binding_tail.
    repeat (progress (rewrite ?str_length_app; simpl)). lia.
Qed.

Lemma match_at_pattern1 b post p :
  binding_ok b = true ->
  match_at pattern1 p (binding_text b +:+ post)
  = Some (RMatch (binding_text b) (binding_caps b)).
Proof.
  intros Hb. unfold match_at. rewrite exec_pattern1 by done. cbn [pos caps].
  by rewrite take_app_eq by lia.
Qed.

Lemma binding_text_nonempty b : binding_text b <> "".
Proof. done. Qed.

End Binding_rule.

(** A statement that [pattern1] matches is rewritten and counted, and the
    text that [add_type_assertion] returns for it holds no [as]: a second
    application finds the same statement and returns the same text. *)
Lemma supabase_query_rewritten_twice :
  Rules.supabase_never_types_rule supabase_query
  = (supabase_query_rewritten, 1)
  /\ Py.contains supabase_query_rewritten " as " = false
  /\ Rules.supabase_never_types_rule supabase_query_rewritten
     = (supabase_query_rewritten, 0).
Proof. repeat split; vm_compute; reflexivity. Qed.

(** ** The rule for the argument of a call *)

Section Argument_rule.
Import Re Rules.

Lemma exec_pattern2 p method arg post :
  method = "insert" \/ method = "update" ->
  arg <> "" -> free_of ")" arg = true ->
  exec pattern2 (MState p ("." +:+ method +:+ "(" +:+ arg +:+ ")" +:+ post) []) Some
  = Some (MState (p + String.length ("." +:+ method +:+ "(" +:+ arg +:+ ")"))
            post [(2, arg); (1, method)]).
Proof.
  intros Hm Harg Hfree.
  unfold pattern2. cbn [seq].
  exec_steps. rewrite exec_alt.
  destruct Hm as [-> | ->];
    [apply or_else_l|apply or_else_r; [by apply exec_lit_fails|]];
    exec_steps;
    (apply exec_plus_greedy; [done|by rewrite (free_of_none_of ")")|done|]);
    exec_steps; solve_take; do 2 f_equal;
    rewrite !str_length_app; simpl; lia.
Qed.

Lemma match_at_pattern2 p method arg post :
  method = "insert" \/ method = "update" ->
  arg <> "" -> free_of ")" arg = true ->
  match_at pattern2 p ("." +:+ method +:+ "(" +:+ arg +:+ ")" +:+ post)
  = Some (RMatch ("." +:+ method +:+ "(" +:+ arg +:+ ")") [(2, arg); (1, method)]).
Proof.
  intros Hm Harg Hfree. unfold match_at.
  rewrite exec_pattern2 by done. cbn [pos caps]. f_equal. f_equal.
  replace ("." +:+ method +:+ "(" +:+ arg +:+ ")" +:+ post)
    with (("." +:+ method +:+ "(" +:+ arg +:+ ")") +:+ post)
    by (by rewrite !str_app_assoc).
  apply take_app_eq. lia.
Qed.

Lemma word_re_matches s :
  (forall u c, s = u +:+ Py.chr c -> Py.is_space c = false) ->
  is_Some (rematch word_re s) <-> s <> "" /\ all_in Py.is_word s = true.
Proof.
  intros Hlast. unfold rematch. rewrite match_at_is_Some. split.
  - intros [res H]. apply exec_sound in H as (st' & H & _).
    unfold word_re, Plus in H. cbn [seq matches] in H.
    destruct H as (st1 & [_ ->] & st2 & (st3 & (a & Ha & Hw & _) & (w & E & Hall & _))
                    & Hend & ->).
    cbn [rest] in *. rewrite E in Ha. clear E.
    destruct Hend as [Hend|Hend]; rewrite Hend in Ha.
    + rewrite str_app_nil_r in Ha. subst s. split; [done|].
      apply andb_true_iff. split; [exact Hw|exact Hall].
    + specialize (Hlast (String a w) Py.nl Ha). done.
  - intros [Hne Hall]. destruct s as [|a w]; [done|].
    simpl in Hall. apply andb_true_iff in Hall as [Ha Hw].
    apply (exec_complete _ _ (MState (S (String.length w)) "" []));
      [|eexists; reflexivity].
    unfold word_re, Plus. cbn [seq matches].
    exists (MState 0 (String a w) []). split; [done|].
    exists (MState (S (String.length w)) "" []). split; [|split; [by left|done]].
    exists (MState 1 w []). split.
    + exists a. done.
    + exists w. by rewrite str_app_nil_r.
Qed.

Lemma word_re_strip arg :
  bool_decide (is_Some (rematch word_re (Py.strip arg))) = bare_identifier arg.
Proof.
  unfold bare_identifier.
  assert (forall u c, Py.strip arg = u +:+ Py.chr c -> Py.is_space c = false)
    as Hlast by (intros u c; apply rstrip_last).
  pose proof (word_re_matches _ Hlast) as H.
  destruct (Py.strip arg) as [|a w] eqn:E.
  - apply bool_decide_eq_false. intros Hs. by apply H in Hs as [? _].
  - destruct (all_in Py.is_word (String a w)) eqn:Hall.
    + apply bool_decide_eq_true. by apply H.
    + apply bool_decide_eq_false. intros Hs. apply H in Hs as [_ Hs]. congruence.
Qed.

Lemma fix_insert_update_call method arg n :
  fix_insert_update
    (RMatch ("." +:+ method +:+ "(" +:+ arg +:+ ")") [(2, arg); (1, method)]) n
  = if negb (has_assertion arg) && (object_literal arg || bare_identifier arg)
    then ("." +:+ method +:+ "(" +:+ arg +:+ " as any)", n + 1)
    else ("." +:+ method +:+ "(" +:+ arg +:+ ")", n).
Proof.
  unfold fix_insert_update, has_assertion, group. cbn [m_caps m_text lookup_cap Nat.eqb fmt].
  rewrite startswith_strip, word_re_strip.
  by destruct (Py.contains arg " as ").
Qed.

Lemma pattern2_needs_dot p d s :
  Ascii.eqb "." d = false -> match_at pattern2 p (String d s) = None.
Proof.
  intros Hd. unfold match_at, pattern2. cbn [seq].
  rewrite exec_seq, exec_lit_fails; [done|].
  cbn [rest Py.startswith]. by rewrite Hd.
Qed.

Lemma pattern2_copies {St} (f : rmatch -> St -> string * St) pre s p acc :
  free_of "." pre = true ->
  sub_go pattern2 f (pre +:+ s) p 0 acc
  = let '(tl, acc') := sub_go pattern2 f s (p + String.length pre) 0 acc in
    (pre +:+ tl, acc').
Proof.
  intros Hpre. apply sub_go_copy. intros i t Hi.
  destruct (free_of_drop _ _ _ Hpre Hi) as (d & u & -> & Hd).
  by apply pattern2_needs_dot.
Qed.

End Argument_rule.

(** The rule on a call of [insert] or [update] whose argument holds no
    closing parenthesis.  It appends the assertion to the argument, and
    counts one fix, exactly when the argument holds no assertion yet and is
    either a bare word or a text that opens with a brace.  An argument of
    any other shape, such as the member access [a.b], is returned character
    for character, with count 0.  The text around the call, in which no
    other call starts, is kept. *)
Lemma unsound_argument_rule_shapes (pre method arg post : string) :
  free_of "." pre = true ->
  free_of "." post = true ->
  method = "insert" \/ method = "update" ->
  arg <> "" ->
  free_of ")" arg = true ->
  unsound_argument_rule (pre +:+ "." +:+ method +:+ "(" +:+ arg +:+ ")" +:+ post)
  = if negb (has_assertion arg) && (object_literal arg || bare_identifier arg)
    then (pre +:+ "." +:+ method +:+ "(" +:+ arg +:+ " as any)" +:+ post, 1)
    else (pre +:+ "." +:+ method +:+ "(" +:+ arg +:+ ")" +:+ post, 0).
Proof.
  intros Hpre Hpost Hm Harg Hfree.
  unfold unsound_argument_rule, Re.sub_with.
  rewrite pattern2_copies by done.
  change ("." +:+ method +:+ "(" +:+ arg +:+ ")" +:+ post)
    with (String "." (method +:+ "(" +:+ arg +:+ ")" +:+ post)).
  rewrite (sub_go_match _ _ _ _ _ _ _
             (String.length (method +:+ "(" +:+ arg +:+ ")"))
             (match_at_pattern2 _ method arg post Hm Harg Hfree) eq_refl).
  rewrite fix_insert_update_call.
  assert (forall acc : nat,
            Re.sub_go Rules.pattern2 Rules.fix_insert_update
              (method +:+ "(" +:+ arg +:+ ")" +:+ post)
              (S (0 + String.length pre))
              (String.length (method +:+ "(" +:+ arg +:+ ")")) acc
            = (post, acc)) as Hrest.
  { intros acc.
    replace (method +:+ "(" +:+ arg +:+ ")" +:+ post)
      with ((method +:+ "(" +:+ arg +:+ ")") +:+ post)
      by (by rewrite !str_app_assoc).
    rewrite sub_go_skip.
    rewrite <- (str_app_nil_r post) at 1.
    rewrite pattern2_copies by done. cbn [Re.sub_go].
    assert (forall q, Re.match_at Rules.pattern2 q "" = None) as -> by done.
    by rewrite str_app_nil_r. }
  destruct (negb (has_assertion arg) && _); rewrite Hrest;
    by rewrite !str_app_assoc.
Qed.

(** A call as the argument: the pattern takes [f(x] for the argument, which
    has neither shape. *)
Lemma unsound_argument_rule_on_a_call :
  unsound_argument_rule "db.insert(f(x))" = ("db.insert(f(x))", 0).
Proof.
  exact (unsound_argument_rule_shapes "db" "insert" "f(x" ")"
           eq_refl eq_refl (or_introl eq_refl) ltac:(discriminate) eq_refl).
Qed.

(** The shapes the rule tells apart, on texts of one call each. *)
Lemma unsound_argument_rule_examples :
  unsound_argument_rule "db.insert({id: x})" = ("db.insert({id: x} as any)", 1)
  /\ unsound_argument_rule "db.update(row)" = ("db.update(row as any)", 1)
  /\ unsound_argument_rule "db.insert(row as Row)" = ("db.insert(row as Row)", 0)
  /\ unsound_argument_rule "db.insert(a.b)" = ("db.insert(a.b)", 0)
  /\ unsound_argument_rule "db.insert(f(x))" = ("db.insert(f(x))", 0)
  /\ unsound_argument_rule "db.insert([x, y])" = ("db.insert([x, y])", 0).
Proof. repeat split; vm_compute; reflexivity. Qed.

(** C7 fails on an object literal that holds a call.  The pattern ends the
    argument at the first closing parenthesis, which is that of the inner
    call; the rule takes the text up to there, which opens with a brace,
    for an object literal, puts the assertion inside the inner call and
    counts one fix.  The object literal itself gets no assertion, and the
    text of the call is no longer an expression.  A member access on an
    object literal, which opens with a brace too, is rewritten as well. *)
Theorem unsound_argument_rule_nested_call :
  Re.search Rules.pattern2 ".insert({ id: uuid(), name })"
  = Some (Re.RMatch ".insert({ id: uuid()"
            [(2, "{ id: uuid("); (1, "insert")])
  /\ unsound_argument_rule ".insert({ id: uuid(), name })"
     = (".insert({ id: uuid( as any), name })", 1)
  /\ Rules.supabase_never_types_rule ".insert({ id: uuid(), name })"
     = (".insert({ id: uuid( as any), name })", 1)
  /\ unsound_argument_rule "rows.update({ at: new Date().toISOString() })"
     = ("rows.update({ at: new Date( as any).toISOString() })", 1)
  /\ unsound_argument_rule ".insert({a: 1}.b)" = (".insert({a: 1}.b as any)", 1).
Proof. repeat split; vm_compute; reflexivity. Qed.

(** ** The fix counts *)

Section Counts.
Import Re Rules.

Lemma add_type_assertion_counts m n :
  (add_type_assertion m n).2 = n + (if counted1 m then 1 else 0).
Proof.
  unfold add_type_assertion, counted1.
  destruct (Py.contains (m_text m) " as "); simpl; [lia|].
  by destruct (truthy (group m 2)).
Qed.

Lemma fix_insert_update_counts m n :
  (fix_insert_update m n).2 = n + (if counted2 m then 1 else 0).
Proof.
  unfold fix_insert_update, counted2.
  destruct (Py.contains (fmt (group m 2)) " as "); simpl; [lia|].
  match goal with |- context [if ?b then _ else _] => destruct b end;
    simpl; lia.
Qed.

Lemma fix_catch_counts m n :
  (fix_catch m n).2 = n + (if counted3 m then 1 else 0).
Proof.
  unfold fix_catch, counted3.
  match goal with |- context [if ?b then _ else _] => destruct b end;
    simpl; lia.
Qed.

Lemma as_rule_unchanged subs content n :
  subs content = (content, n) -> as_rule subs content = (content, 0).
Proof.
  unfold as_rule. intros ->. by rewrite bool_decide_eq_false_2 by auto.
Qed.


End Counts.




(** ** The rule for catch blocks, applied twice *)

(** C1 fails on the error-narrowing rule.  On a catch block whose comment
    quotes another catch clause, the first application narrows the quoted
    clause and renames the logged value to [err]; this makes the outer
    clause, which binds [err], match on the second application, which
    rewrites the text again and counts one more fix.  Only the third
    application changes nothing. *)
Theorem error_handling_rule_twice :
  Rules.error_handling_rule nested_catch = (nested_catch_once, 1)
  /\ Rules.error_handling_rule nested_catch_once = (nested_catch_twice, 1)
  /\ Rules.error_handling_rule nested_catch_twice = (nested_catch_twice, 0).
Proof. repeat split; vm_compute; reflexivity. Qed.

(** ** The diagnostic parser *)

Section Parser_lemmas.
Import Re Rules Parser.

(** The pattern of [parse_errors] is the start of the line, the group of
    the path, which is a shortest text followed by [.ts] or [.tsx], and
    [diagnostic_rest]. *)
Lemma error_re_parts :
  error_re
  = Seq Bol
      (Seq (Group 1 (Seq (Plus false CAny) (seq [ Lit ".ts"; Opt (Lit "x") ])))
         diagnostic_rest).
Proof. reflexivity. Qed.

Lemma no_early_extension u ext tail t :
  u <> "" ->
  Py.startswith u ".ts(" = false -> Py.startswith u ".tsx(" = false ->
  ext = ".ts" \/ ext = ".tsx" ->
  u +:+ ext +:+ "(" +:+ tail <> ".ts(" +:+ t
  /\ u +:+ ext +:+ "(" +:+ tail <> ".tsx(" +:+ t.
Proof.
  intros Hne Hts Htsx Hext.
  destruct u as [|a1 [|a2 [|a3 [|a4 [|a5 u]]]]]; [done|..];
    destruct Hext as [-> | ->]; split; intros [=]; subst;
    vm_compute in Hts, Htsx; discriminate.
Qed.

Lemma extension_needs_paren st k :
  (forall t, rest st <> ".ts(" +:+ t) ->
  (forall t, rest st <> ".tsx(" +:+ t) ->
  (forall st1 res, k st1 = Some res -> exists t, rest st1 = "(" +:+ t) ->
  exec (Seq (Lit ".ts") (Opt (Lit "x"))) st k = None.
Proof.
  intros Hts Htsx Hk.
  destruct (exec (Seq (Lit ".ts") (Opt (Lit "x"))) st k) as [res|] eqn:E; [|done].
  exfalso. apply exec_sound in E as (st1 & Hm & Hres).
  apply Hk in Hres as (t & Ht).
  cbn [matches] in Hm. destruct Hm as (st2 & (E2 & _) & [(E1 & _)| ->]).
  - apply (Htsx t). by rewrite E2, E1, Ht.
  - apply (Hts t). by rewrite E2, Ht.
Qed.

Lemma exec_error_tail p cs l c n msg :
  l <> "" -> all_in Py.is_digit l = true ->
  c <> "" -> all_in Py.is_digit c = true ->
  n <> "" -> all_in Py.is_digit n = true ->
  msg <> "" -> free_of Py.nl msg = true ->
  exists q,
    exec
      (Seq (Lit "(")
         (Seq (Group 2 (Plus true CDigit))
            (Seq (Lit ",")
               (Seq (Group 3 (Plus true CDigit))
                  (Seq (Lit "): error ")
                     (Seq (Group 4 (Seq (Lit "TS") (Plus true CDigit)))
                        (Seq (Lit ": ") (Seq (Group 5 (Plus true CAny)) Eol))))))))
      (MState p ("(" +:+ l +:+ "," +:+ c +:+ "): error " +:+ "TS" +:+ n
                 +:+ ": " +:+ msg +:+ "") cs) Some
    = Some (MState q "" ((5, msg) :: (4, "TS" +:+ n) :: (3, c) :: (2, l) :: cs)).
Proof.
  intros Hl Hld Hc Hcd Hn Hnd Hmsg Hmnl. eexists.
  exec_steps. apply exec_plus_greedy; [done|done|done|].
  exec_steps. apply exec_plus_greedy; [done|done|done|].
  exec_steps. apply exec_plus_greedy; [done|done|done|].
  exec_steps. apply exec_plus_greedy; [done|by rewrite free_of_any|done|].
  exec_steps. solve_take.
  rewrite (take_app2 _ "TS" n) by (simpl; lia).
  reflexivity.
Qed.

Lemma exec_error_re stem ext l c n msg :
  stem <> "" -> free_of Py.nl stem = true ->
  starts_nowhere diagnostic_end (Py.drop 1 stem)
    (ext +:+ "(" +:+ l +:+ "," +:+ c +:+ "): error TS" +:+ n +:+ ": " +:+ msg)
  = true ->
  ext = ".ts" \/ ext = ".tsx" ->
  l <> "" -> all_in Py.is_digit l = true ->
  c <> "" -> all_in Py.is_digit c = true ->
  n <> "" -> all_in Py.is_digit n = true ->
  msg <> "" -> free_of Py.nl msg = true ->
  exists q,
    exec error_re
      (MState 0 (stem +:+ ext +:+ "(" +:+ l +:+ "," +:+ c +:+ "): error TS"
                 +:+ n +:+ ": " +:+ msg) []) Some
    = Some (MState q ""
              [(5, msg); (4, "TS" +:+ n); (3, c); (2, l); (1, stem +:+ ext)]).
Proof.
  intros Hstem Hnl Hcut Hext Hl Hld Hc Hcd Hn Hnd Hmsg Hmnl.
  destruct (exec_error_tail (0 + String.length stem + String.length ext)
              [(1, stem +:+ ext)]
              l c n msg) as [q Htail]; try done.
  exists q. unfold error_re. cbn [seq]. exec_steps.
  apply exec_plus_lazy; [done|by rewrite free_of_any| |].
  - intros i Hi. exec_norm. rewrite drop_app_lt by lia.
    destruct stem as [|a stem']; [done|]. destruct i as [|j]; [lia|].
    cbn [Py.drop] in *.
    pose proof (starts_nowhere_drop _ _ _ j Hcut ltac:(simpl in Hi; lia)) as H0.
    apply match_at_none in H0. unfold diagnostic_end in H0.
    rewrite exec_seq in H0.
    match goal with
    | |- exec ?r ?st ?k = None =>
        assert (forall s1 s1' : mstate,
                  rest s1 = rest s1' ->
                  exec diagnostic_rest s1 Some = None <-> k s1' = None) as Hk;
        [|exact (proj1 (exec_none r (MState 0 (rest st) []) st _ k
                          eq_refl eq_refl Hk) H0)]
    end.
    intros s1 s1' Hs. cbn beta.
    apply (exec_none diagnostic_rest); [done|done|done].
  - exec_norm. rewrite str_app_nil_r in Htail.
    destruct Hext as [-> | ->].
    + exec_steps. rewrite exec_opt. apply or_else_r; [by apply exec_lit_fails|].
      exec_norm. rewrite (take_app2 _ stem ".ts") by (simpl; lia).
      exact Htail.
    + match goal with
      | |- exec ?r (MState ?p (".tsx" +:+ ?t) ?cs) ?k = _ =>
          change (exec r (MState p (".tsx" +:+ t) cs) k)
            with (exec r (MState p (".ts" +:+ "x" +:+ t) cs) k)
      end.
      exec_steps. rewrite exec_opt. apply or_else_l. exec_steps.
      rewrite (take_app2 _ stem ".tsx") by (simpl; lia).
      replace (0 + String.length stem + String.length ".ts" + String.length "x")
        with (0 + String.length stem + String.length ".tsx") by (simpl; lia).
      exact Htail.
Qed.

Lemma parse_line_sound ln f d :
  parse_line ln = Some (f, d) ->
  exists stem ext l c n tail,
    ln = f +:+ "(" +:+ l +:+ "," +:+ c +:+ "): error " +:+ code d +:+ ": "
         +:+ message d +:+ tail
    /\ f = stem +:+ ext /\ stem <> "" /\ (ext = ".ts" \/ ext = ".tsx")
    /\ l <> "" /\ all_in Py.is_digit l = true /\ line d = Py.int l
    /\ c <> "" /\ all_in Py.is_digit c = true /\ col d = Py.int c
    /\ code d = "TS" +:+ n /\ n <> "" /\ all_in Py.is_digit n = true
    /\ message d <> "" /\ free_of Py.nl (message d) = true
    /\ (tail = "" \/ tail = Py.chr Py.nl).
Proof.
  unfold parse_line, rematch, match_at.
  destruct (exec error_re (MState 0 ln []) Some) as [st|] eqn:E; [|done].
  apply exec_sound in E as (st' & Hm & [= ->]).
  unfold error_re in Hm. cbn [seq] in Hm.
  apply matches_seq in Hm as (s0 & [_ ->] & Hm).
  apply matches_seq in Hm as (s1 & H1 & Hm).
  apply matches_seq in Hm as (s2 & (E2 & _ & C2) & Hm).
  apply matches_seq in Hm as (s3 & H3 & Hm).
  apply matches_seq in Hm as (s4 & (E4 & _ & C4) & Hm).
  apply matches_seq in Hm as (s5 & H5 & Hm).
  apply matches_seq in Hm as (s6 & (E6 & _ & C6) & Hm).
  apply matches_seq in Hm as (s7 & H7 & Hm).
  apply matches_seq in Hm as (s8 & (E8 & _ & C8) & Hm).
  apply matches_seq in Hm as (s9 & H9 & (Hend & ->)).
  apply matches_group in H1 as (path & t1 & Hpath & P1 & ->).
  apply matches_group in H3 as (l & t3 & Hl & P3 & ->).
  apply matches_group in H5 as (c & t5 & Hc & P5 & ->).
  apply matches_group in H7 as (cd & t7 & Hcd & P7 & ->).
  apply matches_group in H9 as (msg & t9 & Hmsg & P9 & ->).
  apply matches_seq in Hpath as (u1 & Hstem & Hext).
  apply matches_plus in Hstem as (stem & Hstem & _ & Es & _).
  apply matches_seq in Hext as (u2 & (Ets & _) & Hx).
  apply matches_plus in Hl as (l' & Hl & Hld & El & Cl).
  apply matches_plus in Hc as (c' & Hc & Hcd' & Ec & Cc).
  apply matches_seq in Hcd as (u3 & (ETS & _ & CTS) & Hn).
  apply matches_plus in Hn as (n & Hn & Hnd & En & Cn).
  apply matches_plus in Hmsg as (msg' & Hmsg & Hmd & Em & Cm).
  cbn [rest caps pos] in *.
  rewrite Cm, C8, Cn, CTS, C6, Cc, C4, Cl, C2.
  cbn [group m_caps lookup_cap Nat.eqb fmt].
  intros [= <- <-]. cbn [line col code message].
  assert (l' = l) as -> by (apply (str_app_inv_tail _ _ (rest t3)); congruence).
  assert (c' = c) as -> by (apply (str_app_inv_tail _ _ (rest t5)); congruence).
  assert (msg' = msg) as ->
    by (apply (str_app_inv_tail _ _ (rest t9)); congruence).
  assert ("TS" +:+ n = cd) as <-.
  { apply (str_app_inv_tail _ _ (rest t7)). rewrite str_app_assoc. congruence. }
  assert (exists ext, (ext = ".ts" \/ ext = ".tsx") /\ path = stem +:+ ext)
    as (ext & Hext & ->).
  { destruct Hx as [(Ex & _)| ->].
    - exists ".tsx". split; [by right|].
      apply (str_app_inv_tail _ _ (rest t1)). rewrite <- P1, Es, Ets, Ex.
      by rewrite !str_app_assoc.
    - exists ".ts". split; [by left|].
      apply (str_app_inv_tail _ _ (rest u2)). rewrite <- P1, Es, Ets.
      by rewrite !str_app_assoc. }
  exists stem, ext, l, c, n, (rest t9).
  split.
  { rewrite P1, E2, P3, E4, P5, E6, P7, E8, P9. by rewrite !str_app_assoc. }
  repeat split; try done.
Qed.

Lemma parse_line_complete stem ext l c n msg :
  stem <> "" -> free_of Py.nl stem = true ->
  starts_nowhere diagnostic_end (Py.drop 1 stem)
    (ext +:+ "(" +:+ l +:+ "," +:+ c +:+ "): error TS" +:+ n +:+ ": " +:+ msg)
  = true ->
  ext = ".ts" \/ ext = ".tsx" ->
  l <> "" -> all_in Py.is_digit l = true ->
  c <> "" -> all_in Py.is_digit c = true ->
  n <> "" -> all_in Py.is_digit n = true ->
  msg <> "" -> free_of Py.nl msg = true ->
  parse_line (stem +:+ ext +:+ "(" +:+ l +:+ "," +:+ c +:+ "): error TS"
              +:+ n +:+ ": " +:+ msg)
  = Some (stem +:+ ext, Diag (Py.int l) (Py.int c) ("TS" +:+ n) msg).
Proof.
  intros Hstem Hnl Hcut Hext Hl Hld Hc Hcd Hn Hnd Hmsg Hmnl.
  destruct (exec_error_re stem ext l c n msg) as [q Hq]; try done.
  unfold parse_line, rematch, match_at. by rewrite Hq.
Qed.

Lemma no_cut_without_extension u ext tail :
  Py.contains u ".ts(" = false -> Py.contains u ".tsx(" = false ->
  ext = ".ts" \/ ext = ".tsx" ->
  starts_nowhere diagnostic_end u (ext +:+ "(" +:+ tail) = true.
Proof.
  intros Hts Htsx Hext. induction u as [|a u IH]; [done|].
  cbn [Py.contains] in Hts, Htsx.
  apply orb_false_iff in Hts as [Hts Hts'].
  apply orb_false_iff in Htsx as [Htsx Htsx'].
  cbn [starts_nowhere]. unfold match_at.
  replace (exec diagnostic_end _ Some) with (@None mstate); [by apply IH|].
  symmetry. unfold diagnostic_end. rewrite exec_seq.
  apply extension_needs_paren; cbn [rest].
  - intros t. by apply no_early_extension.
  - intros t. by apply no_early_extension.
  - intros st1 res H. unfold diagnostic_rest in H. cbn [seq] in H.
    apply exec_sound in H as (st2 & Hm & _).
    cbn [matches] in Hm. destruct Hm as (st3 & (E & _) & _). cbn [rest] in E.
    eauto.
Qed.

Lemma contains_tail a s n :
  Py.contains (String a s) n = false -> Py.contains s n = false.
Proof. cbn [Py.contains]. by intros [_ ?]%orb_false_iff. Qed.

Lemma dict_append_count d key v :
  count_errors (dict_append d key v) = S (count_errors d).
Proof.
  induction d as [|[k vs] d IH]; simpl; [done|].
  destruct (String.eqb k key); simpl.
  - rewrite length_app. simpl. lia.
  - rewrite IH. lia.
Qed.

End Parser_lemmas.

(** C8, as the code has it.  Take a line
    [<stem><ext>(<line>,<col>): error TS<digits>: <message>], where the
    extension is [.ts] or [.tsx], the stem is not empty and holds no
    newline, the line and the column are non-empty runs of at most 4300
    decimal digits, the digits of the code are a non-empty run of decimal
    digits, and the message is not empty and holds no newline.  When at no
    later place of the stem the line reads as an extension followed by
    the rest of a diagnostic, the line gives exactly one entry, under the
    path as it is written, with the line and the column as numbers, which
    are not negative.  This is so for every stem that holds neither [.ts(]
    nor [.tsx(].  Every entry comes from a line of that shape, whose stem
    may be any non-empty text and which may end with one newline.  A line
    adds one entry when it matches, and leaves the dictionary as it is when
    it does not. *)
Theorem parse_line_shape :
  (forall stem ext l c n msg,
      stem <> "" -> free_of Py.nl stem = true ->
      ext = ".ts" \/ ext = ".tsx" ->
      l <> "" -> all_in Py.is_digit l = true -> String.length l <= 4300 ->
      c <> "" -> all_in Py.is_digit c = true -> String.length c <= 4300 ->
      n <> "" -> all_in Py.is_digit n = true ->
      msg <> "" -> free_of Py.nl msg = true ->
      starts_nowhere diagnostic_end (Py.drop 1 stem)
        (ext +:+ "(" +:+ l +:+ "," +:+ c +:+ "): error TS" +:+ n +:+ ": "
         +:+ msg) = true ->
      Parser.parse_errors
        [stem +:+ ext +:+ "(" +:+ l +:+ "," +:+ c +:+ "): error TS"
         +:+ n +:+ ": " +:+ msg]
      = [(stem +:+ ext,
          [Parser.Diag (Py.int l) (Py.int c) ("TS" +:+ n) msg])]
      /\ (0 <= Py.int l)%Z /\ (0 <= Py.int c)%Z)
  /\ (forall stem ext tail,
         Py.contains stem ".ts(" = false -> Py.contains stem ".tsx(" = false ->
         ext = ".ts" \/ ext = ".tsx" ->
         starts_nowhere diagnostic_end (Py.drop 1 stem) (ext +:+ "(" +:+ tail)
         = true)
  /\ (forall ln f d,
         Parser.parse_line ln = Some (f, d) ->
         exists stem ext l c n tail,
           ln = f +:+ "(" +:+ l +:+ "," +:+ c +:+ "): error "
                +:+ Parser.code d +:+ ": " +:+ Parser.message d +:+ tail
           /\ f = stem +:+ ext /\ stem <> "" /\ (ext = ".ts" \/ ext = ".tsx")
           /\ l <> "" /\ all_in Py.is_digit l = true
           /\ Parser.line d = Py.int l
           /\ c <> "" /\ all_in Py.is_digit c = true
           /\ Parser.col d = Py.int c
           /\ Parser.code d = "TS" +:+ n /\ n <> ""
           /\ all_in Py.is_digit n = true
           /\ Parser.message d <> ""
           /\ free_of Py.nl (Parser.message d) = true
           /\ (tail = "" \/ tail = Py.chr Py.nl))
  /\ (forall errors_by_file ln,
         Parser.count_errors (Parser.parse_step errors_by_file ln)
         = Parser.count_errors errors_by_file
           + match Parser.parse_line ln with Some _ => 1 | None => 0 end)
  /\ (forall errors_by_file ln,
         Parser.parse_line ln = None ->
         Parser.parse_step errors_by_file ln = errors_by_file)
  /\ (forall lines ln,
         Parser.parse_errors (lines ++ [ln])
         = Parser.parse_step (Parser.parse_errors lines) ln).
Proof.
  split; [|split; [|split; [|split; [|split]]]].
  - intros stem ext l c n msg Hstem Hnl Hext Hl Hld _ Hc Hcd _
      Hn Hnd Hmsg Hmnl Hcut.
    split; [|split; by apply int_nonneg].
    unfold Parser.parse_errors. cbn [fold_left]. unfold Parser.parse_step.
    by rewrite parse_line_complete.
  - intros stem ext tail Hts Htsx Hext. destruct stem as [|a stem]; [done|].
    cbn [Py.drop]. apply no_cut_without_extension; [..|done].
    + by apply contains_tail in Hts.
    + by apply contains_tail in Htsx.
  - apply parse_line_sound.
  - intros errors_by_file ln. unfold Parser.parse_step.
    destruct (Parser.parse_line ln) as [[f d]|]; [|lia].
    rewrite dict_append_count. lia.
  - intros errors_by_file ln Hnone. unfold Parser.parse_step. by rewrite Hnone.
  - intros lines ln. unfold Parser.parse_errors. by rewrite fold_left_app.
Qed.

Lemma parse_line_shape_witness :
  Parser.parse_errors
    ["src/app/(auth)/page.ts(x).tsx(12,5): error TS2345: Argument of type"]
  = [("src/app/(auth)/page.ts(x).tsx",
      [Parser.Diag 12 5 "TS2345" "Argument of type"])]
  /\ (0 <= 12)%Z /\ (0 <= 5)%Z.
Proof.
  apply (proj1 parse_line_shape "src/app/(auth)/page.ts(x)" ".tsx" "12" "5"
           "2345" "Argument of type"); try done; try (simpl; lia); by right.
Defined.

(** C8, as the claim states it, fails.  A line with the shape of a
    diagnostic whose code is not [TS] followed by digits, or whose path does
    not end in [.ts] or [.tsx], gives no entry; a line that gives line 0
    and column 0 gives an entry with these numbers; and a line whose path
    holds [.ts(] is grouped under the part of the path before it, when
    what follows reads as a diagnostic too. *)
Lemma other_codes_and_paths_are_dropped :
  Parser.parse_errors ["a.ts(3,7): error E2345: bad"] = []
  /\ Parser.parse_errors ["lib/util.js(3,7): error TS2345: bad"] = []
  /\ Parser.parse_errors ["a.ts(0,0): error TS1: m"]
     = [("a.ts", [Parser.Diag 0 0 "TS1" "m"])]
  /\ Parser.parse_errors ["a.ts(1,2): error TS1: b.ts(3,4): error TS2: m"]
     = [("a.ts", [Parser.Diag 1 2 "TS1" "b.ts(3,4): error TS2: m"])].
Proof. repeat split; vm_compute; reflexivity. Qed.

(** ** The ranking of the files *)

Section Ranking.
Import Parser.
Context {A : Type} (key : A -> nat).

Lemma insert_desc_perm x l : insert_desc key x l ≡ₚ x :: l.
Proof.
  induction l as [|y l IH]; simpl; [done|].
  destruct (key y <=? key x); [done|].
  rewrite IH. apply Permutation_swap.
Qed.

Lemma sorted_desc_perm l : sorted_desc key l ≡ₚ l.
Proof.
  induction l as [|x l IH]; simpl; [done|].
  by rewrite insert_desc_perm, IH.
Qed.

Lemma insert_desc_sorted x l :
  StronglySorted (desc key) l -> StronglySorted (desc key) (insert_desc key x l).
Proof.
  induction l as [|y l IH]; simpl; intros Hs.
  - repeat constructor.
  - destruct (Nat.leb_spec (key y) (key x)) as [Hle|Hlt].
    + constructor; [done|].
      inversion_clear Hs as [|? ? _ Hall]. constructor; [done|].
      eapply Forall_impl; [exact Hall|]. unfold desc. intros z Hz. lia.
    + inversion_clear Hs as [|? ? Hs' Hall]. constructor; [by apply IH|].
      rewrite insert_desc_perm. constructor; [|done]. unfold desc. lia.
Qed.

Lemma sorted_desc_sorted l : StronglySorted (desc key) (sorted_desc key l).
Proof.
  induction l as [|x l IH]; simpl; [constructor|].
  by apply insert_desc_sorted.
Qed.

Lemma insert_desc_stable n x l :
  StronglySorted (desc key) l ->
  with_key key n (insert_desc key x l) = with_key key n (x :: l).
Proof.
  unfold with_key. induction l as [|y l IH]; simpl; intros Hs; [done|].
  destruct (Nat.leb_spec (key y) (key x)) as [Hle|Hlt]; [done|].
  inversion_clear Hs as [|? ? Hs' Hall].
  rewrite !filter_cons. rewrite !filter_cons in IH. rewrite (IH Hs').
  repeat case_decide; try done; lia.
Qed.

Lemma sorted_desc_stable n l : with_key key n (sorted_desc key l) = with_key key n l.
Proof.
  induction l as [|x l IH]; simpl; [done|].
  rewrite insert_desc_stable by apply sorted_desc_sorted.
  unfold with_key in *. by rewrite !filter_cons, IH.
Qed.

End Ranking.

(** C9.  [sorted_files] ranks the groups by descending number of
    diagnostics: it is a permutation of the groups, the counts never grow
    along it, and the groups with one and the same count keep the order in
    which their files were first seen.  For [a.ts] with 3, [b.ts] with 1 and
    [c.ts] with 3 diagnostics, discovered in that order, the ranking is
    [a.ts], [c.ts], [b.ts]. *)
Theorem sorted_files_ranking :
  (forall errors_by_file : Parser.errors,
      Parser.sorted_files errors_by_file ≡ₚ errors_by_file
      /\ StronglySorted (fun x y => length y.2 <= length x.2)
           (Parser.sorted_files errors_by_file)
      /\ forall n,
           filter (fun x => length x.2 = n) (Parser.sorted_files errors_by_file)
           = filter (fun x => length x.2 = n) errors_by_file)
  /\ map (fun x => (x.1, length x.2))
       (Parser.parse_errors Ranking_example.lines)
     = [("a.ts", 3); ("b.ts", 1); ("c.ts", 3)]
  /\ map (fun x => (x.1, length x.2))
       (Parser.sorted_files (Parser.parse_errors Ranking_example.lines))
     = [("a.ts", 3); ("c.ts", 3); ("b.ts", 1)].
Proof.
  split; [|split; vm_compute; reflexivity].
  intros errors_by_file. unfold Parser.sorted_files. split; [|split].
  - apply sorted_desc_perm.
  - apply (sorted_desc_sorted (fun x : string * list Parser.diag => length x.2)).
  - intros n.
    apply (sorted_desc_stable (fun x : string * list Parser.diag => length x.2)).
Qed.

(** ** The monad of the script *)

Section Monad.
Import IO.

Lemma bind_inr {A B} (m : M A) (f : A -> M B) w b w' :
  bind m f w = (inr b, w') ->
  exists a w1, m w = (inr a, w1) /\ f a w1 = (inr b, w').
Proof.
  unfold bind. destruct (m w) as [[e|a] w1]; [discriminate|]. eauto.
Qed.

Lemma bind_eq {A B} (m : M A) (f : A -> M B) w a w1 :
  m w = (inr a, w1) -> bind m f w = f a w1.
Proof. unfold bind. by intros ->. Qed.

End Monad.

(** ** A checker that cannot be started *)

(** C3, as the code has it.  When the checker cannot be started, [run_tsc]
    catches the exception, prints it and returns no line; [main] then
    reports zero errors in zero files, prints that no error was found and
    returns 0, and no file is read or written. *)
Theorem checker_failure_reports_no_errors
    (tsc : Script.checker) (w : IO.world) (e : IO.exn) :
  tsc (IO.fs w) = IO.Raised e ->
  Script.main tsc w
  = (inr 0%Z,
     IO.World (IO.fs w) (IO.io_log w)
       (IO.stdout w
        ++ [IO.OutRunning; IO.OutTscError e; IO.OutFound 0 0; IO.OutNoErrors])).
Proof.
  intros Htsc. unfold Script.main, IO.bind, Script.run_tsc; simpl.
  rewrite Htsc. simpl. by rewrite <- !app_assoc.
Qed.

Lemma checker_failure_reports_no_errors_witness :
  Script.main checker_missing (world_of {[ "a.ts" := file ".insert(x)" ]})
  = (inr 0%Z,
     IO.World {[ "a.ts" := file ".insert(x)" ]} []
       [IO.OutRunning; IO.OutTscError (IO.OSError "npx"); IO.OutFound 0 0;
        IO.OutNoErrors]).
Proof.
  exact (checker_failure_reports_no_errors checker_missing
           (world_of {[ "a.ts" := file ".insert(x)" ]}) (IO.OSError "npx")
           eq_refl).
Defined.

(** C3, as the claim states it, fails: with a checker that cannot be
    started the run does not fail.  It ends normally with exit status 0,
    after it has printed that no error was found, as a run on a project
    without errors does. *)
Lemma checker_failure_is_not_fatal :
  checker_missing (IO.fs (world_of ∅)) = IO.Raised (IO.OSError "npx")
  /\ Script.run checker_missing (world_of ∅)
     = (0%Z,
        IO.World ∅ []
          [IO.OutRunning; IO.OutTscError (IO.OSError "npx"); IO.OutFound 0 0;
           IO.OutNoErrors])
  /\ Script.run (checker_printing "") (world_of ∅)
     = (0%Z, IO.World ∅ [] [IO.OutRunning; IO.OutFound 0 0; IO.OutNoErrors]).
Proof. repeat split; reflexivity. Qed.

(** ** Reading and writing the files *)

Section Files.
Import IO Script Rules.

Lemma fix_file_writable subs p w text :
  fs w !! p = Some (FNode text true true) ->
  fix_file subs p w
  = (inr (as_rule subs text).2,
     World (<[p := FNode (subs text).1 true true]> (fs w))
       (io_log w ++ [EvRead p] ++ writes p text (subs text).1) (stdout w)).
Proof.
  intros Hp. unfold fix_file, bind, read_text, as_rule, writes. rewrite Hp. simpl.
  destruct (subs text) as [content fixes]. simpl.
  case_bool_decide as Hc; simpl.
  - unfold write_text. simpl. rewrite Hp. simpl. by rewrite <- app_assoc.
  - subst content. unfold ret.
    by rewrite insert_id.
Qed.

Lemma fix_file_read_only subs p w text :
  fs w !! p = Some (FNode text true false) ->
  fix_file subs p w
  = (if bool_decide ((subs text).1 <> text) then inl (OSError p) else inr 0,
     World (fs w) (io_log w ++ [EvRead p]) (stdout w)).
Proof.
  intros Hp. unfold fix_file, bind, read_text. rewrite Hp. simpl.
  destruct (subs text) as [content fixes]. simpl.
  case_bool_decide as Hc; simpl; [|done].
  unfold write_text. simpl. by rewrite Hp.
Qed.

Lemma patch_file_read_only p w text :
  fs w !! p = Some (FNode text true false) ->
  patched_text text <> text ->
  exists log,
    patch_file p w = (inl (OSError p), World (fs w) (io_log w ++ log) (stdout w))
    /\ Forall (fun ev => ev = EvRead p) log.
Proof.
  intros Hp Hpatched. unfold patched_text in Hpatched.
  unfold patch_file, fix_supabase_never_types, fix_any_to_never_errors,
    fix_error_handling, bind.
  rewrite (fix_file_read_only _ p w text Hp).
  case_bool_decide as H1.
  { exists [EvRead p]. split; [done|by repeat constructor]. }
  rewrite H1 in Hpatched.
  rewrite (fix_file_read_only _ p (World _ _ _) text Hp).
  case_bool_decide as H2.
  { exists [EvRead p; EvRead p]. simpl. rewrite <- app_assoc.
    split; [done|by repeat constructor]. }
  rewrite H2 in Hpatched.
  rewrite (fix_file_read_only _ p (World _ _ _) text Hp).
  rewrite bool_decide_eq_true_2 by done.
  exists [EvRead p; EvRead p; EvRead p]. simpl. rewrite <- !app_assoc.
  split; [done|by repeat constructor].
Qed.

Lemma patch_loop_app pre rest total_fixes files_modified w :
  patch_loop (pre ++ rest) total_fixes files_modified w
  = match patch_loop pre total_fixes files_modified w with
    | (inr (t, m), w1) => patch_loop rest t m w1
    | (inl e, w1) => (inl e, w1)
    end.
Proof.
  revert total_fixes files_modified w.
  induction pre as [|[file_path errs] pre IH]; intros t m w; simpl; [done|].
  unfold bind, path_exists. simpl.
  destruct (bool_decide (is_Some (fs w !! file_path))); simpl; [|apply IH].
  destruct (patch_file file_path w) as [[e|fixes] w1]; [done|].
  destruct (0 <? fixes); simpl; apply IH.
Qed.

End Files.

(** C6, as the code has it.  Each of the three fix functions reads the file
    once and writes it at most once: exactly once when the text it computed
    differs from the text it read, and not at all otherwise.  So in one pass
    a file that can be read and written is read three times and written
    between zero and three times, and its final text is that of the three
    rules applied in turn. *)
Theorem patch_file_reads_and_writes (p : string) (w : IO.world) (text : string) :
  IO.fs w !! p = Some (IO.FNode text true true) ->
  let c1 := (Rules.supabase_never_types_subs text).1 in
  let c2 := (Rules.any_to_never_subs c1).1 in
  let c3 := (Rules.error_handling_subs c2).1 in
  Script.patch_file p w
  = (inr ((Rules.supabase_never_types_rule text).2
          + (Rules.any_to_never_rule c1).2
          + (Rules.error_handling_rule c2).2),
     IO.World (<[p := IO.FNode c3 true true]> (IO.fs w))
       (IO.io_log w
        ++ [IO.EvRead p] ++ writes p text c1
        ++ [IO.EvRead p] ++ writes p c1 c2
        ++ [IO.EvRead p] ++ writes p c2 c3)
       (IO.stdout w)).
Proof.
  intros Hp. cbv zeta.
  unfold Script.patch_file, Script.fix_supabase_never_types,
    Script.fix_any_to_never_errors, Script.fix_error_handling, IO.bind.
  rewrite (fix_file_writable _ p w text Hp).
  rewrite (fix_file_writable _ p (IO.World _ _ _) _ (lookup_insert_eq _ _ _)).
  rewrite (fix_file_writable _ p (IO.World _ _ _) _ (lookup_insert_eq _ _ _)).
  simpl. rewrite !insert_insert_eq. unfold IO.ret.
  do 2 f_equal. by rewrite <- !app_assoc.
Qed.

Lemma patch_file_reads_and_writes_witness :
  (Script.patch_file "a.ts" (world_of one_file)).2
  = IO.World {[ "a.ts" := file ".insert(x as any).eq(\'id\', y as any)" ]}
      [ IO.EvRead "a.ts"; IO.EvWrite "a.ts" ".insert(x as any).eq('id', y)";
        IO.EvRead "a.ts";
        IO.EvWrite "a.ts" ".insert(x as any).eq(\'id\', y as any)";
        IO.EvRead "a.ts" ]
      [].
Proof.
  rewrite (patch_file_reads_and_writes "a.ts" (world_of one_file)
             ".insert(x).eq('id', y)" eq_refl).
  vm_compute. reflexivity.
Defined.

(** C6, as the claim states it, fails: in one run a file with a call for
    the first fix function and a call for the second is read three times
    and written twice. *)
Lemma file_read_thrice_written_twice :
  reads_of "a.ts"
    (IO.io_log (Script.main one_file_checker (world_of one_file)).2) = 3
  /\ writes_of "a.ts"
       (IO.io_log (Script.main one_file_checker (world_of one_file)).2) = 2
  /\ IO.io_log (Script.main one_file_checker (world_of one_file)).2
     = [ IO.EvRead "a.ts"; IO.EvWrite "a.ts" ".insert(x as any).eq('id', y)";
         IO.EvRead "a.ts";
         IO.EvWrite "a.ts" ".insert(x as any).eq(\'id\', y as any)";
         IO.EvRead "a.ts" ].
Proof. vm_compute. repeat split; reflexivity. Qed.

(** ** A file that cannot be written *)

(** C4, as the code has it.  Nothing catches a failure to write a file:
    when the file [A] of the ranking cannot be written and a rule changes
    its text, the exception leaves the loop at [A].  The loop ends in the
    state reached after the files ranked before [A], with only reads of [A]
    added to the log: nothing is printed, and no file ranked after [A] is
    read, patched or counted. *)
Theorem write_failure_aborts_loop
    (pre post : Parser.errors) (A : string) (errs : list Parser.diag)
    (total_fixes files_modified t m : nat) (w w1 : IO.world) (text : string) :
  Script.patch_loop pre total_fixes files_modified w = (inr (t, m), w1) ->
  IO.fs w1 !! A = Some (IO.FNode text true false) ->
  patched_text text <> text ->
  exists log,
    Script.patch_loop (pre ++ (A, errs) :: post) total_fixes files_modified w
    = (inl (IO.OSError A),
       IO.World (IO.fs w1) (IO.io_log w1 ++ log) (IO.stdout w1))
    /\ Forall (fun ev => ev = IO.EvRead A) log.
Proof.
  intros Hpre HA Hpatched.
  destruct (patch_file_read_only A w1 text HA Hpatched) as (log & Hrun & Hlog).
  exists log. split; [|done].
  rewrite patch_loop_app, Hpre. simpl.
  unfold IO.bind at 1. unfold IO.path_exists.
  rewrite bool_decide_eq_true_2 by (rewrite HA; eauto). simpl.
  unfold IO.bind at 1. by rewrite Hrun.
Qed.

Lemma write_failure_aborts_loop_witness :
  exists log,
    Script.patch_loop ([] ++ ("a.ts", []) :: [("b.ts", [])]) 0 0
      (world_of (two_files (read_only ".insert(x)")))
    = (inl (IO.OSError "a.ts"),
       IO.World (two_files (read_only ".insert(x)")) ([] ++ log) [])
    /\ Forall (fun ev => ev = IO.EvRead "a.ts") log.
Proof.
  apply (write_failure_aborts_loop [] [("b.ts", [])] "a.ts" [] 0 0 0 0
           (world_of (two_files (read_only ".insert(x)")))
           (world_of (two_files (read_only ".insert(x)"))) ".insert(x)").
  - reflexivity.
  - vm_compute. reflexivity.
  - vm_compute. discriminate.
Defined.

(** C4, as the claim states it, fails.  The checker ranks [a.ts] before
    [b.ts], and each file holds a call the rules rewrite.  When [a.ts] can
    be written both files are patched and counted.  When [a.ts] cannot be
    written the run ends with the exception: the failure is neither logged
    nor counted, no summary is printed, and [b.ts] is never read and keeps
    its text. *)
Lemma write_failure_stops_the_batch :
  Script.main two_files_checker (world_of (two_files (file ".insert(x)")))
  = (inr 0%Z,
     IO.World
       {[ "a.ts" := file ".insert(x as any)"; "b.ts" := file ".insert(y as any)" ]}
       [ IO.EvRead "a.ts"; IO.EvWrite "a.ts" ".insert(x as any)";
         IO.EvRead "a.ts"; IO.EvRead "a.ts";
         IO.EvRead "b.ts"; IO.EvWrite "b.ts" ".insert(y as any)";
         IO.EvRead "b.ts"; IO.EvRead "b.ts" ]
       [ IO.OutRunning; IO.OutFound 3 2; IO.OutTopHeader; IO.OutTop 2 "a.ts";
         IO.OutTop 1 "b.ts"; IO.OutBlank; IO.OutApplying;
         IO.OutFileFixed "a.ts" 1; IO.OutFileFixed "b.ts" 1; IO.OutApplied 2 2;
         IO.OutRerunning; IO.OutResults; IO.OutBefore 3; IO.OutAfter 3;
         IO.OutFixed 0; IO.OutFilesModified 2 ])
  /\ Script.main two_files_checker (world_of (two_files (read_only ".insert(x)")))
     = (inl (IO.OSError "a.ts"),
        IO.World (two_files (read_only ".insert(x)"))
          [ IO.EvRead "a.ts" ]
          [ IO.OutRunning; IO.OutFound 3 2; IO.OutTopHeader; IO.OutTop 2 "a.ts";
            IO.OutTop 1 "b.ts"; IO.OutBlank; IO.OutApplying ])
  /\ two_files (read_only ".insert(x)") !! "b.ts" = Some (file ".insert(y)").
Proof. repeat split; vm_compute; reflexivity. Qed.

(** ** The exit status *)

Section Ends.
Import IO Script.

Lemma fix_file_returns subs p w :
  accessible (fs w) -> is_Some (fs w !! p) ->
  exists n w',
    fix_file subs p w = (inr n, w')
    /\ accessible (fs w') /\ is_Some (fs w' !! p).
Proof.
  intros Hacc [[text r wr] Hf]. destruct (Hacc p _ Hf) as [Hr Hw].
  simpl in Hr, Hw. subst r wr.
  rewrite (fix_file_writable _ _ _ _ Hf). eexists _, _. split; [done|].
  simpl. split.
  - by apply map_Forall_insert_2.
  - rewrite lookup_insert_eq. eauto.
Qed.

Lemma patch_file_returns p w :
  accessible (fs w) -> is_Some (fs w !! p) ->
  exists n w', patch_file p w = (inr n, w') /\ accessible (fs w').
Proof.
  intros Hacc Hp. unfold patch_file, fix_supabase_never_types,
    fix_any_to_never_errors, fix_error_handling.
  destruct (fix_file_returns Rules.supabase_never_types_subs p w Hacc Hp)
    as (n1 & w1 & E1 & Hacc1 & Hp1).
  destruct (fix_file_returns Rules.any_to_never_subs p w1 Hacc1 Hp1)
    as (n2 & w2 & E2 & Hacc2 & Hp2).
  destruct (fix_file_returns Rules.error_handling_subs p w2 Hacc2 Hp2)
    as (n3 & w3 & E3 & Hacc3 & _).
  rewrite (bind_eq _ _ _ _ _ E1), (bind_eq _ _ _ _ _ E2), (bind_eq _ _ _ _ _ E3).
  by eexists _, _.
Qed.

Lemma patch_loop_returns files total_fixes files_modified w :
  accessible (fs w) ->
  exists totals w',
    patch_loop files total_fixes files_modified w = (inr totals, w')
    /\ accessible (fs w').
Proof.
  revert total_fixes files_modified w.
  induction files as [|[file_path errs] files IH]; intros t m w Hacc; simpl.
  { by eexists _, _. }
  unfold bind at 1, path_exists. case_bool_decide as Hp; simpl; [|by apply IH].
  destruct (patch_file_returns file_path w Hacc Hp) as (n & w1 & E & Hacc1).
  rewrite (bind_eq _ _ _ _ _ E).
  destruct (0 <? n); [|by apply IH].
  unfold bind, print. by apply IH.
Qed.

Lemma print_all_returns os w :
  exists w', print_all os w = (inr tt, w') /\ fs w' = fs w.
Proof.
  revert w. induction os as [|o os IH]; intros w; simpl.
  { by eexists. }
  unfold bind, print.
  destruct (IH (World (fs w) (io_log w) (stdout w ++ [o]))) as (w' & E & Hfs).
  eauto.
Qed.

Lemma run_tsc_returns tsc w :
  exists error_lines w',
    run_tsc tsc w = (inr error_lines, w') /\ fs w' = fs w.
Proof. unfold run_tsc. destruct (tsc (fs w)); by eexists _, _. Qed.

(** When every file can be read and written, nothing raises: [main] runs
    to its end. *)
Lemma main_reaches_its_end tsc w :
  accessible (fs w) -> exists w', main tsc w = (inr 0%Z, w').
Proof.
  intros Hacc. unfold main.
  unfold bind at 1, print at 1.
  destruct (run_tsc_returns tsc
              (World (fs w) (io_log w) (stdout w ++ [OutRunning])))
    as (ls & w1 & E1 & Hfs1).
  rewrite (bind_eq _ _ _ _ _ E1).
  unfold bind at 1, print at 1.
  case_bool_decide.
  { by eexists. }
  unfold bind at 1, print at 1.
  match goal with |- context [bind (print_all ?os) _ ?w0] =>
    destruct (print_all_returns os w0) as (w2 & E2 & Hfs2) end.
  rewrite (bind_eq _ _ _ _ _ E2).
  unfold bind at 1, print at 1. unfold bind at 1, print at 1.
  match goal with |- context [bind (patch_loop ?fl 0 0) _ ?w0] =>
    destruct (patch_loop_returns fl 0 0 w0) as ([t m] & w3 & E3 & Hacc3) end.
  { simpl. rewrite Hfs2. simpl. by rewrite Hfs1. }
  rewrite (bind_eq _ _ _ _ _ E3).
  unfold bind at 1, print at 1. unfold bind at 1, print at 1.
  match goal with |- context [bind (run_tsc tsc) _ ?w0] =>
    destruct (run_tsc_returns tsc w0) as (ls' & w4 & E4 & _) end.
  rewrite (bind_eq _ _ _ _ _ E4).
  by eexists.
Qed.

Lemma run_of_main tsc w status w' :
  main tsc w = (inr status, w') -> run tsc w = (status, w').
Proof. unfold run. by intros ->. Qed.

End Ends.

(** C10.  Every run that reaches the end of [main] returns 0, and its exit
    status is 0, whatever the checker printed and whatever was patched.
    The runs in which every file can be read and written reach the end of
    [main], and so do the runs in which the checker could not be started. *)
Theorem main_returns_zero (tsc : Script.checker) (w : IO.world) :
  (forall status w',
      Script.main tsc w = (inr status, w') ->
      status = 0%Z /\ Script.run tsc w = (0%Z, w'))
  /\ (accessible (IO.fs w) ->
      exists w',
        Script.main tsc w = (inr 0%Z, w') /\ Script.run tsc w = (0%Z, w'))
  /\ (forall e,
        tsc (IO.fs w) = IO.Raised e ->
        exists w',
          Script.main tsc w = (inr 0%Z, w') /\ Script.run tsc w = (0%Z, w')).
Proof.
  split; [|split].
  - intros status w' Hmain.
    assert (status = 0%Z) as ->; [|by rewrite (run_of_main _ _ _ _ Hmain)].
    clear -Hmain. rename Hmain into H. unfold Script.main in H.
    apply bind_inr in H as (_ & w1 & _ & H).
    apply bind_inr in H as (error_lines & w2 & _ & H).
    apply bind_inr in H as (_ & w3 & _ & H).
    case_bool_decide.
    + apply bind_inr in H as (_ & w4 & _ & H).
      unfold IO.ret in H. congruence.
    + do 4 (apply bind_inr in H as (? & ? & _ & H)).
      apply bind_inr in H as ([total_fixes files_modified] & w8 & _ & H).
      do 8 (apply bind_inr in H as (? & ? & _ & H)).
      unfold IO.ret in H. congruence.
  - intros Hacc. destruct (main_reaches_its_end tsc w Hacc) as (w' & Hmain).
    exists w'. by rewrite (run_of_main _ _ _ _ Hmain).
  - intros e Htsc. eexists. split; [|apply run_of_main].
    all: unfold Script.main, IO.bind, Script.run_tsc; simpl;
      rewrite Htsc; simpl; reflexivity.
Qed.

Lemma main_returns_zero_witness :
  accessible one_file
  /\ exists w',
      Script.main one_file_checker (world_of one_file) = (inr 0%Z, w')
      /\ Script.run one_file_checker (world_of one_file) = (0%Z, w').
Proof.
  assert (H : accessible one_file).
  { apply map_Forall_singleton. split; reflexivity. }
  split; [exact H|].
  exact (proj1 (proj2 (main_returns_zero one_file_checker (world_of one_file)))
           H).
Defined.

(** ** The dictionary of diagnostics *)

Section Dict.
Import Parser.

Lemma dict_get_append d k v f :
  dict_get (dict_append d k v) f
  = if String.eqb k f then Some (default [] (dict_get d f) ++ [v])
    else dict_get d f.
Proof.
  induction d as [|[k' vs] d IH]; cbn [dict_get dict_append].
  - by destruct (String.eqb k f).
  - destruct (String.eqb_spec k' k) as [->|Hk]; cbn [dict_get].
    + by destruct (String.eqb k f).
    + destruct (String.eqb_spec k' f) as [->|Hf]; [|exact IH].
      by rewrite (proj2 (String.eqb_neq k f)) by congruence.
Qed.

Lemma dict_get_fold lines d f :
  dict_get (fold_left parse_step lines d) f
  = match entries_of f lines with
    | [] => dict_get d f
    | ds => Some (default [] (dict_get d f) ++ ds)
    end.
Proof.
  revert d. induction lines as [|ln lines IH]; intros d; [done|].
  cbn [fold_left]. rewrite IH. unfold entries_of, parse_step.
  cbn [diagnostics].
  destruct (parse_line ln) as [[g v]|]; [|done].
  rewrite dict_get_append. cbn [List.filter fst].
  destruct (String.eqb g f); [|done].
  cbn [fmap list_fmap snd default].
  destruct ((List.filter _ (diagnostics lines)).*2) as [|e es]; simpl; [done|].
  by rewrite <- app_assoc.
Qed.

Lemma dict_append_keys d k v :
  (dict_append d k v).*1 = if bool_decide (k ∈ d.*1) then d.*1 else d.*1 ++ [k].
Proof.
  induction d as [|[k' vs] d IH]; cbn [dict_append fmap list_fmap fst].
  - case_bool_decide as Hin; [|done]. by apply elem_of_nil in Hin.
  - destruct (String.eqb_spec k' k) as [->|Hk]; cbn [fmap list_fmap fst].
    + by rewrite bool_decide_eq_true_2 by (apply elem_of_cons; by left).
    + fold (fmap (M:=list) (@fst string (list diag)) d).
      fold (fmap (M:=list) (@fst string (list diag)) (dict_append d k v)).
      rewrite IH. case_bool_decide as Hd; case_bool_decide as Hc; try done.
      * exfalso. apply Hc. by apply elem_of_cons; right.
      * exfalso. apply elem_of_cons in Hc as [?|?]; congruence.
Qed.

Lemma dict_append_NoDup d k v : NoDup d.*1 -> NoDup (dict_append d k v).*1.
Proof.
  intros Hd. rewrite dict_append_keys. case_bool_decide as Hin; [done|].
  apply NoDup_app. split; [done|]. split; [|apply NoDup_singleton].
  intros x Hx ->%list_elem_of_singleton. done.
Qed.

Lemma dict_append_nonempty d k v :
  Forall (fun kv => kv.2 <> []) d ->
  Forall (fun kv => kv.2 <> []) (dict_append d k v).
Proof.
  induction 1 as [|[k' vs] d Hkv Hd IH]; simpl.
  - by repeat constructor.
  - destruct (String.eqb k' k); constructor; simpl; try done.
    by destruct vs.
Qed.

Lemma parse_fold_keys lines d :
  NoDup d.*1 -> Forall (fun kv => kv.2 <> []) d ->
  NoDup (fold_left parse_step lines d).*1
  /\ Forall (fun kv => kv.2 <> []) (fold_left parse_step lines d)
  /\ d.*1 `prefix_of` (fold_left parse_step lines d).*1.
Proof.
  revert d. induction lines as [|ln lines IH]; intros d Hd Hne; [done|].
  cbn [fold_left].
  assert (NoDup (parse_step d ln).*1
          /\ Forall (fun kv => kv.2 <> []) (parse_step d ln)
          /\ d.*1 `prefix_of` (parse_step d ln).*1) as (H1 & H2 & H3).
  { unfold parse_step. destruct (parse_line ln) as [[f v]|]; [|done].
    split; [by apply dict_append_NoDup|]. split; [by apply dict_append_nonempty|].
    rewrite dict_append_keys. case_bool_decide; [done|]. by apply prefix_app_r. }
  destruct (IH _ H1 H2) as (? & ? & ?). split; [done|]. split; [done|].
  by etrans.
Qed.

Lemma parse_errors_app l1 l2 :
  parse_errors (l1 ++ l2) = fold_left parse_step l2 (parse_errors l1).
Proof. apply fold_left_app. Qed.

Lemma count_errors_fold lines d :
  count_errors (fold_left parse_step lines d)
  = count_errors d + length (diagnostics lines).
Proof.
  revert d. induction lines as [|ln lines IH]; intros d; simpl; [lia|].
  rewrite IH. unfold parse_step.
  destruct (parse_line ln) as [[f v]|]; [|done].
  rewrite dict_append_count. simpl. lia.
Qed.

Lemma count_errors_groups d :
  Forall (fun kv => kv.2 <> []) d -> length d <= count_errors d.
Proof.
  induction 1 as [|[k vs] d Hkv Hd IH]; simpl; [lia|].
  destruct vs; simpl in *; [done|lia].
Qed.

End Dict.

(** X1.  Looking a file up in the dictionary that [parse_errors] builds
    gives the diagnostics of the lines that name this file, in the order of
    the lines; a file that no line names is no key. *)
Theorem parse_errors_lookup (lines : list string) (file_path : string) :
  dict_get (Parser.parse_errors lines) file_path
  = match entries_of file_path lines with
    | [] => None
    | ds => Some ds
    end.
Proof.
  unfold Parser.parse_errors. rewrite dict_get_fold. simpl.
  by destruct (entries_of file_path lines).
Qed.

(** X2.  The keys of the dictionary are distinct, no key has an empty list,
    and more lines leave the keys found so far where they are: a file
    keeps the place it got when it was first seen. *)
Theorem parse_errors_keys (lines more : list string) :
  NoDup (Parser.parse_errors lines).*1
  /\ Forall (fun kv => kv.2 <> []) (Parser.parse_errors lines)
  /\ (Parser.parse_errors lines).*1
       `prefix_of` (Parser.parse_errors (lines ++ more)).*1.
Proof.
  destruct (parse_fold_keys lines [] (NoDup_nil_2) (Forall_nil_2 _)) as (H1 & H2 & _).
  split; [done|]. split; [done|].
  rewrite parse_errors_app.
  by destruct (parse_fold_keys more _ H1 H2) as (_ & _ & ?).
Qed.

(** X3.  The total that [main] prints is the number of lines that are
    diagnostics.  It is at least the number of files and at most the number
    of lines, and it is 0 exactly when the dictionary is empty. *)
Theorem count_errors_parse_errors (lines : list string) :
  Parser.count_errors (Parser.parse_errors lines) = length (diagnostics lines)
  /\ length (Parser.parse_errors lines)
     <= Parser.count_errors (Parser.parse_errors lines) <= length lines
  /\ (Parser.parse_errors lines = []
      <-> Parser.count_errors (Parser.parse_errors lines) = 0).
Proof.
  assert (Parser.count_errors (Parser.parse_errors lines)
          = length (diagnostics lines)) as Hcount.
  { unfold Parser.parse_errors. by rewrite count_errors_fold. }
  destruct (parse_fold_keys lines [] (NoDup_nil_2) (Forall_nil_2 _)) as (_ & Hne & _).
  fold (Parser.parse_errors lines) in Hne.
  pose proof (count_errors_groups _ Hne) as Hlen.
  split; [done|]. split; [split; [done|]|].
  - rewrite Hcount. clear. induction lines as [|ln lines IH]; simpl; [lia|].
    destruct (Parser.parse_line ln); simpl; lia.
  - split; [by intros ->|]. intros H0.
    destruct (Parser.parse_errors lines); [done|cbn [length] in Hlen; lia].
Qed.

(** ** The lines of the checker *)

Section Lines.

Lemma split_nl_cons s : exists ln lines, Py.split_nl s = ln :: lines.
Proof.
  induction s as [|c s (ln & lines & IH)]; simpl; [by eexists _, _|].
  destruct (Ascii.eqb c Py.nl); [by eexists _, _|].
  rewrite IH. by eexists _, _.
Qed.

Lemma join_nl_cons ln ln' lines :
  join_nl (ln :: ln' :: lines) = ln +:+ Py.chr Py.nl +:+ join_nl (ln' :: lines).
Proof. done. Qed.

Lemma join_split_nl s : join_nl (Py.split_nl s) = s.
Proof.
  induction s as [|c s IH]; [done|]. cbn [Py.split_nl].
  destruct (split_nl_cons s) as (ln & lines & Hs). rewrite Hs in *.
  destruct (Ascii.eqb_spec c Py.nl) as [->|Hc].
  - rewrite join_nl_cons, IH. done.
  - destruct lines as [|ln' lines].
    + simpl in *. by rewrite IH.
    + rewrite join_nl_cons in *. rewrite <- IH. done.
Qed.

Lemma split_nl_free s : Forall (fun ln => free_of Py.nl ln = true) (Py.split_nl s).
Proof.
  induction s as [|c s IH]; simpl; [by repeat constructor|].
  destruct (Ascii.eqb_spec c Py.nl) as [->|Hc].
  - by constructor.
  - destruct (split_nl_cons s) as (ln & lines & Hs). rewrite Hs in *.
    inversion IH as [|? ? Hln Hlines]; subst. constructor; [|done].
    unfold free_of in *. cbn [all_in]. rewrite Hln, andb_true_r.
    apply negb_true_iff. rewrite Ascii.eqb_sym. by apply Ascii.eqb_neq.
Qed.

End Lines.

(** X4.  When the checker has run, [run_tsc] returns without touching the
    world.  It returns at least one line, no line holds a newline, and the
    lines joined by newlines are the standard error of the checker when it
    is not empty and its standard output otherwise. *)
Theorem run_tsc_lines (tsc : Script.checker) (w : IO.world) (out err : string) :
  tsc (IO.fs w) = IO.Completed out err ->
  exists lines,
    Script.run_tsc tsc w = (inr lines, w)
    /\ join_nl lines = checker_stream out err
    /\ Forall (fun ln => free_of Py.nl ln = true) lines
    /\ lines <> [].
Proof.
  intros Htsc. unfold Script.run_tsc. rewrite Htsc. unfold IO.ret.
  eexists. split; [done|]. unfold checker_stream.
  case_bool_decide.
  - split; [apply join_split_nl|]. split; [apply split_nl_free|].
    by destruct (split_nl_cons err) as (? & ? & ->).
  - split; [apply join_split_nl|]. split; [apply split_nl_free|].
    by destruct (split_nl_cons out) as (? & ? & ->).
Qed.

Lemma run_tsc_lines_witness :
  exists lines,
    Script.run_tsc two_files_checker (world_of ∅) = (inr lines, world_of ∅)
    /\ join_nl lines
       = checker_stream ""
           ("a.ts(1,1): error TS2345: first" +:+ Py.chr Py.nl
            +:+ "b.ts(1,1): error TS2345: second" +:+ Py.chr Py.nl
            +:+ "a.ts(2,1): error TS2345: third")
    /\ Forall (fun ln => free_of Py.nl ln = true) lines
    /\ lines <> [].
Proof. exact (run_tsc_lines two_files_checker (world_of ∅) _ _ eq_refl). Defined.

(** ** The files a run touches *)

Section Frame.
Import IO Script Parser.

Lemma only_touches_refl K w : only_touches K w w.
Proof.
  split.
  - intros p. by destruct (fs w !! p).
  - exists []. by rewrite app_nil_r.
Qed.

Lemma only_touches_trans K w0 w1 w2 :
  only_touches K w0 w1 -> only_touches K w1 w2 -> only_touches K w0 w2.
Proof.
  intros [Hf1 (l1 & Hl1 & HF1)] [Hf2 (l2 & Hl2 & HF2)]. split.
  - intros p. specialize (Hf1 p). specialize (Hf2 p).
    destruct (fs w0 !! p), (fs w1 !! p), (fs w2 !! p); try done.
    destruct Hf1 as (Hr1 & Hw1 & Ht1), Hf2 as (Hr2 & Hw2 & Ht2).
    split; [congruence|]. split; [congruence|].
    intros Hp. by rewrite Ht2, Ht1.
  - exists (l1 ++ l2). rewrite Hl2, Hl1, app_assoc. split; [done|].
    apply Forall_app. split; [done|].
    eapply Forall_impl; [exact HF2|]. intros ev [? Hsome]. split; [done|].
    specialize (Hf1 (path_of ev)).
    destruct (fs w0 !! path_of ev), (fs w1 !! path_of ev); done.
Qed.

Lemma only_touches_stdout K w0 w out :
  only_touches K w0 w ->
  only_touches K w0 (World (fs w) (io_log w) out).
Proof. intros [? ?]. by split. Qed.

Lemma fix_file_only_touches K subs p w :
  p ∈ K -> only_touches K w (fix_file subs p w).2.
Proof.
  intros Hp. unfold fix_file, bind, read_text.
  destruct (fs w !! p) as [[text r wr]|] eqn:Hf; [|apply only_touches_refl].
  simpl. destruct r; [|apply only_touches_refl].
  assert (only_touches K w (World (fs w) (io_log w ++ [EvRead p]) (stdout w)))
    as Hread.
  { split.
    - intros q. simpl. by destruct (fs w !! q).
    - exists [EvRead p]. split; [done|]. repeat constructor; simpl; [done|].
      by rewrite Hf. }
  destruct (subs text) as [content fixes].
  case_bool_decide; [|exact Hread].
  unfold write_text. simpl. rewrite Hf. simpl. destruct wr; [|exact Hread].
  simpl. split.
  - intros q. simpl. destruct (decide (q = p)) as [->|Hq].
    + rewrite Hf, lookup_insert_eq. simpl. by repeat split.
    + rewrite lookup_insert_ne by done. by destruct (fs w !! q).
  - exists [EvRead p; EvWrite p content]. simpl.
    split; [by rewrite <- app_assoc|].
    repeat constructor; simpl; try done; by rewrite Hf.
Qed.

Lemma bind_only_touches {A B} K (m : M A) (f : A -> M B) w :
  only_touches K w (m w).2 ->
  (forall a w1, m w = (inr a, w1) -> only_touches K w1 (f a w1).2) ->
  only_touches K w (bind m f w).2.
Proof.
  intros Hm Hf. unfold bind. destruct (m w) as [[e|a] w1]; [done|].
  eapply only_touches_trans; [exact Hm|by apply Hf].
Qed.

Lemma patch_file_only_touches K p w :
  p ∈ K -> only_touches K w (patch_file p w).2.
Proof.
  intros Hp. unfold patch_file.
  apply bind_only_touches; [by apply fix_file_only_touches|]. intros n1 w1 _.
  apply bind_only_touches; [by apply fix_file_only_touches|]. intros n2 w2 _.
  apply bind_only_touches; [by apply fix_file_only_touches|]. intros n3 w3 _.
  apply only_touches_refl.
Qed.

Lemma print_only_touches K o w : only_touches K w (print o w).2.
Proof. apply only_touches_stdout, only_touches_refl. Qed.

Lemma patch_loop_only_touches K files total_fixes files_modified w :
  files.*1 ⊆ K ->
  only_touches K w (patch_loop files total_fixes files_modified w).2.
Proof.
  revert total_fixes files_modified w.
  induction files as [|[file_path errs] files IH]; intros t m w HK.
  { apply only_touches_refl. }
  assert (file_path ∈ K) as Hp by (apply HK, elem_of_cons; by left).
  assert (files.*1 ⊆ K) as HK' by (intros q Hq; apply HK, elem_of_cons; by right).
  cbn [patch_loop].
  apply bind_only_touches; [apply only_touches_refl|]. intros present w1 _.
  destruct (negb present); [by apply IH|].
  apply bind_only_touches; [by apply patch_file_only_touches|]. intros fixes w2 _.
  destruct (0 <? fixes); [|by apply IH].
  apply bind_only_touches; [apply print_only_touches|]. intros _ w3 _.
  by apply IH.
Qed.

Lemma print_all_only_touches K os w : only_touches K w (print_all os w).2.
Proof.
  revert w. induction os as [|o os IH]; intros w; [apply only_touches_refl|].
  simpl. apply bind_only_touches; [apply print_only_touches|]. intros _ w1 _.
  apply IH.
Qed.

Lemma run_tsc_lines_eq tsc w :
  exists out, run_tsc tsc w
    = (inr (checker_lines tsc (fs w)), World (fs w) (io_log w) out).
Proof.
  unfold run_tsc, checker_lines, checker_stream.
  destruct (tsc (fs w)) as [e|out err].
  - by eexists.
  - exists (stdout w). unfold ret. destruct w. simpl. by case_bool_decide.
Qed.

Lemma run_tsc_only_touches K tsc w : only_touches K w (run_tsc tsc w).2.
Proof.
  destruct (run_tsc_lines_eq tsc w) as [out ->]. simpl.
  apply only_touches_stdout, only_touches_refl.
Qed.

Lemma sorted_files_keys errors_by_file :
  (sorted_files errors_by_file).*1 ⊆ errors_by_file.*1.
Proof.
  intros p Hp. unfold sorted_files in Hp.
  by rewrite (sorted_desc_perm _ errors_by_file) in Hp.
Qed.

End Frame.

(** X5.  Whatever the checker prints and however the run ends, [main]
    reads and writes only files that the first run of the checker reported
    and that existed before: it creates and removes no file, and every
    other file keeps its text. *)
Theorem main_only_touches_reported (tsc : Script.checker) (w : IO.world) :
  only_touches (reported tsc (IO.fs w)) w (Script.main tsc w).2.
Proof.
  unfold Script.main. set (K := reported tsc (IO.fs w)).
  apply bind_only_touches; [apply print_only_touches|]. intros u w1 Hpr.
  unfold IO.print in Hpr. injection Hpr as ? <-.
  apply bind_only_touches; [apply run_tsc_only_touches|]. intros lines w2 Hrun.
  destruct (run_tsc_lines_eq tsc
              (IO.World (IO.fs w) (IO.io_log w) (IO.stdout w ++ [IO.OutRunning])))
    as [out Hlines].
  rewrite Hlines in Hrun. injection Hrun as <- <-. cbn [IO.fs].
  fold (reported tsc (IO.fs w)). 
  apply bind_only_touches; [apply print_only_touches|]. intros _ w3 _.
  case_bool_decide.
  { apply bind_only_touches; [apply print_only_touches|]. intros _ w4 _.
    apply only_touches_refl. }
  apply bind_only_touches; [apply print_only_touches|]. intros _ w4 _.
  apply bind_only_touches; [apply print_all_only_touches|]. intros _ w5 _.
  apply bind_only_touches; [apply print_only_touches|]. intros _ w6 _.
  apply bind_only_touches; [apply print_only_touches|]. intros _ w7 _.
  apply bind_only_touches; [apply patch_loop_only_touches, sorted_files_keys|].
  intros [total_fixes files_modified] w8 _.
  apply bind_only_touches; [apply print_only_touches|]. intros _ w9 _.
  apply bind_only_touches; [apply print_only_touches|]. intros _ w10 _.
  apply bind_only_touches; [apply run_tsc_only_touches|]. intros lines' w11 _.
  do 5 (apply bind_only_touches; [apply print_only_touches|]; intros _ ? _).
  apply only_touches_refl.
Qed.

(** ** The totals of the patch loop *)

Section Totals.
Import IO Script Parser.

Lemma patch_file_accessible p w text :
  fs w !! p = Some (FNode text true true) ->
  exists log,
    patch_file p w
    = (inr (file_fixes text),
       World (<[p := FNode (patched_text text) true true]> (fs w))
         (io_log w ++ log) (stdout w)).
Proof.
  intros Hp.
  unfold patch_file, fix_supabase_never_types, fix_any_to_never_errors,
    fix_error_handling, bind.
  rewrite (fix_file_writable _ p w text Hp).
  rewrite (fix_file_writable _ p (World _ _ _) _ (lookup_insert_eq _ _ _)).
  rewrite (fix_file_writable _ p (World _ _ _) _ (lookup_insert_eq _ _ _)).
  simpl. rewrite !insert_insert_eq. unfold ret. eexists.
  rewrite <- !app_assoc. reflexivity.
Qed.

Lemma fixed_files_insert files fs0 p f :
  p ∉ files.*1 -> fixed_files files (<[p := f]> fs0) = fixed_files files fs0.
Proof.
  induction files as [|[q errs] files IH]; [done|].
  rewrite fmap_cons, not_elem_of_cons. intros [Hq Hp]. cbn [fixed_files].
  simpl in Hq. rewrite lookup_insert_ne by done. by rewrite IH.
Qed.

Lemma fixed_files_counts files w :
  accessible (fs w) ->
  Forall (fun pf => 0 < pf.2 /\ (patch_file pf.1 w).1 = inr pf.2)
    (fixed_files files (fs w)).
Proof.
  intros Hacc. induction files as [|[p errs] files IH]; cbn [fixed_files]; [done|].
  destruct (fs w !! p) as [[text r wr]|] eqn:Hp; [|done].
  destruct (Hacc p _ Hp) as [Hr Hw]. simpl in Hr, Hw. subst r wr.
  cbn [f_text]. destruct (0 <? file_fixes text) eqn:Hn; [|done].
  constructor; [|done]. cbn [fst snd]. split; [by apply Nat.ltb_lt|].
  destruct (patch_file_accessible p w text Hp) as [log ->]. done.
Qed.

Lemma fixed_files_sublist files fs0 :
  (fixed_files files fs0).*1 `sublist_of` files.*1.
Proof.
  induction files as [|[p errs] files IH]; cbn [fixed_files]; [done|].
  rewrite fmap_cons.
  destruct (fs0 !! p) as [f|]; [|by apply sublist_cons].
  destruct (0 <? _); [|by apply sublist_cons].
  rewrite fmap_cons. by apply sublist_skip.
Qed.

Lemma patch_loop_accessible files total_fixes files_modified w :
  NoDup files.*1 -> accessible (fs w) ->
  exists w',
    patch_loop files total_fixes files_modified w
    = (inr (total_fixes + sum_list (fixed_files files (fs w)).*2,
            files_modified + length (fixed_files files (fs w))), w')
    /\ stdout w'
       = stdout w
         ++ map (fun pf => OutFileFixed (Py.path_str pf.1) pf.2)
              (fixed_files files (fs w))
    /\ (forall p,
          fs w' !! p
          = if bool_decide (p ∈ files.*1) then patched <$> fs w !! p
            else fs w !! p).
Proof.
  revert total_fixes files_modified w.
  induction files as [|[file_path errs] files IH]; intros t m w Hnd Hacc.
  { exists w. cbn [patch_loop fixed_files]. simpl.
    rewrite !Nat.add_0_r, app_nil_r. repeat split; try done. }
  rewrite fmap_cons in Hnd. apply NoDup_cons in Hnd as [Hnew Hnd]. simpl in Hnew.
  cbn [patch_loop fixed_files]. unfold bind at 1, path_exists.
  destruct (fs w !! file_path) as [[text r wr]|] eqn:Hp.
  - destruct (Hacc _ _ Hp) as [Hr Hw]. simpl in Hr, Hw. subst r wr.
    rewrite bool_decide_eq_true_2 by eauto. cbn [negb f_text].
    destruct (patch_file_accessible file_path w text Hp) as [log E].
    rewrite (bind_eq _ _ _ _ _ E).
    assert (accessible (<[file_path := FNode (patched_text text) true true]> (fs w)))
      as Hacc1 by (by apply map_Forall_insert_2).
    destruct (0 <? file_fixes text) eqn:Hn.
    + unfold bind at 1, print. cbn [fs io_log stdout].
      destruct (IH (t + file_fixes text) (m + 1)
                  (World (<[file_path := FNode (patched_text text) true true]> (fs w))
                     (io_log w ++ log)
                     (stdout w ++ [OutFileFixed (Py.path_str file_path)
                                      (file_fixes text)]))
                  Hnd Hacc1) as (w' & El & Hout & Hfs).
      cbn [fs stdout] in El, Hout, Hfs.
      rewrite fixed_files_insert in El, Hout by done.
      exists w'. split; [|split].
      * rewrite El. rewrite fmap_cons. cbn [sum_list length snd].
        unfold id. do 3 f_equal; lia.
      * rewrite Hout, <- app_assoc. done.
      * intros p. rewrite Hfs, fmap_cons. cbn [fst].
        destruct (decide (p = file_path)) as [->|Hne].
        -- rewrite bool_decide_eq_false_2 by done.
           rewrite bool_decide_eq_true_2 by (apply elem_of_cons; auto).
           rewrite lookup_insert_eq, Hp. done.
        -- rewrite lookup_insert_ne by done.
           destruct (decide (p ∈ files.*1)) as [Hin|Hout'].
           ++ rewrite !bool_decide_eq_true_2; try done. apply elem_of_cons; auto.
           ++ rewrite !bool_decide_eq_false_2; try done.
              rewrite elem_of_cons. intros [?|?]; done.
    + destruct (IH t m
                  (World (<[file_path := FNode (patched_text text) true true]> (fs w))
                     (io_log w ++ log) (stdout w))
                  Hnd Hacc1) as (w' & El & Hout & Hfs).
      cbn [fs stdout] in El, Hout, Hfs.
      rewrite fixed_files_insert in El, Hout by done.
      exists w'. split; [done|]. split; [done|].
      intros p. rewrite Hfs, fmap_cons. cbn [fst].
      destruct (decide (p = file_path)) as [->|Hne].
      * rewrite bool_decide_eq_false_2 by done.
        rewrite bool_decide_eq_true_2 by (apply elem_of_cons; auto).
        rewrite lookup_insert_eq, Hp. done.
      * rewrite lookup_insert_ne by done.
        destruct (decide (p ∈ files.*1)) as [Hin|Hout'].
        -- rewrite !bool_decide_eq_true_2; try done. apply elem_of_cons; auto.
        -- rewrite !bool_decide_eq_false_2; try done.
           rewrite elem_of_cons. intros [?|?]; done.
  - rewrite bool_decide_eq_false_2 by (by intros [? ?]). cbn [negb].
    destruct (IH t m w Hnd Hacc) as (w' & El & Hout & Hfs).
    exists w'. split; [done|]. split; [done|].
    intros p. rewrite Hfs, fmap_cons. cbn [fst].
    destruct (decide (p = file_path)) as [->|Hne].
    + rewrite bool_decide_eq_false_2 by done.
      rewrite bool_decide_eq_true_2 by (apply elem_of_cons; auto).
      by rewrite Hp.
    + destruct (decide (p ∈ files.*1)) as [Hin|Hout'].
      * rewrite !bool_decide_eq_true_2; try done. apply elem_of_cons; auto.
      * rewrite !bool_decide_eq_false_2; try done.
        rewrite elem_of_cons. intros [?|?]; done.
Qed.

Lemma patch_loop_exists K files total_fixes files_modified w p :
  files.*1 ⊆ K ->
  is_Some (fs (patch_loop files total_fixes files_modified w).2 !! p)
  <-> is_Some (fs w !! p).
Proof.
  intros HK.
  destruct (patch_loop_only_touches K files total_fixes files_modified w HK)
    as [Hfs _].
  specialize (Hfs p).
  destruct (fs w !! p), (fs _ !! p); try done; split; eauto.
Qed.

End Totals.

(** X6.  On files that can all be read and written, and for a ranking
    whose paths are distinct as [Path] spells them, the patch loop runs to
    its end.  The count of a file is the sum of what the three fix
    functions return for it, which is what the three rules count on the
    text the file had before the loop, each on the text the one before
    left.  The loop prints one line for each file of the ranking that
    exists and has a positive count, in the order of the ranking, with the
    path as [Path] spells it and the count, and nothing else.  The number
    of files it reports as modified is the number of these lines and the
    total is the sum of their counts, so the number of files is at most the
    total.  Afterwards every file of the ranking that exists holds the text
    the three rules give, and every other file is as it was. *)
Theorem patch_loop_totals
    (files : Parser.errors) (total_fixes files_modified : nat) (w : IO.world) :
  NoDup (Py.path_str <$> files.*1) ->
  accessible (IO.fs w) ->
  let fixed := fixed_files files (IO.fs w) in
  exists w',
    Script.patch_loop files total_fixes files_modified w
    = (inr (total_fixes + sum_list fixed.*2, files_modified + length fixed),
       w')
    /\ IO.stdout w'
       = IO.stdout w
         ++ map (fun pf => IO.OutFileFixed (Py.path_str pf.1) pf.2) fixed
    /\ (forall p f,
          IO.fs w !! p = Some f ->
          (Script.patch_file p w).1 = inr (file_fixes (IO.f_text f)))
    /\ Forall (fun pf => 0 < pf.2) fixed
    /\ fixed.*1 `sublist_of` files.*1
    /\ length fixed <= sum_list fixed.*2
    /\ (forall p,
          IO.fs w' !! p
          = if bool_decide (p ∈ files.*1) then patched <$> IO.fs w !! p
            else IO.fs w !! p).
Proof.
  intros Hnd Hacc fixed. apply NoDup_fmap_1 in Hnd.
  destruct (patch_loop_accessible files total_fixes files_modified w Hnd Hacc)
    as (w' & El & Hout & Hfs).
  pose proof (fixed_files_counts files w Hacc) as Hcounts. fold fixed in Hcounts.
  exists w'. split; [done|]. split; [done|].
  split.
  { intros p [text r wr] Hp. destruct (Hacc p _ Hp) as [Hr Hw].
    simpl in Hr, Hw. subst r wr.
    by destruct (patch_file_accessible p w text Hp) as [log ->]. }
  split.
  { eapply Forall_impl; [exact Hcounts|]. by intros pf [? _]. }
  split; [apply fixed_files_sublist|]. split; [|done].
  clear -Hcounts. induction Hcounts as [|[p n] l [Hn _] _ IH]; [done|].
  rewrite fmap_cons. simpl in *. lia.
Qed.

Lemma patch_loop_totals_witness :
  let files := [("a.ts", @nil Parser.diag)] in
  let w := world_of one_file in
  let fixed := fixed_files files (IO.fs w) in
  fixed = [("a.ts", 2)]
  /\ exists w',
    Script.patch_loop files 0 0 w
    = (inr (0 + sum_list fixed.*2, 0 + length fixed), w')
    /\ IO.stdout w'
       = IO.stdout w
         ++ map (fun pf => IO.OutFileFixed (Py.path_str pf.1) pf.2) fixed
    /\ (forall p f,
          IO.fs w !! p = Some f ->
          (Script.patch_file p w).1 = inr (file_fixes (IO.f_text f)))
    /\ Forall (fun pf => 0 < pf.2) fixed
    /\ fixed.*1 `sublist_of` files.*1
    /\ length fixed <= sum_list fixed.*2
    /\ (forall p,
          IO.fs w' !! p
          = if bool_decide (p ∈ files.*1) then patched <$> IO.fs w !! p
            else IO.fs w !! p).
Proof.
  split; [vm_compute; reflexivity|].
  apply (patch_loop_totals [("a.ts", [])] 0 0 (world_of one_file)).
  - apply NoDup_singleton.
  - apply map_Forall_singleton. split; reflexivity.
Defined.

(** X7.  A reported file that does not exist is skipped: the loop does
    what it does without it, and the files ranked after it are patched. *)
Theorem missing_file_is_skipped
    (pre post : Parser.errors) (A : string) (errs : list Parser.diag)
    (total_fixes files_modified : nat) (w : IO.world) :
  IO.fs w !! A = None ->
  Script.patch_loop (pre ++ (A, errs) :: post) total_fixes files_modified w
  = Script.patch_loop (pre ++ post) total_fixes files_modified w.
Proof.
  intros HA. rewrite !patch_loop_app.
  pose proof (patch_loop_exists pre.*1 pre total_fixes files_modified w A
                ltac:(done)) as Hex.
  destruct (Script.patch_loop pre total_fixes files_modified w)
    as [[e|[t m]] w1]; [done|].
  simpl in Hex. cbn [Script.patch_loop]. unfold IO.bind at 1, IO.path_exists.
  rewrite bool_decide_eq_false_2; [done|].
  rewrite Hex, HA. by intros [? ?].
Qed.

Lemma missing_file_is_skipped_witness :
  Script.patch_loop ([] ++ ("gone.ts", []) :: [("a.ts", [])]) 0 0
    (world_of one_file)
  = Script.patch_loop ([] ++ [("a.ts", [])]) 0 0 (world_of one_file).
Proof.
  exact (missing_file_is_skipped [] [("a.ts", [])] "gone.ts" [] 0 0
           (world_of one_file) eq_refl).
Defined.

(** ** The report of a run *)

Section Report.
Import IO Script Parser.

Lemma print_eq o w :
  print o w = (inr tt, World (fs w) (io_log w) (stdout w ++ [o])).
Proof. done. Qed.

Lemma print_all_eq os w :
  print_all os w = (inr tt, World (fs w) (io_log w) (stdout w ++ os)).
Proof.
  revert w. induction os as [|o os IH]; intros w; simpl.
  - unfold ret. rewrite app_nil_r. by destruct w.
  - rewrite (bind_eq _ _ _ _ _ (print_eq o w)), IH. simpl.
    by rewrite <- app_assoc.
Qed.

Lemma run_tsc_eq tsc w :
  run_tsc tsc w
  = (inr (checker_lines tsc (fs w)),
     World (fs w) (io_log w) (stdout w ++ tsc_error tsc (fs w))).
Proof.
  unfold run_tsc, checker_lines, checker_stream, tsc_error.
  destruct (tsc (fs w)) as [e|out err]; [done|].
  unfold ret. rewrite app_nil_r. destruct w. simpl. by case_bool_decide.
Qed.

End Report.

(** X8.  What a run prints when the checker reports diagnostics, with
    no line or column of more than 4300 digits, every file can be read and
    written and the reported paths are distinct as [Path] spells them.  The
    run reaches the end of [main] and returns 0.
    It prints the total and the number of files, at most ten lines of the
    ranking, one line for each reported file that exists and for which the
    three fix functions count at least one fix, with that count, the
    summary with the sum of these counts and the number of these lines, and
    the results, in which the remaining errors are those the checker
    reports on the patched files and the number of fixed errors is the
    difference, which may be negative. *)
Theorem main_report (tsc : Script.checker) (w : IO.world) :
  let errors := Parser.parse_errors (checker_lines tsc (IO.fs w)) in
  let total := Parser.count_errors errors in
  let ranking := Parser.sorted_files errors in
  let fixed := fixed_files ranking (IO.fs w) in
  (forall files, forallb converts (checker_lines tsc files) = true) ->
  accessible (IO.fs w) ->
  NoDup (Py.path_str <$> ranking.*1) ->
  errors <> [] ->
  exists w',
    Script.main tsc w = (inr 0%Z, w')
    /\ (forall p,
          IO.fs w' !! p
          = if bool_decide (p ∈ ranking.*1) then patched <$> IO.fs w !! p
            else IO.fs w !! p)
    /\ let remaining :=
         Parser.count_errors
           (Parser.parse_errors (checker_lines tsc (IO.fs w'))) in
       IO.stdout w'
       = IO.stdout w
         ++ [IO.OutRunning; IO.OutFound total (length errors); IO.OutTopHeader]
         ++ map (fun x => IO.OutTop (length x.2) x.1) (take 10 ranking)
         ++ [IO.OutBlank; IO.OutApplying]
         ++ map (fun pf => IO.OutFileFixed (Py.path_str pf.1) pf.2) fixed
         ++ [IO.OutApplied (sum_list fixed.*2) (length fixed); IO.OutRerunning]
         ++ tsc_error tsc (IO.fs w')
         ++ [IO.OutResults; IO.OutBefore total; IO.OutAfter remaining;
             IO.OutFixed (Z.of_nat total - Z.of_nat remaining);
             IO.OutFilesModified (length fixed)].
Proof.
  intros errors total ranking fixed _ Hacc Hnd Hne. apply NoDup_fmap_1 in Hnd.
  unfold Script.main.
  rewrite (bind_eq _ _ _ _ _ (print_eq _ _)).
  rewrite (bind_eq _ _ _ _ _ (run_tsc_eq _ _)). cbn [IO.fs IO.io_log IO.stdout].
  fold errors. fold total.
  assert (tsc_error tsc (IO.fs w) = []) as Hok.
  { unfold tsc_error. subst errors. unfold checker_lines in Hne.
    by destruct (tsc (IO.fs w)). }
  rewrite Hok, app_nil_r.
  rewrite (bind_eq _ _ _ _ _ (print_eq _ _)).
  rewrite bool_decide_eq_false_2 by done.
  rewrite (bind_eq _ _ _ _ _ (print_eq _ _)).
  rewrite (bind_eq _ _ _ _ _ (print_all_eq _ _)).
  rewrite (bind_eq _ _ _ _ _ (print_eq _ _)).
  rewrite (bind_eq _ _ _ _ _ (print_eq _ _)).
  cbn [IO.fs IO.io_log IO.stdout]. fold ranking.
  match goal with |- context [IO.bind (Script.patch_loop ranking 0 0) _ ?w0] =>
    destruct (patch_loop_accessible ranking 0 0 w0 Hnd Hacc)
      as (w8 & El & Hout & Hfs) end.
  cbn [IO.fs IO.stdout] in El, Hout, Hfs. fold fixed in El, Hout.
  rewrite (bind_eq _ _ _ _ _ El). cbn [Nat.add].
  rewrite (bind_eq _ _ _ _ _ (print_eq _ _)).
  rewrite (bind_eq _ _ _ _ _ (print_eq _ _)).
  rewrite (bind_eq _ _ _ _ _ (run_tsc_eq _ _)).
  do 5 rewrite (bind_eq _ _ _ _ _ (print_eq _ _)).
  cbn [IO.fs IO.io_log IO.stdout]. unfold IO.ret.
  eexists. split; [reflexivity|]. cbn [IO.fs IO.stdout].
  split; [exact Hfs|].
  rewrite Hout. by rewrite <- !app_assoc.
Qed.

Lemma main_report_witness :
  let tsc := one_file_checker in
  let w := world_of one_file in
  let errors := Parser.parse_errors (checker_lines tsc (IO.fs w)) in
  let total := Parser.count_errors errors in
  let ranking := Parser.sorted_files errors in
  let fixed := fixed_files ranking (IO.fs w) in
  exists w',
    Script.main tsc w = (inr 0%Z, w')
    /\ (forall p,
          IO.fs w' !! p
          = if bool_decide (p ∈ ranking.*1) then patched <$> IO.fs w !! p
            else IO.fs w !! p)
    /\ let remaining :=
         Parser.count_errors
           (Parser.parse_errors (checker_lines tsc (IO.fs w'))) in
       IO.stdout w'
       = IO.stdout w
         ++ [IO.OutRunning; IO.OutFound total (length errors); IO.OutTopHeader]
         ++ map (fun x => IO.OutTop (length x.2) x.1) (take 10 ranking)
         ++ [IO.OutBlank; IO.OutApplying]
         ++ map (fun pf => IO.OutFileFixed (Py.path_str pf.1) pf.2) fixed
         ++ [IO.OutApplied (sum_list fixed.*2) (length fixed); IO.OutRerunning]
         ++ tsc_error tsc (IO.fs w')
         ++ [IO.OutResults; IO.OutBefore total; IO.OutAfter remaining;
             IO.OutFixed (Z.of_nat total - Z.of_nat remaining);
             IO.OutFilesModified (length fixed)].
Proof.
  apply (main_report one_file_checker (world_of one_file)).
  - intros files. vm_compute. reflexivity.
  - apply map_Forall_singleton. split; reflexivity.
  - vm_compute. apply NoDup_singleton.
  - vm_compute. discriminate.
Defined.

(** ** Counts and writes *)

Section Unchanged.
Import Re Rules.

Lemma take_drop n s : Py.take n s +:+ Py.drop n s = s.
Proof.
  revert s. induction n as [|n IH]; intros [|c s]; simpl; try done.
  by rewrite IH.
Qed.

Lemma take_length n s :
  Py.take (String.length (Py.take n s)) s = Py.take n s.
Proof.
  revert s. induction n as [|n IH]; intros [|c s]; simpl; try done.
  by rewrite IH.
Qed.

Lemma match_at_text r p s m :
  match_at r p s = Some m -> Py.take (String.length (m_text m)) s = m_text m.
Proof.
  unfold match_at. destruct (exec r (MState p s []) Some); [|done].
  intros [= <-]. simpl. apply take_length.
Qed.

Lemma sub_go_grows r (f : rmatch -> nat -> string * nat) (P : rmatch -> bool) :
  (forall m n, (f m n).2 = n + (if P m then 1 else 0)) ->
  forall s p skip acc, acc <= (sub_go r f s p skip acc).2.
Proof.
  intros Hf s p skip acc. rewrite (sub_go_counts r f P Hf). lia.
Qed.

(** [re.sub] returns the text when the replacement function has counted
    nothing: every match it visited was given back as it is. *)
Lemma sub_go_unchanged r (f : rmatch -> nat -> string * nat) (P : rmatch -> bool) :
  (forall m n, (f m n).2 = n + (if P m then 1 else 0)) ->
  (forall m n, P m = false -> (f m n).1 = m_text m) ->
  forall s p skip acc,
    (sub_go r f s p skip acc).2 = acc ->
    (sub_go r f s p skip acc).1 = Py.drop skip s.
Proof.
  intros Hf Hkeep. induction s as [|c s IH]; intros p skip acc.
  - destruct skip as [|k]; simpl; [|done].
    destruct (match_at r p "") as [m|] eqn:Hm; simpl; [|done].
    pose proof (Hf m acc) as Hc. pose proof (Hkeep m acc) as Hk.
    destruct (f m acc) as [out acc1]. simpl in *. intros ->.
    destruct (P m); [lia|]. rewrite Hk by done.
    apply match_at_text in Hm. rewrite <- Hm. by destruct (String.length _).
  - destruct skip as [|k]; simpl; [|apply IH].
    destruct (match_at r p (String c s)) as [m|] eqn:Hm.
    + pose proof (Hf m acc) as Hc. pose proof (Hkeep m acc) as Hk.
      apply match_at_text in Hm.
      destruct (f m acc) as [out acc1]. simpl in Hc, Hk.
      destruct (String.length (m_text m)) as [|k] eqn:Hlen.
      * pose proof (sub_go_grows r f P Hf s (S p) 0 acc1) as Hge.
        specialize (IH (S p) 0 acc1).
        destruct (sub_go r f s (S p) 0 acc1) as [tl acc2]. simpl in *.
        intros ->. destruct (P m); [lia|]. rewrite Hk by done.
        rewrite <- Hm. simpl. f_equal. apply IH. lia.
      * pose proof (sub_go_grows r f P Hf s (S p) k acc1) as Hge.
        specialize (IH (S p) k acc1).
        destruct (sub_go r f s (S p) k acc1) as [tl acc2]. simpl in *.
        intros ->. destruct (P m); [lia|]. rewrite Hk by done.
        rewrite <- Hm. simpl. f_equal. rewrite IH by lia. apply take_drop.
    + specialize (IH (S p) 0 acc).
      destruct (sub_go r f s (S p) 0 acc) as [tl acc1]. simpl in *.
      intros ->. f_equal. by apply IH.
Qed.

Lemma sub_with_unchanged r (f : rmatch -> nat -> string * nat) (P : rmatch -> bool) s acc :
  (forall m n, (f m n).2 = n + (if P m then 1 else 0)) ->
  (forall m n, P m = false -> (f m n).1 = m_text m) ->
  (sub_with r f s acc).2 = acc -> (sub_with r f s acc).1 = s.
Proof. intros Hf Hkeep. apply (sub_go_unchanged r f P Hf Hkeep s 0 0 acc). Qed.

Lemma add_type_assertion_keeps m n :
  counted1 m = false -> (add_type_assertion m n).1 = m_text m.
Proof.
  unfold add_type_assertion, counted1.
  by destruct (Py.contains (m_text m) " as ").
Qed.

Lemma fix_insert_update_keeps m n :
  counted2 m = false -> (fix_insert_update m n).1 = m_text m.
Proof.
  unfold fix_insert_update, counted2.
  destruct (Py.contains (fmt (group m 2)) " as "); [done|]. simpl.
  by intros ->.
Qed.

Lemma fix_catch_keeps m n :
  counted3 m = false -> (fix_catch m n).1 = m_text m.
Proof.
  unfold fix_catch, counted3.
  match goal with |- context [if ?b then _ else _] => destruct b end; done.
Qed.

Lemma supabase_never_types_zero content :
  (supabase_never_types_subs content).2 = 0 ->
  (supabase_never_types_subs content).1 = content.
Proof.
  unfold supabase_never_types_subs.
  pose proof (sub_go_grows pattern1 _ _ add_type_assertion_counts content 0 0 0) as H1.
  pose proof (sub_with_unchanged pattern1 _ _ content 0
                add_type_assertion_counts add_type_assertion_keeps) as U1.
  fold (sub_with pattern1 add_type_assertion content 0) in H1.
  destruct (sub_with pattern1 add_type_assertion content 0) as [c1 n1].
  pose proof (sub_go_grows pattern2 _ _ fix_insert_update_counts c1 0 0 n1) as H2.
  pose proof (sub_with_unchanged pattern2 _ _ c1 n1
                fix_insert_update_counts fix_insert_update_keeps) as U2.
  fold (sub_with pattern2 fix_insert_update c1 n1) in H2.
  destruct (sub_with pattern2 fix_insert_update c1 n1) as [c2 n2].
  simpl in *. intros ->. assert (n1 = 0) as -> by lia.
  rewrite U2 by done. by apply U1.
Qed.

Lemma error_handling_zero content :
  (error_handling_subs content).2 = 0 ->
  (error_handling_subs content).1 = content.
Proof.
  apply (sub_with_unchanged pattern _ _ content 0 fix_catch_counts fix_catch_keeps).
Qed.

Lemma any_to_never_loop_zero ps content fixes :
  fixes <= (any_to_never_loop ps content fixes).2
  /\ ((any_to_never_loop ps content fixes).2 = fixes ->
      (any_to_never_loop ps content fixes).1 = content).
Proof.
  revert content fixes. induction ps as [|[r t] ps IH]; intros content fixes.
  { by split. }
  cbn [any_to_never_loop]. case_bool_decide as Hc.
  - destruct (IH (sub r t content) (fixes + 1)) as [Hge _]. split; lia.
  - apply IH.
Qed.

Lemma any_to_never_zero content :
  (any_to_never_subs content).2 = 0 -> (any_to_never_subs content).1 = content.
Proof. apply any_to_never_loop_zero. Qed.

Lemma as_rule_zero subs content :
  ((subs content).2 = 0 -> (subs content).1 = content) ->
  (as_rule subs content).2 = 0 <-> (as_rule subs content).1 = content.
Proof.
  intros Hz. unfold as_rule. destruct (subs content) as [c n]. simpl in *.
  case_bool_decide as Hc; simpl.
  - split; [by intros ->%Hz|done].
  - done.
Qed.

End Unchanged.

Section Counted.
Import IO Script Rules.

Lemma writes_of_app p l1 l2 : writes_of p (l1 ++ l2) = writes_of p l1 + writes_of p l2.
Proof. unfold writes_of. by rewrite List.filter_app, length_app. Qed.

Lemma writes_of_read p : writes_of p [EvRead p] = 0.
Proof. done. Qed.

Lemma writes_of_writes p a b : writes_of p (writes p a b) = changed a b.
Proof.
  unfold writes, changed, writes_of. case_bool_decide; [|done].
  simpl. by rewrite bool_decide_eq_true_2.
Qed.

Lemma changed_rule subs a :
  ((subs a).2 = 0 -> (subs a).1 = a) ->
  changed a (subs a).1 = 0 <-> (as_rule subs a).2 = 0.
Proof.
  intros Hz. rewrite as_rule_zero by done. unfold as_rule, changed.
  destruct (subs a) as [c n]. simpl. case_bool_decide; simpl; [|done].
  split; [done|]. by intros.
Qed.

End Counted.

(** X9.  On a file that can be read and written, the count that the three
    fix functions return together is 0 exactly when none of them has
    written the file, and then the files are what they were: a file is
    reported as modified exactly when it was written. *)
Theorem patch_file_counts_writes (p : string) (w : IO.world) (text : string) :
  IO.fs w !! p = Some (IO.FNode text true true) ->
  exists fixes w',
    Script.patch_file p w = (inr fixes, w')
    /\ (fixes = 0 <-> writes_of p (IO.io_log w') = writes_of p (IO.io_log w))
    /\ (fixes = 0 -> IO.fs w' = IO.fs w).
Proof.
  intros Hp.
  unfold Script.patch_file, Script.fix_supabase_never_types,
    Script.fix_any_to_never_errors, Script.fix_error_handling, IO.bind.
  rewrite (fix_file_writable _ p w text Hp).
  rewrite (fix_file_writable _ p (IO.World _ _ _) _ (lookup_insert_eq _ _ _)).
  rewrite (fix_file_writable _ p (IO.World _ _ _) _ (lookup_insert_eq _ _ _)).
  cbn [IO.fs IO.io_log IO.stdout]. unfold IO.ret. eexists _, _. split; [done|].
  cbn [IO.fs IO.io_log].
  set (c1 := (Rules.supabase_never_types_subs text).1).
  set (c2 := (Rules.any_to_never_subs c1).1).
  set (c3 := (Rules.error_handling_subs c2).1).
  pose proof (changed_rule _ text (supabase_never_types_zero text)) as H1.
  pose proof (changed_rule _ c1 (any_to_never_zero c1)) as H2.
  pose proof (changed_rule _ c2 (error_handling_zero c2)) as H3.
  fold c1 in H1. fold c2 in H2. fold c3 in H3.
  rewrite !writes_of_app, !writes_of_writes, !writes_of_read.
  split; [lia|].
  intros H0.
  assert (changed text c1 = 0 /\ changed c1 c2 = 0 /\ changed c2 c3 = 0)
    as (E1 & E2 & E3) by lia.
  unfold changed in E1, E2, E3.
  repeat case_bool_decide; try done. subst c3. 
  rewrite !insert_insert_eq.
  replace ((Rules.error_handling_subs c2).1) with text by congruence.
  by apply insert_id.
Qed.

Lemma patch_file_counts_writes_witness :
  exists fixes w',
    Script.patch_file "a.ts" (world_of one_file) = (inr fixes, w')
    /\ (fixes = 0
        <-> writes_of "a.ts" (IO.io_log w')
            = writes_of "a.ts" (IO.io_log (world_of one_file)))
    /\ (fixes = 0 -> IO.fs w' = IO.fs (world_of one_file)).
Proof.
  exact (patch_file_counts_writes "a.ts" (world_of one_file)
           ".insert(x).eq('id', y)" eq_refl).
Defined.

(** ** The text the binding rule writes *)

Section Canonical.
Import Re Rules.

Lemma add_type_assertion_binding b n :
  binding_ok b = true ->
  Py.contains (binding_text b) " as " = false ->
  add_type_assertion (RMatch (binding_text b) (binding_caps b)) n
  = (binding_canonical b, n + 1).
Proof.
  intros Hb Has. unfold add_type_assertion. cbn [m_text]. rewrite Has.
  unfold binding_ok in Hb. repeat (apply andb_true_iff in Hb as [Hb ?]).
  unfold binding_canonical, binding_caps, group. cbn [m_caps].
  destruct (error_var b) as [[[w1 w2] name]|]; cbn -[String.append].
  - destruct name as [|c name].
    { match goal with H : error_part_ok _ = true |- _ =>
        simpl in H; by rewrite andb_false_r in H end. }
    cbn -[String.append]. by rewrite ?str_app_assoc.
  - by rewrite ?str_app_assoc.
Qed.

Lemma canonical_binding_text b :
  binding_text (canonical_binding b) = binding_canonical b.
Proof.
  unfold binding_text, binding_canonical, canonical_binding, error_part.
  cbn [ws_const ws_open ws_data data_var error_var ws_close ws_eq ws_await
       ws_supabase ws_from quote_open table quote_close ws_select].
  destruct (error_var b) as [[[w1 w2] name]|]; simpl;
    by rewrite ?str_app_assoc.
Qed.

Lemma canonical_binding_ok b :
  binding_ok b = true -> binding_ok (canonical_binding b) = true.
Proof.
  intros Hb. unfold binding_ok in *. repeat (apply andb_true_iff in Hb as [Hb ?]).
  cbn [canonical_binding ws_const ws_open ws_data data_var error_var ws_close
       ws_eq ws_await ws_supabase ws_from quote_open table quote_close ws_select].
  repeat (apply andb_true_iff; split); try done.
  destruct (error_var b) as [[[w1 w2] name]|]; [|done].
  match goal with H : error_part_ok _ = true |- _ =>
    simpl in H; apply andb_true_iff in H as [_ H]; simpl; exact H end.
Qed.

Lemma canonical_binding_canonical b :
  binding_canonical (canonical_binding b) = binding_canonical b.
Proof.
  unfold binding_canonical, canonical_binding. cbn [data_var error_var table].
  by destruct (error_var b) as [[[w1 w2] name]|].
Qed.

End Canonical.

(** ** The filter calls *)

Section Filter_call.
Import Re Rules.

Lemma free_of_app c a b : free_of c (a +:+ b) = free_of c a && free_of c b.
Proof.
  unfold free_of. induction a as [|d a IH]; simpl; [done|].
  by rewrite IH, andb_assoc.
Qed.

Lemma free_of_all_in (p : ascii -> bool) c s :
  p c = false -> all_in p s = true -> free_of c s = true.
Proof.
  intros Hc. unfold free_of. induction s as [|d s IH]; simpl; [done|].
  intros [Hd Hs]%andb_true_iff. rewrite IH by done. rewrite andb_true_r.
  apply negb_true_iff. destruct (Ascii.eqb_spec c d) as [->|]; congruence.
Qed.

Lemma free_of_word c s : Py.is_word c = false -> word s = true -> free_of c s = true.
Proof. intros Hc [_ Hs]%word_all. by apply (free_of_all_in Py.is_word). Qed.

Lemma free_of_blank c s : Py.is_space c = false -> blank s = true -> free_of c s = true.
Proof. intros Hc Hs. by apply (free_of_all_in Py.is_space). Qed.

Lemma str_app_inv_head (p a b : string) : p +:+ a = p +:+ b -> a = b.
Proof. induction p as [|c p IH]; simpl; [done|]. intros [= H]. by apply IH. Qed.

Lemma call_pattern_needs_dot name p s :
  Py.startswith s "." = false -> match_at (call_pattern name) p s = None.
Proof.
  intros Hs. unfold match_at, call_pattern. cbn [seq].
  rewrite exec_seq, exec_lit_fails; [done|].
  cbn [rest]. change ("." +:+ name +:+ "(") with (String "." (name +:+ "(")).
  destruct s as [|d s]; [done|]. cbn [Py.startswith] in Hs |- *.
  by destruct (Ascii.eqb "." d).
Qed.

Lemma search_from_free name p s :
  free_of "." s = true -> search_from (call_pattern name) p s = None.
Proof.
  revert p. induction s as [|d s IH]; intros p; cbn [search_from].
  - intros _. by rewrite call_pattern_needs_dot.
  - unfold free_of. cbn [all_in]. intros [Hd Hs]%andb_true_iff.
    rewrite call_pattern_needs_dot; [by apply IH|].
    cbn [Py.startswith]. by apply negb_true_iff in Hd as ->.
Qed.

Lemma search_from_one_dot name p pre s :
  free_of "." pre = true -> free_of "." s = true ->
  (forall q, match_at (call_pattern name) q (String "." s) = None) ->
  search_from (call_pattern name) p (pre +:+ String "." s) = None.
Proof.
  intros Hpre Hs Hdot. revert p.
  induction pre as [|d pre IH]; intros p.
  - rewrite str_app_nil_l. cbn [search_from]. rewrite Hdot.
    by apply search_from_free.
  - rewrite str_app_cons. cbn [search_from].
    unfold free_of in Hpre. cbn [all_in] in Hpre.
    apply andb_true_iff in Hpre as [Hd Hpre].
    rewrite call_pattern_needs_dot; [by apply IH|].
    cbn [Py.startswith]. by apply negb_true_iff in Hd as ->.
Qed.

Lemma exec_call_pattern name q1 c q2 ws1 ws2 v post p :
  is_quote q1 = true -> word c = true -> is_quote q2 = true ->
  blank ws1 = true -> blank ws2 = true -> word v = true ->
  exec (call_pattern name)
    (MState p (filter_call name q1 c q2 ws1 ws2 v +:+ post) []) Some
  = Some (MState (p + String.length (filter_call name q1 c q2 ws1 ws2 v))
            post [(2, v); (1, c)]).
Proof.
  intros Q1 Wc Q2 B1 B2 Wv.
  pose proof Wv as Wv'. apply word_all in Wc as [Nc Wc], Wv as [Nv Wv].
  unfold filter_call, call_pattern, Py.chr. cbn [seq].
  rewrite !str_app_assoc.
  replace ("." +:+ name +:+ "(" +:+ String q1 "" +:+ c +:+ String q2 "" +:+ ws1
           +:+ "," +:+ ws2 +:+ v +:+ ")" +:+ post)
    with (("." +:+ name +:+ "(") +:+ String q1 (c +:+ String q2 (ws1 +:+ ","
           +:+ ws2 +:+ v +:+ ")" +:+ post)))
    by (by rewrite !str_app_assoc).
  exec_steps. rewrite exec_cls by exact Q1.
  exec_steps. plus Nc Wc. { simpl. by rewrite (quote_not_word q2). }
  exec_steps. rewrite exec_cls by exact Q2.
  exec_steps. star B1.
  exec_steps. star B2. { by apply stops_word. }
  exec_steps. plus Nv Wv.
  exec_steps. solve_take. f_equal. f_equal.
  repeat (progress (rewrite ?str_length_app; simpl)). lia.
Qed.

Lemma match_at_call_pattern name q1 c q2 ws1 ws2 v post p :
  is_quote q1 = true -> word c = true -> is_quote q2 = true ->
  blank ws1 = true -> blank ws2 = true -> word v = true ->
  match_at (call_pattern name) p (filter_call name q1 c q2 ws1 ws2 v +:+ post)
  = Some (RMatch (filter_call name q1 c q2 ws1 ws2 v) [(2, v); (1, c)]).
Proof.
  intros Q1 Wc Q2 B1 B2 Wv. unfold match_at.
  rewrite exec_call_pattern by done. cbn [pos caps].
  by rewrite take_app_eq by lia.
Qed.

Lemma sub_filter_call name pre q1 c q2 ws1 ws2 v post :
  free_of "." pre = true -> free_of "." post = true ->
  is_quote q1 = true -> word c = true -> is_quote q2 = true ->
  blank ws1 = true -> blank ws2 = true -> word v = true ->
  sub (call_pattern name) (call_template name)
    (pre +:+ filter_call name q1 c q2 ws1 ws2 v +:+ post)
  = pre +:+ filter_call_rewritten name c v +:+ post.
Proof.
  intros Hpre Hpost Q1 Wc Q2 B1 B2 Wv. unfold sub, sub_with.
  rewrite sub_go_copy.
  2:{ intros i t Hi. destruct (free_of_drop _ _ _ Hpre Hi) as (d & u & -> & Hd).
      apply call_pattern_needs_dot. rewrite str_app_cons.
      cbn [Py.startswith]. by rewrite Hd. }
  rewrite (sub_go_replace _ _ _ _ _ _ _
             (match_at_call_pattern name q1 c q2 ws1 ws2 v post _ Q1 Wc Q2 B1 B2 Wv)
             eq_refl) by done.
  by rewrite (sub_go_no_match _ _ _ _ _ (search_from_free name _ post Hpost)).
Qed.

Lemma is_quote_not_dot q : is_quote q = true -> negb (Ascii.eqb "." q) = true.
Proof.
  unfold is_quote. simpl. rewrite orb_false_r.
  intros [H|H]%orb_true_iff; apply Ascii.eqb_eq in H; by subst.
Qed.

End Filter_call.

Ltac free_of_dot :=
  rewrite ?free_of_app;
  repeat (apply andb_true_iff; split);
  first [ done | by apply free_of_word | by apply free_of_blank
        | by (unfold free_of, Py.chr; cbn [all_in]; rewrite is_quote_not_dot) ].

(** X11.  [fix_any_to_never_errors] rewrites a call of [eq] or [in] whose
    arguments are a quoted column and a bare value: it puts the assertion
    on the value, single quotes around the column and, as its template has
    them, a backslash before each of the two quotes, and counts one fix.
    The rewritten call is no call for the patterns any more: a second
    application changes nothing. *)
Theorem filter_call_rewritten_with_backslashes
    (name pre column value post ws1 ws2 : string) (q1 q2 : ascii) :
  name = "eq" \/ name = "in" ->
  free_of "." pre = true -> free_of "." post = true ->
  is_quote q1 = true -> word column = true -> is_quote q2 = true ->
  blank ws1 = true -> blank ws2 = true -> word value = true ->
  Rules.any_to_never_rule
    (pre +:+ filter_call name q1 column q2 ws1 ws2 value +:+ post)
  = (pre +:+ filter_call_rewritten name column value +:+ post, 1)
  /\ Rules.any_to_never_rule
       (pre +:+ filter_call_rewritten name column value +:+ post)
     = (pre +:+ filter_call_rewritten name column value +:+ post, 0).
Proof.
  intros Hname Hpre Hpost Q1 Wc Q2 B1 B2 Wv.
  assert (pre +:+ filter_call_rewritten name column value +:+ post
          <> pre +:+ filter_call name q1 column q2 ws1 ws2 value +:+ post) as Hne.
  { intros E. apply str_app_inv_head in E.
    unfold filter_call_rewritten, filter_call, Py.chr in E.
    destruct Hname as [-> | ->]; cbn in E; injection E as E _;
      subst q1; done. }
  assert (forall other,
            other = "eq" \/ other = "in" ->
            Re.search (Rules.call_pattern other)
              (pre +:+ filter_call_rewritten name column value +:+ post) = None)
    as Hout.
  { intros other Hother. unfold Re.search, filter_call_rewritten.
    change ("." +:+ name +:+ "(\'" +:+ column +:+ "\', " +:+ value +:+ " as any)")
      with (String "." (name +:+ "(\'" +:+ column +:+ "\', " +:+ value +:+ " as any)")).
    rewrite str_app_cons. apply search_from_one_dot; [done| |].
    - destruct Hname as [-> | ->]; free_of_dot.
    - intros q. destruct Hname as [-> | ->], Hother as [-> | ->];
        by vm_compute. }
  split.
  - unfold Rules.any_to_never_rule, Rules.as_rule, Rules.any_to_never_subs,
      Rules.patterns. cbn [Rules.any_to_never_loop].
    destruct Hname as [-> | ->].
    + rewrite sub_filter_call by done.
      rewrite bool_decide_eq_true_2 by done.
      rewrite (sub_no_match _ _ _ (Hout "in" (or_intror eq_refl))).
      rewrite bool_decide_eq_false_2 by auto.
      by rewrite bool_decide_eq_true_2 by done.
    + rewrite (sub_no_match (Rules.call_pattern "eq")).
      2:{ unfold Re.search, filter_call.
          change ("." +:+ "in" +:+ "(" +:+ Py.chr q1 +:+ column +:+ Py.chr q2 +:+ ws1
                  +:+ "," +:+ ws2 +:+ value +:+ ")")
            with (String "." ("in" +:+ "(" +:+ Py.chr q1 +:+ column +:+ Py.chr q2
                  +:+ ws1 +:+ "," +:+ ws2 +:+ value +:+ ")")).
          rewrite str_app_cons. apply search_from_one_dot; [done| |].
          - free_of_dot.
          - intros q. by vm_compute. }
      rewrite bool_decide_eq_false_2 by auto.
      rewrite sub_filter_call by done.
      rewrite bool_decide_eq_true_2 by done.
      by rewrite bool_decide_eq_true_2 by done.
  - apply (as_rule_unchanged _ _ 0).
    unfold Rules.any_to_never_subs, Rules.patterns. cbn [Rules.any_to_never_loop].
    rewrite (sub_no_match _ _ _ (Hout "eq" (or_introl eq_refl))).
    rewrite bool_decide_eq_false_2 by auto.
    rewrite (sub_no_match _ _ _ (Hout "in" (or_intror eq_refl))).
    by rewrite bool_decide_eq_false_2 by auto.
Qed.

Lemma filter_call_rewritten_with_backslashes_witness :
  Rules.any_to_never_rule
    ("db" +:+ filter_call "eq" Py.dquote "id" Py.dquote "" " " "userId" +:+ ";")
  = ("db" +:+ filter_call_rewritten "eq" "id" "userId" +:+ ";", 1)
  /\ Rules.any_to_never_rule
       ("db" +:+ filter_call_rewritten "eq" "id" "userId" +:+ ";")
     = ("db" +:+ filter_call_rewritten "eq" "id" "userId" +:+ ";", 0).
Proof.
  exact (filter_call_rewritten_with_backslashes "eq" "db" "id" "userId" ";"
           "" " " Py.dquote Py.dquote (or_introl eq_refl)
           eq_refl eq_refl eq_refl eq_refl eq_refl eq_refl eq_refl eq_refl).
Defined.

(** ** Catch blocks that log the caught value *)

Section More_strings.

Lemma startswith_nonblank w s c l :
  w <> "" -> blank w = true -> Py.is_space c = false ->
  Py.startswith (w +:+ s) (String c l) = false.
Proof.
  destruct w as [|a w]; [done|]. simpl. intros _ [Ha _]%andb_true_iff Hc.
  destruct (Ascii.eqb_spec c a) as [->|]; [congruence|done].
Qed.

Lemma all_in_drop p w i : all_in p w = true -> all_in p (Py.drop i w) = true.
Proof.
  revert w. induction i as [|i IH]; intros [|a w]; simpl; try done.
  intros [_ Hw]%andb_true_iff. by apply IH.
Qed.

(** Two texts that agree up to the first occurrence of [c] in each. *)
Lemma first_occurrence c u u' a b :
  free_of c u = true -> free_of c u' = true ->
  u +:+ String c a = u' +:+ String c b -> u = u' /\ a = b.
Proof.
  unfold free_of. revert u'. induction u as [|d u IH]; intros [|d' u']; simpl.
  - by intros _ _ [= ->].
  - intros _ [Hd _]%andb_true_iff [= <- _]. by rewrite ascii_eqb_refl in Hd.
  - intros [Hd _]%andb_true_iff _ [= -> _]. by rewrite ascii_eqb_refl in Hd.
  - intros [_ Hu]%andb_true_iff [_ Hu']%andb_true_iff [= -> E].
    destruct (IH _ Hu Hu' E) as [-> ->]. done.
Qed.

Lemma contains_free c hay needle :
  free_of c hay = true -> Py.contains hay (String c needle) = false.
Proof.
  unfold free_of. induction hay as [|d hay IH]; [done|].
  cbn [all_in Py.contains Py.startswith]. intros [Hd Hh]%andb_true_iff.
  apply negb_true_iff in Hd. rewrite Hd. simpl. by apply IH.
Qed.

(** [str.replace] copies a text in which [old] does not start. *)
Lemma replace_go_copy old new m s :
  (forall i, i < String.length m ->
     Py.startswith (Py.drop i m +:+ s) old = false) ->
  Py.replace_go old new (m +:+ s) 0 = m +:+ Py.replace_go old new s 0.
Proof.
  induction m as [|d m IH]; intros Hno; [done|].
  rewrite str_app_cons. cbn [Py.replace_go].
  pose proof (Hno 0 ltac:(simpl; lia)) as H0. simpl in H0.
  rewrite ?str_app_cons in H0. rewrite H0. rewrite IH; [done|].
  intros i Hi. apply (Hno (S i)). simpl. lia.
Qed.

Lemma replace_go_copy_free c old new m s :
  free_of c m = true ->
  Py.replace_go (String c old) new (m +:+ s) 0
  = m +:+ Py.replace_go (String c old) new s 0.
Proof.
  intros Hm. apply replace_go_copy. intros i Hi.
  destruct (free_of_drop _ _ _ Hm Hi) as (d & u & -> & Hd).
  rewrite str_app_cons. cbn [Py.startswith]. by rewrite Hd.
Qed.

Lemma replace_go_skip old new w s :
  Py.replace_go old new (w +:+ s) (String.length w) = Py.replace_go old new s 0.
Proof.
  induction w as [|d w IH]; simpl; [|done].
  destruct s; [done|]. done.
Qed.

Lemma replace_go_hit c old new s :
  Py.replace_go (String c old) new (String c old +:+ s) 0
  = new +:+ Py.replace_go (String c old) new s 0.
Proof.
  rewrite str_app_cons. cbn [Py.replace_go].
  assert (Py.startswith (String c (old +:+ s)) (String c old) = true) as ->
    by (rewrite <- str_app_cons; apply startswith_app).
  replace (String.length (String c old) - 1) with (String.length old)
    by (simpl; lia).
  by rewrite replace_go_skip.
Qed.

Lemma replace_go_hit_end c old new :
  Py.replace_go (String c old) new (String c old) 0 = new.
Proof.
  rewrite <- (str_app_nil_r (String c old)) at 2.
  by rewrite replace_go_hit, str_app_nil_r.
Qed.

Lemma replace_go_nil old new : Py.replace_go old new "" 0 = "".
Proof. done. Qed.

End More_strings.

Section Catch_rule.
Import Re Rules.

Lemma exec_backref n s t p cs k :
  lookup_cap n cs = Some s ->
  exec (Backref n) (MState p (s +:+ t) cs) k
  = k (MState (p + String.length s) t cs).
Proof.
  intros Hn. simpl. rewrite Hn, startswith_app. unfold advance. simpl.
  by rewrite drop_app.
Qed.

(** The logged value is looked for at the first comma that is followed by
    the caught name and the closing parenthesis: no comma of the other
    arguments is, when they hold no closing parenthesis. *)
Lemma logged_value_not_in_args a v post p cs :
  a <> "" -> free_of ")" a = true -> word v = true ->
  lookup_cap 1 cs = Some v ->
  exec (seq [ Lit ","; Star true CSpace; Backref 1; Star true CSpace; Lit ")" ])
    (MState p (a +:+ ", " +:+ v +:+ ")" +:+ post) cs) Some
  = None.
Proof.
  intros Ha Hfree Wv Hcap.
  destruct (exec _ _ Some) as [res|] eqn:E; [exfalso|done].
  apply exec_sound in E as (st' & Hm & _). cbn [seq matches] in Hm.
  destruct Hm as (st1 & (E1 & _ & C1) & st2 & (w1 & E2 & B1 & _ & C2)
                  & st3 & (s & Hs & E3 & _ & C3)
                  & st4 & (w2 & E4 & B2 & _ & C4) & (E5 & _ & _)).
  cbn [rest caps] in *. rewrite C2, C1, Hcap in Hs. injection Hs as <-.
  rewrite E2, E3, E4, E5 in E1. clear E2 E3 E4 E5.
  destruct a as [|d a]; [done|].
  assert (free_of ")" (String d a +:+ ", " +:+ v) = true) as F1.
  { rewrite !free_of_app, Hfree. by rewrite (free_of_word ")" v). }
  assert (free_of ")" ("," +:+ w1 +:+ v +:+ w2) = true) as F2.
  { rewrite !free_of_app.
    by rewrite (free_of_blank ")" w1), (free_of_word ")" v), (free_of_blank ")" w2). }
  assert (String d a +:+ ", " +:+ v +:+ ")" +:+ post
          = (String d a +:+ ", " +:+ v) +:+ String ")" post) as L
    by (by rewrite !str_app_assoc).
  assert ("," +:+ w1 +:+ v +:+ w2 +:+ ")" +:+ rest st'
          = ("," +:+ w1 +:+ v +:+ w2) +:+ String ")" (rest st')) as R
    by (by rewrite !str_app_assoc).
  rewrite L, R in E1.
  destruct (first_occurrence _ _ _ _ _ F1 F2 E1) as [E _].
  injection E as -> E.
  assert (free_of "," (w1 +:+ v +:+ w2) = true) as F.
  { rewrite !free_of_app.
    by rewrite (free_of_blank "," w1), (free_of_word "," v), (free_of_blank "," w2). }
  rewrite <- E, free_of_app in F. apply andb_true_iff in F as [_ F].
  by cbn in F.
Qed.

Lemma exec_pattern_call logger ws3 args v post p cs :
  logger = "logger.error" \/ logger = "console.error" ->
  blank ws3 = true -> free_of ")" args = true -> word v = true ->
  lookup_cap 1 cs = Some v ->
  exec
    (seq [ Alt (Lit "logger.error") (Lit "console.error");
           Star true CSpace; Lit "("; Star false (CNoneOf ")"); Lit ",";
           Star true CSpace; Backref 1; Star true CSpace; Lit ")" ])
    (MState p (logger +:+ ws3 +:+ "(" +:+ args +:+ ", " +:+ v +:+ ")" +:+ post)
       cs) Some
  = Some (MState
            (p + String.length (logger +:+ ws3 +:+ "(" +:+ args +:+ ", " +:+ v
                                +:+ ")"))
            post cs).
Proof.
  intros Hl B3 Hargs Wv Hcap. cbn [seq].
  assert (forall q,
            exec (seq [ Star true CSpace; Lit "("; Star false (CNoneOf ")");
                        Lit ","; Star true CSpace; Backref 1; Star true CSpace;
                        Lit ")" ])
              (MState q (ws3 +:+ "(" +:+ args +:+ ", " +:+ v +:+ ")" +:+ post) cs)
              Some
            = Some (MState
                      (q + String.length (ws3 +:+ "(" +:+ args +:+ ", " +:+ v
                                          +:+ ")"))
                      post cs)) as Htail.
  { intros q. cbn [seq]. exec_steps. star B3. exec_steps.
    apply exec_star_lazy; [by rewrite (free_of_none_of ")")| |].
    - intros i Hi. exec_norm. rewrite drop_app_lt by lia.
      destruct (free_of_drop_suffix _ _ i Hargs Hi) as [Hne Hfree].
      by apply (logged_value_not_in_args (Py.drop i args) v post).
    - exec_norm.
      change (", " +:+ v +:+ ")" +:+ post)
        with ("," +:+ " " +:+ v +:+ ")" +:+ post).
      exec_steps. star (eq_refl : blank " " = true). { by apply stops_word. }
      exec_norm. rewrite exec_seq, (exec_backref 1 v) by done.
      exec_norm. rewrite exec_seq.
      change (")" +:+ post) with ("" +:+ ")" +:+ post).
      star (eq_refl : blank "" = true).
      exec_steps. f_equal. f_equal.
      repeat (progress (rewrite ?str_length_app; simpl)). lia. }
  cbn [seq] in Htail. rewrite exec_seq, exec_alt.
  destruct Hl as [-> | ->].
  - apply or_else_l. rewrite exec_lit. exec_norm. rewrite Htail. f_equal. f_equal.
    repeat (progress (rewrite ?str_length_app; simpl)). lia.
  - apply or_else_r; [by apply exec_lit_fails|].
    rewrite exec_lit. exec_norm. rewrite Htail. f_equal. f_equal.
    repeat (progress (rewrite ?str_length_app; simpl)). lia.
Qed.

Lemma exec_pattern_catch ws1 v ws2 indent logger ws3 args post p :
  blank ws1 = true -> word v = true -> blank ws2 = true ->
  blank indent = true ->
  logger = "logger.error" \/ logger = "console.error" ->
  blank ws3 = true -> free_of ")" args = true ->
  exec pattern
    (MState p (catch_block ws1 v ws2 indent logger ws3 args +:+ post) []) Some
  = Some (MState
            (p + String.length (catch_block ws1 v ws2 indent logger ws3 args))
            post [(2, String Py.nl indent); (1, v)]).
Proof.
  intros B1 Wv B2 Bi Hl B3 Hargs.
  pose proof Wv as Wv'. apply word_all in Wv' as [Nv Wv'].
  unfold catch_block, pattern. cbn [seq]. rewrite !str_app_assoc.
  exec_steps. star B1. exec_steps. plus Nv Wv'.
  exec_steps. star B2. exec_steps.
  match goal with
  | |- exec _ (MState ?q (Py.chr Py.nl +:+ indent +:+ ?R) ?cs) ?k = _ =>
      change (MState q (Py.chr Py.nl +:+ indent +:+ R) cs)
        with (MState q (String Py.nl indent +:+ R) cs)
  end.
  assert (blank (String Py.nl indent) = true) as Bb by exact Bi.
  apply exec_star_lazy.
  - rewrite (free_of_none_of "}"). by apply free_of_blank.
  - intros i Hi. exec_norm. rewrite drop_app_lt by lia.
    rewrite exec_seq, exec_alt.
    rewrite !exec_lit_fails; [done| |]; cbn [rest];
      (apply startswith_nonblank;
       [by apply drop_nonempty|by apply all_in_drop|done]).
  - exec_norm. solve_take.
    rewrite (exec_pattern_call logger ws3 args v post) by done.
    f_equal. f_equal.
    + repeat (progress (rewrite ?str_length_app; simpl)). lia.
    + do 2 f_equal.
      match goal with
      | |- Py.take ?n (Py.chr Py.nl +:+ indent +:+ ?R) = _ =>
          change (Py.take n (String Py.nl indent +:+ R) = String Py.nl indent)
      end.
      apply take_app_eq. lia.
Qed.

Lemma match_at_pattern_catch ws1 v ws2 indent logger ws3 args post p :
  blank ws1 = true -> word v = true -> blank ws2 = true ->
  blank indent = true ->
  logger = "logger.error" \/ logger = "console.error" ->
  blank ws3 = true -> free_of ")" args = true ->
  match_at pattern p (catch_block ws1 v ws2 indent logger ws3 args +:+ post)
  = Some (RMatch (catch_block ws1 v ws2 indent logger ws3 args)
            [(2, String Py.nl indent); (1, v)]).
Proof.
  intros B1 Wv B2 Bi Hl B3 Hargs. unfold match_at.
  rewrite exec_pattern_catch by done. cbn [pos caps].
  by rewrite take_app_eq by lia.
Qed.

Lemma search_indent_re indent :
  indent <> "" -> blank indent = true ->
  search indent_re (String Py.nl indent)
  = Some (RMatch (String Py.nl indent) [(1, indent)]).
Proof.
  intros Ni Bi. unfold search. cbn [search_from]. unfold match_at.
  assert (exec indent_re (MState 0 (String Py.nl indent) []) Some
          = Some (MState (S (String.length indent)) "" [(1, indent)])) as ->.
  { unfold indent_re. cbn [seq].
    replace (String Py.nl indent) with (Py.chr Py.nl +:+ indent +:+ "")
      by (by rewrite str_app_nil_r).
    exec_steps. plus Ni Bi. exec_norm. solve_take.
    f_equal; try (f_equal; simpl; lia). }
  cbn [pos caps]. f_equal. f_equal.
  rewrite <- (str_app_nil_r (String Py.nl indent)) at 1.
  apply take_app_eq. simpl. lia.
Qed.

Lemma logged_value_once args v i :
  free_of ")" args = true -> word v = true -> i < String.length args ->
  Py.startswith (Py.drop i args +:+ ", " +:+ v +:+ ")") (", " +:+ v +:+ ")")
  = false.
Proof.
  intros Hargs Wv Hi.
  destruct (free_of_drop_suffix _ _ i Hargs Hi) as [Hne Hfree].
  destruct (Py.startswith _ _) eqn:E; [exfalso|done].
  apply startswith_inv in E.
  set (a := Py.drop i args) in *. set (t := Py.drop _ _) in E.
  assert (a +:+ ", " +:+ v +:+ ")" = (a +:+ ", " +:+ v) +:+ String ")" "") as L
    by (by rewrite !str_app_assoc).
  assert ((", " +:+ v +:+ ")") +:+ t = (", " +:+ v) +:+ String ")" t) as R
    by (by rewrite !str_app_assoc).
  rewrite L, R in E.
  apply first_occurrence in E as [E _].
  - apply (f_equal String.length) in E. rewrite !str_length_app in E.
    destruct a; [done|]. simpl in E. lia.
  - rewrite !free_of_app, Hfree. by rewrite (free_of_word ")" v).
  - rewrite free_of_app. by rewrite (free_of_word ")" v).
Qed.

End Catch_rule.

Ltac free_of_parts :=
  rewrite ?free_of_app;
  repeat (apply andb_true_iff; split);
  first [ done | by apply free_of_word | by apply free_of_blank ].

Section Catch_block.
Import Re Rules.

Lemma fix_catch_block ws1 v ws2 indent logger ws3 args n :
  blank ws1 = true -> free_of Py.nl ws1 = true ->
  word v = true ->
  blank ws2 = true -> free_of Py.nl ws2 = true ->
  indent <> "" -> blank indent = true ->
  logger = "logger.error" \/ logger = "console.error" ->
  blank ws3 = true -> free_of Py.nl ws3 = true ->
  free_of ")" args = true -> free_of Py.nl args = true ->
  fix_catch
    (RMatch (catch_block ws1 v ws2 indent logger ws3 args)
       [(2, String Py.nl indent); (1, v)]) n
  = (catch_block_rewritten ws1 v ws2 indent logger ws3 args, n + 1).
Proof.
  intros B1 F1 Wv B2 F2 Ni Bi Hl B3 F3 Hargs Fa.
  unfold fix_catch, group. cbn [m_caps m_text lookup_cap Nat.eqb fmt].
  assert (blank (String Py.nl indent) = true) as Bb by exact Bi.
  assert (free_of Py.nl logger = true) as Fl by (by destruct Hl as [-> | ->]).
  assert (free_of "," logger = true) as Fc by (by destruct Hl as [-> | ->]).
  change ("const err = " +:+ v +:+ " instanceof Error")
    with (String "c" ("onst err = " +:+ v +:+ " instanceof Error")).
  rewrite contains_free by (by apply free_of_blank).
  rewrite search_indent_re by done. cbn [m_caps lookup_cap Nat.eqb fmt].
  f_equal. unfold Py.replace at 2.
  (* the block is replaced where it stands *)
  assert (Py.replace_go (String Py.nl indent)
            ((Py.chr Py.nl +:+ indent +:+ "const err = " +:+ v
              +:+ " instanceof Error ? " +:+ v +:+ " : new Error(String(" +:+ v
              +:+ "));") +:+ String Py.nl indent)
            (catch_block ws1 v ws2 indent logger ws3 args) 0
          = ("catch" +:+ ws1 +:+ "(" +:+ v +:+ ")" +:+ ws2 +:+ "{"
             +:+ Py.chr Py.nl +:+ indent +:+ "const err = " +:+ v
             +:+ " instanceof Error ? " +:+ v +:+ " : new Error(String(" +:+ v
             +:+ "));" +:+ Py.chr Py.nl +:+ indent +:+ logger +:+ ws3 +:+ "(")
            +:+ args +:+ ", " +:+ v +:+ ")") as ->.
  { unfold catch_block.
    replace ("catch" +:+ ws1 +:+ "(" +:+ v +:+ ")" +:+ ws2 +:+ "{"
             +:+ Py.chr Py.nl +:+ indent +:+ logger +:+ ws3 +:+ "(" +:+ args
             +:+ ", " +:+ v +:+ ")")
      with (("catch" +:+ ws1 +:+ "(" +:+ v +:+ ")" +:+ ws2 +:+ "{")
            +:+ String Py.nl indent
            +:+ (logger +:+ ws3 +:+ "(" +:+ args +:+ ", " +:+ v +:+ ")") +:+ "")
      by (by rewrite str_app_nil_r, !str_app_assoc).
    rewrite (replace_go_copy_free Py.nl) by free_of_parts.
    rewrite replace_go_hit.
    rewrite (replace_go_copy_free Py.nl) by free_of_parts.
    rewrite replace_go_nil, str_app_nil_r. by rewrite !str_app_assoc. }
  (* the logged value is renamed where it is the last argument *)
  unfold Py.replace.
  change (", " +:+ v +:+ ")") with (String "," (" " +:+ v +:+ ")")).
  rewrite (replace_go_copy_free ",") by (unfold Py.chr; free_of_parts).
  rewrite replace_go_copy by (intros i Hi; by apply logged_value_once).
  rewrite replace_go_hit_end.
  unfold catch_block_rewritten. by rewrite !str_app_assoc.
Qed.

End Catch_block.

Section Catch_text.
Import Re Rules.

Lemma startswith_app_false s n y :
  String.length n <= String.length s ->
  Py.startswith s n = false -> Py.startswith (s +:+ y) n = false.
Proof.
  revert s. induction n as [|c n IH]; intros [|d s]; simpl; try done; try lia.
  intros Hlen. destruct (Ascii.eqb c d); [|done]. apply IH. lia.
Qed.

Lemma no_catch_before pre t i :
  Py.contains (pre +:+ "catc") "catch" = false ->
  i < String.length pre ->
  Py.startswith (Py.drop i pre +:+ "catch" +:+ t) "catch" = false.
Proof.
  intros Hpre Hi.
  pose proof (contains_false_drop _ _ i Hpre) as H.
  rewrite drop_app_lt in H by done.
  replace (Py.drop i pre +:+ "catch" +:+ t)
    with ((Py.drop i pre +:+ "catc") +:+ "h" +:+ t)
    by (by rewrite !str_app_assoc).
  apply startswith_app_false; [|done].
  pose proof (drop_nonempty i pre Hi) as Hne.
  rewrite str_length_app. destruct (Py.drop i pre); [done|]. simpl. lia.
Qed.

Lemma pattern_needs_catch p s :
  Py.startswith s "catch" = false -> match_at pattern p s = None.
Proof.
  intros Hs. unfold match_at, pattern. cbn [seq].
  by rewrite exec_seq, exec_lit_fails.
Qed.

Lemma sub_go_copy_at {St} r (f : rmatch -> St -> string * St) pre s p acc :
  (forall i, i < String.length pre ->
     match_at r (p + i) (Py.drop i pre +:+ s) = None) ->
  sub_go r f (pre +:+ s) p 0 acc
  = let '(tl, acc') := sub_go r f s (p + String.length pre) 0 acc in
    (pre +:+ tl, acc').
Proof.
  revert p. induction pre as [|c pre IH]; intros p Hnone.
  - simpl. rewrite Nat.add_0_r. by destruct (sub_go r f s p 0 acc).
  - cbn [String.append sub_go].
    pose proof (Hnone 0 ltac:(simpl; lia)) as H0.
    rewrite Nat.add_0_r in H0. simpl in H0. rewrite H0.
    rewrite IH.
    + simpl. replace (p + S (String.length pre)) with (S (p + String.length pre)) by lia.
      by destruct (sub_go r f s (S (p + String.length pre)) 0 acc).
    + intros i Hi. specialize (Hnone (S i) ltac:(simpl; lia)).
      replace (p + S i) with (S p + i) in Hnone by lia. exact Hnone.
Qed.

End Catch_text.

(** X12.  [fix_error_handling] on a catch block whose first statement, on a
    line of its own, logs the caught value as the last argument of
    [logger.error] or [console.error]: it puts the line that narrows the
    value before the call, with the indentation of the call, renames the
    logged value to [err], and counts one fix.  The text before the block,
    in which no [catch] starts, and the text after it, in which the pattern
    does not match, are kept. *)
Theorem error_handling_rule_on_block
    (pre ws1 error_var ws2 indent logger ws3 args post : string) :
  Py.contains (pre +:+ "catc") "catch" = false ->
  blank ws1 = true -> free_of Py.nl ws1 = true ->
  word error_var = true ->
  blank ws2 = true -> free_of Py.nl ws2 = true ->
  indent <> "" -> blank indent = true ->
  logger = "logger.error" \/ logger = "console.error" ->
  blank ws3 = true -> free_of Py.nl ws3 = true ->
  free_of ")" args = true -> free_of Py.nl args = true ->
  (forall p, Re.search_from Rules.pattern p post = None) ->
  Rules.error_handling_rule
    (pre +:+ catch_block ws1 error_var ws2 indent logger ws3 args +:+ post)
  = (pre +:+ catch_block_rewritten ws1 error_var ws2 indent logger ws3 args
         +:+ post, 1).
Proof.
  intros Hpre B1 F1 Wv B2 F2 Ni Bi Hl B3 F3 Hargs Fa Hpost.
  assert (Rules.error_handling_subs
            (pre +:+ catch_block ws1 error_var ws2 indent logger ws3 args +:+ post)
          = (pre +:+ catch_block_rewritten ws1 error_var ws2 indent logger ws3 args
                 +:+ post, 1)) as Hsubs.
  { unfold Rules.error_handling_subs, Re.sub_with.
    rewrite sub_go_copy_at.
    2:{ intros i Hi. apply pattern_needs_catch. unfold catch_block.
        rewrite !str_app_assoc. by apply no_catch_before. }
    rewrite (sub_go_replace _ _ _ _ _ _ _
               (match_at_pattern_catch ws1 error_var ws2 indent logger ws3 args
                  post _ B1 Wv B2 Bi Hl B3 Hargs) eq_refl) by done.
    rewrite fix_catch_block by done.
    by rewrite (sub_go_no_match _ _ _ _ _ (Hpost _)). }
  unfold Rules.error_handling_rule, Rules.as_rule. rewrite Hsubs.
  rewrite bool_decide_eq_true_2; [done|].
  intros E. apply (f_equal String.length) in E.
  unfold catch_block_rewritten, catch_block in E.
  repeat (progress (rewrite ?str_length_app in E; simpl in E)). lia.
Qed.

Lemma error_handling_rule_on_block_witness :
  Rules.error_handling_rule
    ("try { f() } "
     +:+ catch_block " " "e" " " "    " "console.error" "" "'failed', id"
     +:+ Py.chr Py.nl +:+ "}")
  = ("try { f() } "
     +:+ catch_block_rewritten " " "e" " " "    " "console.error" ""
           "'failed', id"
     +:+ Py.chr Py.nl +:+ "}", 1).
Proof.
  exact (error_handling_rule_on_block "try { f() } " " " "e" " " "    "
           "console.error" "" "'failed', id" (Py.chr Py.nl +:+ "}")
           eq_refl eq_refl eq_refl eq_refl eq_refl eq_refl
           ltac:(discriminate) eq_refl (or_intror eq_refl)
           eq_refl eq_refl eq_refl eq_refl (fun p => eq_refl)).
Defined.

(** ** The words the patterns start with *)

Section Trigger_words.
Import Re Rules.

Lemma search_from_needs r lit s p :
  (forall q t, Py.startswith t lit = false -> match_at r q t = None) ->
  Py.contains s lit = false -> search_from r p s = None.
Proof.
  intros Hr. revert p. induction s as [|c s IH]; intros p.
  - cbn [Py.contains search_from]. rewrite orb_false_r. intros H.
    by rewrite Hr.
  - cbn [Py.contains search_from]. intros [H0 H]%orb_false_iff.
    rewrite Hr by done. by apply IH.
Qed.

Lemma search_from_needs_either r lit1 lit2 s p :
  (forall q t, Py.startswith t lit1 = false -> Py.startswith t lit2 = false ->
               match_at r q t = None) ->
  Py.contains s lit1 = false -> Py.contains s lit2 = false ->
  search_from r p s = None.
Proof.
  intros Hr. revert p. induction s as [|c s IH]; intros p.
  - cbn [Py.contains search_from]. rewrite !orb_false_r. intros H1 H2.
    by rewrite Hr.
  - cbn [Py.contains search_from].
    intros [H1 H1']%orb_false_iff [H2 H2']%orb_false_iff.
    rewrite Hr by done. by apply IH.
Qed.

Lemma pattern1_needs_const q t :
  Py.startswith t "const" = false -> match_at pattern1 q t = None.
Proof.
  intros Ht. unfold match_at, pattern1. cbn [seq].
  by rewrite exec_seq, exec_lit_fails.
Qed.

Lemma pattern2_needs_call q t :
  Py.startswith t ".insert(" = false -> Py.startswith t ".update(" = false ->
  match_at pattern2 q t = None.
Proof.
  intros H1 H2. unfold match_at.
  destruct (exec pattern2 (MState q t []) Some) as [st|] eqn:E; [exfalso|done].
  apply exec_sound in E as (st' & Hm & _).
  unfold pattern2 in Hm. cbn [seq matches] in Hm.
  destruct Hm as (st1 & (E1 & _) & st2 & (st3 & Halt & ->) & st4 & (E3 & _) & _).
  cbn [rest] in *.
  destruct Halt as [(E2 & _)|(E2 & _)]; rewrite E3 in E2; rewrite E2 in E1.
  - assert (t = ".insert(" +:+ rest st4) as -> by (by rewrite E1).
    by rewrite startswith_app in H1.
  - assert (t = ".update(" +:+ rest st4) as -> by (by rewrite E1).
    by rewrite startswith_app in H2.
Qed.

Lemma call_pattern_needs_call name q t :
  Py.startswith t ("." +:+ name +:+ "(") = false ->
  match_at (call_pattern name) q t = None.
Proof.
  intros Ht. unfold match_at, call_pattern. cbn [seq].
  by rewrite exec_seq, exec_lit_fails.
Qed.

End Trigger_words.

(** X13.  The rules leave alone a text that holds none of the words their
    patterns start with: without [const], [.insert(] and [.update(] the
    first fix function returns the text and 0, without [.eq(] and [.in(]
    the second does, and without [catch] the third. *)
Theorem rules_need_their_words (content : string) :
  (Py.contains content "const" = false ->
   Py.contains content ".insert(" = false ->
   Py.contains content ".update(" = false ->
   Rules.supabase_never_types_rule content = (content, 0))
  /\ (Py.contains content ".eq(" = false ->
      Py.contains content ".in(" = false ->
      Rules.any_to_never_rule content = (content, 0))
  /\ (Py.contains content "catch" = false ->
      Rules.error_handling_rule content = (content, 0)).
Proof.
  split; [|split].
  - intros H1 H2 H3. apply (as_rule_unchanged _ _ 0).
    unfold Rules.supabase_never_types_subs.
    rewrite sub_with_no_match
      by (apply (search_from_needs _ "const"); [apply pattern1_needs_const|done]).
    apply sub_with_no_match.
    by apply (search_from_needs_either _ ".insert(" ".update(");
      [apply pattern2_needs_call| |].
  - intros H1 H2. apply (as_rule_unchanged _ _ 0).
    unfold Rules.any_to_never_subs, Rules.patterns.
    cbn [Rules.any_to_never_loop].
    rewrite sub_no_match
      by (apply (search_from_needs _ ".eq(");
          [apply (call_pattern_needs_call "eq")|done]).
    rewrite bool_decide_eq_false_2 by auto.
    rewrite sub_no_match
      by (apply (search_from_needs _ ".in(");
          [apply (call_pattern_needs_call "in")|done]).
    by rewrite bool_decide_eq_false_2 by auto.
  - intros H. apply (as_rule_unchanged _ _ 0).
    unfold Rules.error_handling_subs. apply sub_with_no_match.
    by apply (search_from_needs _ "catch"); [apply pattern_needs_catch|].
Qed.

Lemma rules_need_their_words_witness :
  Rules.supabase_never_types_rule "let total = rows.length;"
  = ("let total = rows.length;", 0)
  /\ Rules.any_to_never_rule "let total = rows.length;"
     = ("let total = rows.length;", 0)
  /\ Rules.error_handling_rule "let total = rows.length;"
     = ("let total = rows.length;", 0).
Proof.
  destruct (rules_need_their_words "let total = rows.length;") as (H1 & H2 & H3).
  split; [exact (H1 eq_refl eq_refl eq_refl)|].
  split; [exact (H2 eq_refl eq_refl)|exact (H3 eq_refl)].
Defined.

(** ** The binding rule inside a text *)

Section Binding_in_text.
Import Re Rules.

Lemma add_type_assertion_from_zero m n :
  add_type_assertion m n
  = ((add_type_assertion m 0).1, n + (add_type_assertion m 0).2).
Proof.
  unfold add_type_assertion. destruct (Py.contains (m_text m) " as ").
  - cbn [fst snd]. by rewrite Nat.add_0_r.
  - by destruct (truthy (group m 2)).
Qed.

Lemma add_type_assertion_kept b n :
  Py.contains (binding_text b) " as " = true ->
  add_type_assertion (RMatch (binding_text b) (binding_caps b)) n
  = (binding_text b, n).
Proof. intros Has. unfold add_type_assertion. cbn [m_text]. by rewrite Has. Qed.

(** The first statement of a text: what is before it is copied, the
    statement is replaced by what [add_type_assertion] returns for it, and
    what is after it is treated as it is on its own. *)
Lemma untyped_binding_rule_at pre b post :
  binding_ok b = true ->
  starts_nowhere pattern1 pre (binding_text b +:+ post) = true ->
  untyped_binding_rule (pre +:+ binding_text b +:+ post)
  = (pre
     +:+ (if Py.contains (binding_text b) " as " then binding_text b
          else binding_canonical b)
     +:+ (untyped_binding_rule post).1,
     (if Py.contains (binding_text b) " as " then 0 else 1)
     + (untyped_binding_rule post).2).
Proof.
  intros Hb Hpre. unfold untyped_binding_rule, sub_with.
  rewrite sub_go_copy_at.
  2:{ intros i Hi. rewrite (match_at_anywhere pattern1 (0 + i) 0) by done.
      by apply starts_nowhere_drop. }
  rewrite (sub_go_replace _ _ _ _ _ _ _
             (match_at_pattern1 b post (0 + String.length pre) Hb) eq_refl
             (binding_text_nonempty b)).
  destruct (Py.contains (binding_text b) " as ") eqn:Has.
  - rewrite add_type_assertion_kept by done.
    rewrite (sub_go_anywhere pattern1 _ post
               (0 + String.length pre + String.length (binding_text b)) 0)
      by done.
    by destruct (sub_go pattern1 add_type_assertion post 0 0 0).
  - rewrite add_type_assertion_binding by done.
    rewrite (sub_go_anywhere pattern1 _ post
               (0 + String.length pre + String.length (binding_text b)) 0)
      by done.
    rewrite (sub_go_from_zero _ _ _ _ _ (0 + 1) add_type_assertion_from_zero).
    by destruct (sub_go pattern1 add_type_assertion post 0 0 0).
Qed.

Lemma contains_skip c needle w s :
  free_of c w = true ->
  Py.contains (w +:+ s) (String c needle) = Py.contains s (String c needle).
Proof.
  unfold free_of. induction w as [|a w IH]; [done|].
  cbn [all_in]. intros [Ha Hw]%andb_true_iff. apply negb_true_iff in Ha.
  rewrite str_app_cons. cbn [Py.contains Py.startswith]. rewrite Ha.
  by apply IH.
Qed.

Lemma startswith_as v x s :
  word v = true -> Py.is_word x = false ->
  Py.startswith (v +:+ String x s) "as "
  = String.eqb v "as" && Ascii.eqb " " x.
Proof.
  intros Hv Hx.
  assert (Ascii.eqb "s" x = false) as Hs.
  { apply Ascii.eqb_neq. by intros <-. }
  destruct v as [|c1 [|c2 [|c3 v]]]; [done|..]; cbn [word all_in] in Hv.
  - cbn [String.append Py.startswith String.eqb]. rewrite Hs.
    rewrite (Ascii.eqb_sym "a" c1). by destruct (Ascii.eqb c1 "a").
  - cbn [String.append Py.startswith String.eqb].
    rewrite (Ascii.eqb_sym "a" c1), (Ascii.eqb_sym "s" c2).
    destruct (Ascii.eqb c1 "a"); [|done].
    destruct (Ascii.eqb c2 "s"); [|done].
    by destruct (Ascii.eqb " " x).
  - cbn [String.append Py.startswith String.eqb].
    assert (Ascii.eqb " " c3 = false) as H3.
    { apply Ascii.eqb_neq. intros <-.
      by rewrite !andb_true_iff in Hv; destruct Hv as (_ & _ & ? & _). }
    rewrite H3, (Ascii.eqb_sym "a" c1), (Ascii.eqb_sym "s" c2).
    destruct (Ascii.eqb c1 "a"); [|done].
    by destruct (Ascii.eqb c2 "s").
Qed.

(** The text [add_type_assertion] writes holds an [as] between two spaces
    only as the last name it binds. *)
Lemma binding_canonical_as b :
  binding_ok b = true ->
  Py.contains (binding_canonical b) " as "
  = match error_var b with
    | Some (_, _, name) => String.eqb name "as"
    | None => String.eqb (data_var b) "as"
    end.
Proof.
  intros Hb. unfold binding_ok in Hb.
  repeat (apply andb_true_iff in Hb as [Hb ?]).
  assert (free_of " " (data_var b) = true) as Fv by (by apply free_of_word).
  assert (free_of " " (table b) = true) as Ft by (by apply free_of_word).
  assert (forall s : string,
            Py.contains (" } = await supabase.from('" +:+ table b +:+ s) " as "
            = Py.contains s " as ") as Htail.
  { intros s.
    change (Py.contains (" } = await supabase.from('" +:+ table b +:+ s) " as ")
      with (Py.contains (table b +:+ s) " as ").
    by apply contains_skip. }
  unfold binding_canonical.
  change (Py.contains ("const { data: " +:+ ?x) " as ")
    with (Py.startswith x "as " || Py.contains x " as ").
  destruct (error_var b) as [[[w1 w2] name]|] eqn:He.
  - match goal with H : error_part_ok _ = true |- _ =>
      simpl in H; apply andb_true_iff in H as [_ Hname] end.
    assert (free_of " " name = true) as Fn by (by apply free_of_word).
    rewrite !str_app_assoc.
    change (", error: " +:+ ?x) with (String "," (" error: " +:+ x)).
    rewrite startswith_as by done. rewrite andb_false_r, orb_false_l.
    rewrite contains_skip by done.
    change (Py.contains (String "," (" error: " +:+ ?x)) " as ")
      with (Py.startswith x "as " || Py.contains x " as ").
    change (" } = await supabase.from('" +:+ ?x)
      with (String " " ("} = await supabase.from('" +:+ x)).
    rewrite startswith_as by done. rewrite andb_true_r.
    rewrite contains_skip by done.
    change (String " " ("} = await supabase.from('" +:+ ?x))
      with (" } = await supabase.from('" +:+ x).
    rewrite Htail. by rewrite orb_false_r.
  - rewrite str_app_nil_l.
    change (" } = await supabase.from('" +:+ ?x)
      with (String " " ("} = await supabase.from('" +:+ x)).
    rewrite startswith_as by done. rewrite andb_true_r.
    rewrite contains_skip by done.
    change (String " " ("} = await supabase.from('" +:+ ?x))
      with (" } = await supabase.from('" +:+ x).
    rewrite Htail. by rewrite orb_false_r.
Qed.

End Binding_in_text.




(** X10.  The text that [add_type_assertion] writes for a statement that
    [pattern1] matches, with one space between the tokens and single quotes
    around the table, is again a statement that the pattern matches, and
    it is the text that [add_type_assertion] writes for it.  It holds an
    [as] between two spaces exactly when the last name it binds, the error
    or else the data, is [as].  So in a text where nothing before it
    matches, the rule gives this text back as it is, and counts it once
    more unless that name is [as]. *)
Theorem untyped_binding_canonical (b : binding) :
  binding_ok b = true ->
  binding_text (canonical_binding b) = binding_canonical b
  /\ binding_ok (canonical_binding b) = true
  /\ binding_canonical (canonical_binding b) = binding_canonical b
  /\ Py.contains (binding_canonical b) " as "
     = match error_var b with
       | Some (_, _, name) => String.eqb name "as"
       | None => String.eqb (data_var b) "as"
       end
  /\ (forall pre post : string,
         starts_nowhere Rules.pattern1 pre (binding_canonical b +:+ post)
         = true ->
         untyped_binding_rule (pre +:+ binding_canonical b +:+ post)
         = (pre +:+ binding_canonical b +:+ (untyped_binding_rule post).1,
            (if Py.contains (binding_canonical b) " as " then 0 else 1)
            + (untyped_binding_rule post).2)).
Proof.
  intros Hb.
  split; [apply canonical_binding_text|].
  split; [by apply canonical_binding_ok|].
  split; [apply canonical_binding_canonical|].
  split; [by apply binding_canonical_as|].
  intros pre post Hpre.
  pose proof (untyped_binding_rule_at pre (canonical_binding b) post
                (canonical_binding_ok b Hb)) as H.
  rewrite canonical_binding_canonical, canonical_binding_text in H.
  rewrite (H Hpre). by destruct (Py.contains (binding_canonical b) " as ").
Qed.

Lemma untyped_binding_canonical_witness :
  let b := supabase_query_binding in
  binding_text (canonical_binding b) = binding_canonical b
  /\ binding_ok (canonical_binding b) = true
  /\ binding_canonical (canonical_binding b) = binding_canonical b
  /\ Py.contains (binding_canonical b) " as " = false
  /\ untyped_binding_rule ("return 0; " +:+ supabase_query_rewritten)
     = ("return 0; " +:+ supabase_query_rewritten, 1).
Proof.
  pose proof (untyped_binding_canonical supabase_query_binding eq_refl)
    as (H1 & H2 & H3 & H4 & H5).
  exact (conj H1 (conj H2 (conj H3 (conj H4 (H5 "return 0; " "'*');" eq_refl))))).
Defined.
